(** * DeyFinder: the job synthesis pipeline of [api/lib/jobFinder.ts]

    A shallow embedding of the resume truncation helper, the embedded-JSON
    extractor, the search-provider table, the company normaliser, the link
    repair step and the posting assembly, followed by the properties the
    specification states about them.

    Conventions.
    - A JavaScript string is a [string]: a finite sequence of code units.
      The alphabet is the 8-bit range (Latin-1), which contains every
      literal of the source; [length], [slice] and [indexOf] count code
      units exactly as the source does.
    - A JavaScript integer (hash, seed, timestamp) is a [Z]; the 32-bit
      wrap-around of [hash |= 0] is written out.
    - [undefined]/[null] are [None]; a [throw] is the [Throws] outcome.
    - The platform constructors the source calls but does not define
      ([JSON.parse], [new URL]) are operations of the class [Platform];
      every general theorem holds for all instances, and a reference
      instance is supplied for evaluation on concrete inputs. *)

From Stdlib Require Import Bool Arith ZArith List Ascii String Lia.
From Stdlib Require Import DecimalString.
From Stdlib Require DecimalZ Finite.

Set Warnings "-abstract-large-number,-register-all".
Import ListNotations.

Open Scope string_scope.

(** ** Outcomes of fallible code *)

Inductive Outcome (A : Type) : Type :=
| Returns (a : A)
| Throws (msg : string).
Arguments Returns {A} a.
Arguments Throws {A} msg.

Definition bindO {A B} (o : Outcome A) (k : A -> Outcome B) : Outcome B :=
  match o with
  | Returns a => k a
  | Throws m => Throws m
  end.

Notation "x <- c ;; k" := (bindO c (fun x => k))
  (at level 61, c at next level, right associativity).

(** [try { body } catch { handler }] *)
Definition tryCatch {A} (body handler : Outcome A) : Outcome A :=
  match body with
  | Returns a => Returns a
  | Throws _ => handler
  end.

(** ** String primitives of the platform *)

Module JS.

(** [s.slice(b, e)] for non-negative indices. *)
Definition slice (s : string) (b e : nat) : string := substring b (e - b) s.

(** [s.slice(b)] *)
Definition sliceFrom (s : string) (b : nat) : string :=
  substring b (length s - b) s.

Definition startsWith (s p : string) : bool := prefix p s.

(** [s.includes(needle)] *)
Fixpoint includes (s needle : string) : bool :=
  if prefix needle s then true
  else match s with
       | EmptyString => false
       | String _ r => includes r needle
       end.

(** [s.indexOf(c)] for a single code unit; [None] is [-1]. *)
Fixpoint indexOf (c : ascii) (s : string) : option nat :=
  match s with
  | EmptyString => None
  | String a r =>
      if Ascii.eqb a c then Some 0
      else match indexOf c r with
           | Some i => Some (S i)
           | None => None
           end
  end.

(** [s.lastIndexOf(c)] for a single code unit; [None] is [-1]. *)
Fixpoint lastIndexOf (c : ascii) (s : string) : option nat :=
  match s with
  | EmptyString => None
  | String a r =>
      match lastIndexOf c r with
      | Some i => Some (S i)
      | None => if Ascii.eqb a c then Some 0 else None
      end
  end.

(** Code-unit classes. *)
Definition code (c : ascii) : N := N_of_ascii c.

Definition between (lo hi : N) (c : ascii) : bool :=
  (N.leb lo (code c) && N.leb (code c) hi)%bool.

Definition isDigit (c : ascii) : bool := between 48 57 c.
Definition isLowerAZ (c : ascii) : bool := between 97 122 c.
Definition isUpperAZ (c : ascii) : bool := between 65 90 c.
Definition isAlnum (c : ascii) : bool := (isDigit c || isLowerAZ c || isUpperAZ c)%bool.

(** [\w] of a regular expression without the unicode flag. *)
Definition isWordChar (c : ascii) : bool := (isAlnum c || Ascii.eqb c "_")%bool.

(** White space and line terminators ([\s], and what [trim] strips):
    TAB, LF, VT, FF, CR, SP and NBSP are the ones in the 8-bit range. *)
Definition isWhitespace (c : ascii) : bool :=
  (between 9 13 c || N.eqb (code c) 32 || N.eqb (code c) 160)%bool.

(** [toLowerCase] on one code unit: A-Z, and the Latin-1 capitals
    U+00C0..U+00DE without the multiplication sign. *)
Definition lowerChar (c : ascii) : ascii :=
  if (isUpperAZ c || (between 192 222 c && negb (N.eqb (code c) 215)))%bool
  then ascii_of_N (code c + 32) else c.

Fixpoint toLowerCase (s : string) : string :=
  match s with
  | EmptyString => EmptyString
  | String c r => String (lowerChar c) (toLowerCase r)
  end.

(** [toUpperCase] on one code unit.  The sharp s expands to two units; the
    capitals of the micro sign and of y-diaeresis lie outside the 8-bit
    range and those two units are left as they are. *)
Definition upperChar (c : ascii) : string :=
  if (isLowerAZ c || (between 224 254 c && negb (N.eqb (code c) 247)))%bool
  then String (ascii_of_N (code c - 32)) ""
  else if N.eqb (code c) 223 then "SS"
  else String c "".

Fixpoint trimStart (s : string) : string :=
  match s with
  | EmptyString => EmptyString
  | String c r => if isWhitespace c then trimStart r else s
  end.

Fixpoint trimEnd (s : string) : string :=
  match s with
  | EmptyString => EmptyString
  | String c r =>
      let r' := trimEnd r in
      if (isWhitespace c && String.eqb r' "")%bool then "" else String c r'
  end.

Definition trim (s : string) : string := trimEnd (trimStart s).

(** Truthiness of a string: [Boolean(s)]. *)
Definition truthy (s : string) : bool := negb (String.eqb s "").

(** [s.split(sep)] for a one-unit separator given as a class. *)
Fixpoint splitAux (d : ascii -> bool) (s cur : string) : list string :=
  match s with
  | EmptyString => [cur]
  | String c r =>
      if d c then cur :: splitAux d r ""
      else splitAux d r (cur ++ String c "")
  end.

Definition split (d : ascii -> bool) (s : string) : list string :=
  splitAux d s "".

(** [s.split(/[class]+/)]: the separators are the maximal runs. *)
Fixpoint splitRunsAux (d : ascii -> bool) (s cur : string) (inRun : bool)
  : list string :=
  match s with
  | EmptyString => [cur]
  | String c r =>
      if d c then
        if inRun then splitRunsAux d r cur true
        else cur :: splitRunsAux d r "" true
      else splitRunsAux d r (cur ++ String c "") false
  end.

Definition splitRuns (d : ascii -> bool) (s : string) : list string :=
  splitRunsAux d s "" false.

(** [list.join(sep)] *)
Definition join (sep : string) (l : list string) : string := concat sep l.

(** [s.charAt(0)] *)
Definition charAt0 (s : string) : option ascii :=
  match s with
  | EmptyString => None
  | String c _ => Some c
  end.

(** [String(n)] for an integer. *)
Definition numberToString (z : Z) : string :=
  NilEmpty.string_of_int (Z.to_int z).

(** [x | 0]: reduction to a signed 32-bit integer. *)
Definition toInt32 (z : Z) : Z :=
  ((z + 2147483648) mod 4294967296 - 2147483648)%Z.

(** A word boundary [\b] between two neighbouring units ([None] at an end
    of the input). *)
Definition isWordOpt (o : option ascii) : bool :=
  match o with
  | Some c => isWordChar c
  | None => false
  end.

Definition wordBoundary (before after : option ascii) : bool :=
  xorb (isWordOpt before) (isWordOpt after).

Fixpoint lastChar (s : string) : option ascii :=
  match s with
  | EmptyString => None
  | String c EmptyString => Some c
  | String _ r => lastChar r
  end.

(** Does [alt], delimited by word boundaries, start at the head of [s]?
    [before] is the unit that precedes [s] in the subject. *)
Definition boundedAt (before : option ascii) (s alt : string) : bool :=
  (prefix alt s
   && wordBoundary before (charAt0 s)
   && wordBoundary (lastChar alt) (charAt0 (sliceFrom s (length alt))))%bool.

(** [/\b(alt1|alt2|...)\b/.test(s)] for non-empty literal alternatives. *)
Fixpoint testBoundedFrom (alts : list string) (before : option ascii)
  (s : string) : bool :=
  (existsb (boundedAt before s) alts
   || match s with
      | EmptyString => false
      | String c r => testBoundedFrom alts (Some c) r
      end)%bool.

Definition testBounded (alts : list string) (s : string) : bool :=
  testBoundedFrom alts None s.

(** [/^(alt1|alt2|...)$/i.test(s)] for alternatives written in lower-case
    ASCII letters. *)
Definition testWholeCaseless (alts : list string) (s : string) : bool :=
  existsb (String.eqb (toLowerCase s)) alts.

(** [s.replace(/pat/gi, by)] for a non-empty pattern written in lower-case
    ASCII letters: leftmost matches, non-overlapping. *)
Fixpoint replaceAllCaselessAux (fuel : nat) (pat by_ s : string) : string :=
  match fuel with
  | O => s
  | S fuel' =>
      match s with
      | EmptyString => EmptyString
      | String c r =>
          if prefix pat (toLowerCase s)
          then by_ ++ replaceAllCaselessAux fuel' pat by_
                        (sliceFrom s (length pat))
          else String c (replaceAllCaselessAux fuel' pat by_ r)
      end
  end.

Definition replaceAllCaseless (pat by_ s : string) : string :=
  replaceAllCaselessAux (length s) pat by_ s.

(** *** URLSearchParams *)

Definition URLSearchParams : Type := list (string * string).

(** [params.set(name, value)]: the first pair of that name is overwritten
    and the later ones removed; a new name is appended. *)
Fixpoint paramsSet (ps : URLSearchParams) (name value : string)
  : URLSearchParams :=
  match ps with
  | [] => [(name, value)]
  | (n, v) :: r =>
      if String.eqb n name
      then (name, value) :: filter (fun p => negb (String.eqb (fst p) name)) r
      else (n, v) :: paramsSet r name value
  end.

Definition hexDigit (n : N) : ascii :=
  if N.ltb n 10 then ascii_of_N (48 + n) else ascii_of_N (55 + n).

Definition percentByte (b : N) : string :=
  String "%" (String (hexDigit (N.div b 16)) (String (hexDigit (N.modulo b 16)) "")).

(** One byte under the application/x-www-form-urlencoded serializer. *)
Definition formByte (b : N) : string :=
  let c := ascii_of_N b in
  if N.eqb b 32 then "+"
  else if (N.ltb b 128
           && (isAlnum c || N.eqb b 42 || N.eqb b 45 || N.eqb b 46 || N.eqb b 95))%bool
       then String c ""
       else percentByte b.

(** UTF-8 of one code unit of the 8-bit range. *)
Definition utf8 (c : ascii) : list N :=
  let n := code c in
  if N.ltb n 128 then [n]
  else [(192 + N.div n 64)%N; (128 + N.modulo n 64)%N].

Fixpoint formEncode (s : string) : string :=
  match s with
  | EmptyString => EmptyString
  | String c r => concat "" (map formByte (utf8 c)) ++ formEncode r
  end.

(** [params.toString()] *)
Definition paramsToString (ps : URLSearchParams) : string :=
  join "&" (map (fun p => formEncode (fst p) ++ "=" ++ formEncode (snd p)) ps).

End JS.

(** ** Values and constructors supplied by the platform *)

(** A parsed JSON text.  A number literal is kept as the exact decimal
    [mantissa * 10 ^ exponent]; the program never inspects a number. *)
Inductive Json : Type :=
| JNull
| JBool (b : bool)
| JNumber (mantissa exponent : Z)
| JString (s : string)
| JArray (items : list Json)
| JObject (fields : list (string * Json)).

(** The two components of a parsed URL that the program reads. *)
Module URL.
Record t : Type := mk { hostname : string; pathname : string }.
End URL.

(** [JSON.parse(text)] and [new URL(link)]; both may throw. *)
Class Platform : Type := {
  JSON_parse : string -> Outcome Json;
  URL_new : string -> Outcome URL.t
}.

(** ** Data model *)

Module JobQuery.
Record t : Type := mk { title : string; query : string }.
End JobQuery.

Module JobPosting.
Record t : Type := mk {
  id : string;
  title : string;
  company : string;
  location : option string;
  salary : option string;
  description : string;
  url : string;
  source : string;
  postedAt : option string
}.
End JobPosting.

Module SearchProvider.
Record t : Type := mk {
  name : string;
  hosts : list string;
  buildUrl : JobQuery.t -> option string -> option string -> bool -> string
}.
End SearchProvider.

Module Link.
Record t : Type := mk { url : string; source : string }.
End Link.

Module CompanyBucket.
Record t : Type := mk { keywords : list string; companies : list string }.
End CompanyBucket.

(** ** Resume truncation *)

Definition MAX_RESUME_LENGTH : nat := 8000.

Definition truncateContent (content : string) : string :=
  if negb (JS.truthy content) then ""
  else if Nat.leb (length content) MAX_RESUME_LENGTH then content
  else JS.slice content 0 MAX_RESUME_LENGTH ++ "...".

(** ** Search providers *)

(** [list.filter(Boolean)] on strings and [null]s. *)
Fixpoint filterTruthy (l : list (option string)) : list string :=
  match l with
  | [] => []
  | Some s :: r => if JS.truthy s then s :: filterTruthy r else filterTruthy r
  | None :: r => filterTruthy r
  end.

(** [company ? `${company} ${query.title}` : query.query] *)
Definition searchSubject (query : JobQuery.t) (company : option string) : string :=
  match company with
  | Some c => if JS.truthy c then c ++ " " ++ JobQuery.title query
              else JobQuery.query query
  | None => JobQuery.query query
  end.

(** [location?.trim()] when it is truthy. *)
Definition trimmedLocation (location : option string) : option string :=
  match location with
  | Some l => if JS.truthy (JS.trim l) then Some (JS.trim l) else None
  | None => None
  end.

Definition setIf (c : bool) (name value : string) (ps : JS.URLSearchParams)
  : JS.URLSearchParams :=
  if c then JS.paramsSet ps name value else ps.

(** [if (!remote && location?.trim()) params.set(name, location.trim())] *)
Definition setLocation (remote : bool) (location : option string)
  (name : string) (ps : JS.URLSearchParams) : JS.URLSearchParams :=
  match trimmedLocation location with
  | Some l => if negb remote then JS.paramsSet ps name l else ps
  | None => ps
  end.

Definition linkedInUrl (query : JobQuery.t) (company location : option string)
  (remote : bool) : string :=
  let keywords :=
    JS.join " " (filterTruthy [Some (searchSubject query company);
                               if remote then Some "remote" else None]) in
  let params := setIf (JS.truthy keywords) "keywords" keywords [] in
  let params := setLocation remote location "location" params in
  "https://www.linkedin.com/jobs/search/?" ++ JS.paramsToString params.

Definition jobStreetUrl (query : JobQuery.t) (company location : option string)
  (remote : bool) : string :=
  let keywords :=
    JS.join " " (filterTruthy [Some (searchSubject query company);
                               if remote then Some "work from home" else None]) in
  let params := setIf (JS.truthy keywords) "keywords" keywords [] in
  let params := JS.paramsSet params "page" "1" in
  let params := setLocation remote location "locations" params in
  "https://www.jobstreet.com/search/jobs?" ++ JS.paramsToString params.

Definition glassdoorUrl (query : JobQuery.t) (company location : option string)
  (remote : bool) : string :=
  let keyword :=
    JS.join " " (filterTruthy [Some (searchSubject query company);
                               if remote then Some "remote" else None]) in
  let params := setIf (JS.truthy keyword) "sc.keyword" keyword [] in
  let params :=
    match (if remote then None else trimmedLocation location) with
    | Some l => JS.paramsSet (JS.paramsSet params "locT" "C") "locName" l
    | None => JS.paramsSet (JS.paramsSet params "locT" "N") "locId" "1"
    end in
  let params := JS.paramsSet params "p" "1" in
  "https://www.glassdoor.com/Job/jobs.htm?" ++ JS.paramsToString params.

Definition prospleUrl (query : JobQuery.t) (company location : option string)
  (remote : bool) : string :=
  let keywords := JS.join " " (filterTruthy [Some (searchSubject query company)]) in
  let params := setIf (JS.truthy keywords) "keywords" keywords [] in
  let params :=
    if remote then JS.paramsSet params "location" "Remote"
    else match trimmedLocation location with
         | Some l => JS.paramsSet params "location" l
         | None => params
         end in
  "https://prosple.com/search-jobs?" ++ JS.paramsToString params.

Definition indeedUrl (query : JobQuery.t) (company location : option string)
  (remote : bool) : string :=
  let keywords :=
    JS.join " " (filterTruthy [Some (searchSubject query company);
                               if remote then Some "remote" else None]) in
  let params := setIf (JS.truthy keywords) "q" keywords [] in
  let params := setLocation remote location "l" params in
  "https://www.indeed.com/jobs?" ++ JS.paramsToString params.

Definition SEARCH_PROVIDERS : list SearchProvider.t := [
  SearchProvider.mk "LinkedIn search" ["linkedin.com"] linkedInUrl;
  SearchProvider.mk "JobStreet search" ["jobstreet.com"] jobStreetUrl;
  SearchProvider.mk "Glassdoor search" ["glassdoor.com"] glassdoorUrl;
  SearchProvider.mk "Prosple search" ["prosple.com"] prospleUrl;
  SearchProvider.mk "Indeed search" ["indeed.com"] indeedUrl
].

Definition AGGREGATOR_HOSTS : list string :=
  flat_map SearchProvider.hosts SEARCH_PROVIDERS.

Definition findProviderForHost (hostname : string) : option SearchProvider.t :=
  let lowerHost := JS.toLowerCase hostname in
  find (fun provider =>
          existsb (fun host => JS.includes lowerHost host)
                  (SearchProvider.hosts provider))
       SEARCH_PROVIDERS.

(** [SEARCH_PROVIDERS[index]]; using an absent entry is a TypeError. *)
Definition providerAt (index : Z) : Outcome SearchProvider.t :=
  match nth_error SEARCH_PROVIDERS (Z.to_nat index) with
  | Some provider => Returns provider
  | None => Throws "TypeError: provider is undefined"
  end.

Definition selectSearchProvider (indexSeed : Z) : Outcome SearchProvider.t :=
  if Nat.eqb (List.length SEARCH_PROVIDERS) 0
  then Throws "No search providers configured."
  else
    let index := Z.rem (Z.abs indexSeed) (Z.of_nat (List.length SEARCH_PROVIDERS)) in
    providerAt index.

Definition buildSearchLink (query : JobQuery.t) (company location : option string)
  (remote : bool) (seed : Z) : Outcome Link.t :=
  provider <- selectSearchProvider seed ;;
  let url := SearchProvider.buildUrl provider query company location remote in
  Returns (Link.mk url (SearchProvider.name provider)).

(** ** Company names *)

Definition isSlugSeparator (c : ascii) : bool :=
  (Ascii.eqb c "-" || Ascii.eqb c "_" || JS.isWhitespace c)%bool.

Definition capitalise (segment : string) : string :=
  match segment with
  | EmptyString => EmptyString
  | String c _ => JS.upperChar c ++ JS.sliceFrom segment 1
  end.

Definition toTitleCase (slug : string) : string :=
  JS.join " "
    (map capitalise (filter JS.truthy (JS.splitRuns isSlugSeparator slug))).

(** [value.replace(/[^a-z0-9]+/g, '')] *)
Fixpoint keepLowerAlnum (s : string) : string :=
  match s with
  | EmptyString => EmptyString
  | String c r =>
      if (JS.isLowerAZ c || JS.isDigit c)%bool then String c (keepLowerAlnum r)
      else keepLowerAlnum r
  end.

Definition slugify (value : string) : string :=
  keepLowerAlnum (JS.toLowerCase value).

Definition GENERIC_PHRASES : list string := [
  "various companies"; "various employers";
  "multiple companies"; "multiple employers";
  "several companies"; "several employers";
  "numerous companies"; "numerous employers";
  "diverse companies"; "diverse employers";
  "leading company"; "leading employer";
  "top company"; "top employer";
  "major company"; "major employer";
  "global company"; "global employer";
  "confidential company"; "confidential employer";
  "stealth company"; "stealth employer"
].

Definition PLACEHOLDER_TOKENS : list string :=
  ["n/a"; "na"; "tbd"; "tba"; "unknown"; "unspecified"; "not provided";
   "not specified"].

Definition BARE_NOUNS : list string :=
  ["company"; "employer"; "organisation"; "organization"].

Definition isGenericCompanyName (name : string) : bool :=
  let normalised := JS.toLowerCase (JS.trim name) in
  if negb (JS.truthy normalised) then true
  else if Nat.leb (length normalised) 2 then true
  else if existsb (fun phrase => JS.includes normalised phrase) GENERIC_PHRASES
       then true
  else if JS.testBounded PLACEHOLDER_TOKENS normalised then true
  else if JS.testWholeCaseless BARE_NOUNS normalised then true
  else false.

Definition COMPANY_BUCKETS : list CompanyBucket.t := [
  CompanyBucket.mk
    ["data"; "analytics"; "machine learning"; "ml"; "ai"; "scientist"]
    ["Snowflake"; "Databricks"; "Palantir"; "Anthropic"; "Airbnb"];
  CompanyBucket.mk
    ["frontend"; "javascript"; "typescript"; "react"; "ui"; "web"]
    ["Vercel"; "Netlify"; "Canva"; "Shopify"; "Pinterest"];
  CompanyBucket.mk
    ["backend"; "api"; "server"; "distributed"; "platform"]
    ["Cloudflare"; "HashiCorp"; "Twilio"; "DigitalOcean"; "MongoDB"];
  CompanyBucket.mk
    ["devops"; "infrastructure"; "sre"; "platform engineering"; "observability"]
    ["Datadog"; "PagerDuty"; "GitHub"; "GitLab"; "New Relic"];
  CompanyBucket.mk
    ["mobile"; "android"; "ios"; "swift"; "kotlin"]
    ["Spotify"; "Duolingo"; "Lyft"; "Uber"; "Headspace"];
  CompanyBucket.mk
    ["security"; "infosec"; "appsec"; "threat"; "soc"; "zero trust"]
    ["Okta"; "CrowdStrike"; "Snyk"; "Cloudflare"; "1Password"];
  CompanyBucket.mk
    ["product manager"; "product management"; "pm"]
    ["Atlassian"; "Notion"; "Asana"; "Monday.com"; "Linear"];
  CompanyBucket.mk
    ["designer"; "design"; "ux"; "ui"; "product design"]
    ["Figma"; "Adobe"; "Canva"; "IDEO"; "InVision"];
  CompanyBucket.mk
    ["marketing"; "growth"; "content"; "brand"; "demand"]
    ["HubSpot"; "Klaviyo"; "Mailchimp"; "Sprout Social"; "Canva"];
  CompanyBucket.mk
    ["sales"; "account executive"; "account manager"; "business development"]
    ["Salesforce"; "Gong"; "Outreach"; "HubSpot"; "Zendesk"];
  CompanyBucket.mk
    ["finance"; "fintech"; "bank"; "financial"]
    ["Stripe"; "Plaid"; "Square"; "Chime"; "Robinhood"];
  CompanyBucket.mk
    ["health"; "healthcare"; "medtech"; "clinical"; "pharma"]
    ["Teladoc"; "Walgreens Health"; "Johnson & Johnson"; "Moderna"; "One Medical"];
  CompanyBucket.mk
    ["education"; "edtech"; "teacher"; "learning"]
    ["Duolingo"; "Coursera"; "Khan Academy"; "Udemy"; "Outschool"];
  CompanyBucket.mk
    ["gaming"; "game"; "unity"; "unreal"]
    ["Riot Games"; "Epic Games"; "Blizzard Entertainment"; "Ubisoft"; "Supercell"]
].

Definition DEFAULT_COMPANIES : list string :=
  ["Stripe"; "Canva"; "Atlassian"; "HubSpot"; "GitLab"; "Notion"; "Figma";
   "Twilio"; "Airbnb"; "Spotify"].

(** One turn of the loop of [hashString]:
    [hash = (hash << 5) - hash + code; hash |= 0]. *)
Definition hashStep (hash : Z) (c : ascii) : Z :=
  JS.toInt32 (JS.toInt32 (Z.shiftl hash 5) - hash + Z.of_N (JS.code c)).

Fixpoint hashFrom (hash : Z) (value : string) : Z :=
  match value with
  | EmptyString => hash
  | String c r => hashFrom (hashStep hash c) r
  end.

Definition hashString (value : string) : Z := hashFrom 0 value.

(** [companies[position]]; the empty string stands for [undefined], which
    no table of the source can yield (see [pickSampleCompany_in_tables]). *)
Definition companyAt (companies : list string) (position : Z) : string :=
  nth (Z.to_nat position) companies "".

Definition pickSampleCompany (query : JobQuery.t) (index : nat) : string :=
  let haystack :=
    JS.toLowerCase (JobQuery.title query ++ " " ++ JobQuery.query query) in
  match find (fun bucket =>
                existsb (fun keyword => JS.includes haystack keyword)
                        (CompanyBucket.keywords bucket))
             COMPANY_BUCKETS with
  | Some bucket =>
      let offset := Z.abs (hashString haystack) in
      let position :=
        Z.rem (offset + Z.of_nat index)
              (Z.of_nat (List.length (CompanyBucket.companies bucket))) in
      companyAt (CompanyBucket.companies bucket) position
  | None =>
      let fallbackPosition :=
        Z.rem (Z.abs (hashString haystack) + Z.of_nat index)
              (Z.of_nat (List.length DEFAULT_COMPANIES)) in
      companyAt DEFAULT_COMPANIES fallbackPosition
  end.

Definition BLOCKED_ROOTS : list string :=
  ["greenhouse"; "lever"; "ashbyhq"; "wellfound"; "linkedin"; "indeed";
   "ziprecruiter"; "glassdoor"; "workable"; "smartrecruiters"; "jobvite";
   "myworkdayjobs"; "jobs"].

(** [pathSegments[0] ? toTitleCase(pathSegments[0]) : undefined] *)
Definition titleOfSegment (segment : option string) : option string :=
  match segment with
  | Some seg => if JS.truthy seg then Some (toTitleCase seg) else None
  | None => None
  end.

(** [host.replace(/^www\./, '')] *)
Definition stripWww (host : string) : string :=
  if JS.startsWith host "www." then JS.sliceFrom host 4 else host.

(** [pathSegments.findIndex((segment) => segment === 'company')] *)
Fixpoint findIndex (f : string -> bool) (l : list string) : option nat :=
  match l with
  | [] => None
  | x :: r => if f x then Some 0
              else match findIndex f r with
                   | Some i => Some (S i)
                   | None => None
                   end
  end.

(** One [if (...) return ...] statement: it returns a value ([None] is
    [undefined]) or lets control fall through to the next statement. *)
Inductive Step : Type :=
| Return (result : option string)
| Continue.

Fixpoint runSteps (steps : list Step) : option string :=
  match steps with
  | [] => None
  | Return result :: _ => result
  | Continue :: rest => runSteps rest
  end.

(** [if (host.includes(domain)) { body }] *)
Definition whenHost (host domain : string) (body : Step) : Step :=
  if JS.includes host domain then body else Continue.

(** [if (segment) return toTitleCase(segment)], with fall-through. *)
Definition returnTitle (segment : option string) : Step :=
  match titleOfSegment segment with
  | Some name => Return (Some name)
  | None => Continue
  end.

(** The host-specific rules of [deriveCompanyFromLink], after the URL has
    been parsed. *)
Definition deriveCompanyFromUrl (url : URL.t) : option string :=
  let host := JS.toLowerCase (URL.hostname url) in
  let pathSegments :=
    filter JS.truthy (JS.split (Ascii.eqb "/") (URL.pathname url)) in
  let first := nth_error pathSegments 0 in
  let subdomain := nth_error (JS.split (Ascii.eqb ".") host) 0 in
  let trimmedHost := stripWww host in
  let hostParts := JS.split (Ascii.eqb ".") trimmedHost in
  let domainRoot :=
    if Nat.ltb 2 (List.length hostParts)
    then nth_error hostParts (List.length hostParts - 2)
    else nth_error hostParts 0 in
  runSteps [
    whenHost host "greenhouse.io" (Return (titleOfSegment first));
    whenHost host "lever.co" (Return (titleOfSegment first));
    whenHost host "ashbyhq.com" (Return (titleOfSegment first));
    whenHost host "workable.com"
      (match subdomain with
       | Some sd =>
           if (JS.truthy sd && negb (String.eqb sd "www")
               && negb (String.eqb sd "jobs"))%bool
           then Return (Some (toTitleCase sd)) else Continue
       | None => Continue
       end);
    whenHost host "smartrecruiters.com" (Return (titleOfSegment first));
    whenHost host "jobvite.com" (Return (titleOfSegment first));
    whenHost host "wellfound.com"
      (match findIndex (String.eqb "company") pathSegments with
       | Some companyIndex =>
           returnTitle (nth_error pathSegments (companyIndex + 1))
       | None => Continue
       end);
    whenHost host "myworkdayjobs.com" (returnTitle first);
    (if (existsb (fun aggregatorHost => JS.includes host aggregatorHost)
                 AGGREGATOR_HOSTS
         || JS.includes host "ziprecruiter.com")%bool
     then Return None else Continue);
    (match domainRoot with
     | Some root =>
         if existsb (String.eqb root) BLOCKED_ROOTS then Return None
         else Return (if JS.truthy root then Some (toTitleCase root) else None)
     | None => Return None
     end)
  ].

(** ** The deterministic fallback postings *)

(** [remote ? 'Remote' : location || 'Flexible location'] *)
Definition locationLabel (location : option string) (remote : bool) : string :=
  if remote then "Remote"
  else match location with
       | Some l => if JS.truthy l then l else "Flexible location"
       | None => "Flexible location"
       end.

Definition decimal (n : nat) : string := JS.numberToString (Z.of_nat n).

Definition fallbackJob (now : Z) (location : option string) (remote : bool)
  (query : JobQuery.t) (queryIndex offset : nat) : Outcome JobPosting.t :=
  let company := pickSampleCompany query (queryIndex + offset) in
  let seed :=
    hashString (JobQuery.title query ++ ":" ++ JobQuery.query query ++ ":"
                ++ decimal queryIndex ++ ":" ++ decimal offset) in
  provider <-
    providerAt (Z.rem (Z.abs seed) (Z.of_nat (List.length SEARCH_PROVIDERS))) ;;
  let url :=
    SearchProvider.buildUrl provider query (Some company) location remote in
  Returns (JobPosting.mk
    ("fallback-" ++ decimal queryIndex ++ "-" ++ decimal offset ++ "-"
       ++ JS.numberToString now)
    (JobQuery.title query ++ " at " ++ company)
    company
    (Some (locationLabel location remote))
    None
    ("Browse " ++ company ++ " and peer organisations hiring for "
       ++ JobQuery.title query ++ ". This search stays focused on "
       ++ (if remote then "remote-first" else locationLabel location remote)
       ++ " roles.")
    url
    (SearchProvider.name provider)
    None).

(** [list.map((x, i) => f(i, x))] for a callback that may throw;
    [start] is the index of the head. *)
Fixpoint mapWithIndex {A B} (f : nat -> A -> Outcome B) (start : nat)
  (l : list A) : Outcome (list B) :=
  match l with
  | [] => Returns []
  | x :: r =>
      y <- f start x ;;
      ys <- mapWithIndex f (S start) r ;;
      Returns (y :: ys)
  end.

(** [list.flatMap((x, i) => f(i, x))] *)
Definition flatMapWithIndex {A B} (f : nat -> A -> Outcome (list B))
  (l : list A) : Outcome (list B) :=
  groups <- mapWithIndex f 0 l ;;
  Returns (List.concat groups).

(** [Math.max(SEARCH_PROVIDERS.length, 5)] *)
Definition resultsPerQuery : nat := Nat.max (List.length SEARCH_PROVIDERS) 5.

(** The callback of [queries.flatMap]: the postings of one query, one per
    offset. *)
Definition fallbackJobsFor (now : Z) (location : option string) (remote : bool)
  (queryIndex : nat) (query : JobQuery.t) : Outcome (list JobPosting.t) :=
  mapWithIndex
    (fun offset _ => fallbackJob now location remote query queryIndex offset)
    0 (repeat tt resultsPerQuery).

(** [now] is the reading of [Date.now()] taken on entry. *)
Definition buildFallbackJobs (now : Z) (queries : list JobQuery.t)
  (location : option string) (remote : bool) : Outcome (list JobPosting.t) :=
  flatMapWithIndex (fallbackJobsFor now location remote) queries.

(** ** The AI client *)

(** The handle returned by [getGenerativeModel]. *)
Inductive Model : Type := GenerativeModel (apiKey : string).

(** What one request observes of its surroundings.
    - [GEMINI_KEY]: the key read from the environment, [""] when unset.
    - [aiReply]: the result of [generateContent] on this request's prompt:
      [None] when the call rejects, otherwise [result?.response?.text()],
      which may be [undefined].  The reply of the service is an arbitrary
      input, so the prompt text itself is not embedded.
    - [itemNow i]: the reading of [Date.now()] taken while raw posting [i]
      is assembled; [fallbackNow]: the reading taken by
      [buildFallbackJobs]. *)
Module World.
Record t : Type := mk {
  GEMINI_KEY : string;
  aiReply : option (option string);
  itemNow : nat -> Z;
  fallbackNow : Z
}.
End World.

(** [cachedModel] is the only module-level state. *)
Definition getModel (w : World.t) (cachedModel : option Model)
  : Outcome Model * option Model :=
  match cachedModel with
  | Some m => (Returns m, cachedModel)
  | None =>
      if negb (JS.truthy (World.GEMINI_KEY w))
      then (Throws "Gemini model is not configured. Provide a valid GEMINI_API_KEY.",
            cachedModel)
      else let m := GenerativeModel (World.GEMINI_KEY w) in
           (Returns m, Some m)
  end.

(** ** Reading fields of a raw posting *)

(** [value[key]] on a parsed JSON value: a TypeError on [null]; the keys
    the program reads are own properties of objects only. *)
Fixpoint lookupField (fields : list (string * Json)) (key : string) : option Json :=
  match fields with
  | [] => None
  | (k, v) :: r => if String.eqb k key then Some v else lookupField r key
  end.

Definition getProp (value : Json) (key : string) : Outcome (option Json) :=
  match value with
  | JNull => Throws "TypeError: cannot read properties of null"
  | JObject fields => Returns (lookupField fields key)
  | _ => Returns None
  end.

(** [typeof value[key] === 'string' ? value[key] : null] *)
Definition stringProp (value : Json) (key : string) : Outcome (option string) :=
  field <- getProp value key ;;
  Returns (match field with
           | Some (JString s) => Some s
           | _ => None
           end).

(** [x ? x : d] for an optional string. *)
Definition orDefault (x : option string) (d : string) : string :=
  match x with
  | Some s => if JS.truthy s then s else d
  | None => d
  end.

(** ** The functions that go through the platform *)

Section Pipeline.

Context {P : Platform}.

Definition safeJsonParse (text : string) : Outcome Json :=
  if negb (JS.truthy text) then Throws "Empty response from Gemini."
  else
    match JS.indexOf "{" text, JS.lastIndexOf "}" text with
    | Some firstBrace, Some lastBrace =>
        if Nat.leb lastBrace firstBrace
        then Throws "Unable to locate JSON block in Gemini response."
        else JSON_parse (JS.slice text firstBrace (lastBrace + 1))
    | _, _ => Throws "Unable to locate JSON block in Gemini response."
    end.

Definition deriveCompanyFromLink (link : string) : option string :=
  match URL_new link with
  | Returns url => deriveCompanyFromUrl url
  | Throws _ => None
  end.

Definition normaliseCompanyName (rawCompany : option string) (link : string)
  (query : JobQuery.t) (index : nat) : string :=
  let trimmed := option_map JS.trim rawCompany in
  let viaLink :=
    match deriveCompanyFromLink link with
    | Some derived =>
        if JS.truthy derived then derived else pickSampleCompany query index
    | None => pickSampleCompany query index
    end in
  match trimmed with
  | Some t =>
      if (JS.truthy t && negb (isGenericCompanyName t))%bool then t else viaLink
  | None => viaLink
  end.

Definition ensureCompanyLink (rawLink : option string) (company : string)
  (fallbackQuery : JobQuery.t) (location : option string) (remote : bool)
  (index : nat) (modelSource : option string) : Outcome Link.t :=
  let seed :=
    hashString (JobQuery.title fallbackQuery ++ ":"
                ++ JobQuery.query fallbackQuery ++ ":" ++ decimal index) in
  fallbackLink <-
    buildSearchLink fallbackQuery (Some company) location remote seed ;;
  match rawLink with
  | None => Returns fallbackLink
  | Some raw =>
      if negb (JS.truthy raw && JS.startsWith raw "https://")
      then Returns fallbackLink
      else
        match URL_new raw with
        | Throws _ => Returns fallbackLink
        | Returns parsed =>
            let provider := findProviderForHost (URL.hostname parsed) in
            if negb (JS.truthy company) then
              Returns (Link.mk raw
                (match modelSource, provider with
                 | Some m, _ => m
                 | None, Some p => SearchProvider.name p
                 | None, None => Link.source fallbackLink
                 end))
            else
              let companySlug := slugify company in
              let linkIncludesCompany :=
                if JS.truthy companySlug
                then JS.includes (JS.toLowerCase raw) companySlug
                else false in
              match provider with
              | Some p =>
                  if linkIncludesCompany then
                    Returns (Link.mk raw
                      (match modelSource with
                       | Some m => m
                       | None => SearchProvider.name p
                       end))
                  else
                    Returns (Link.mk
                      (SearchProvider.buildUrl p fallbackQuery (Some company)
                                               location remote)
                      (SearchProvider.name p))
              | None =>
                  if linkIncludesCompany then
                    Returns (Link.mk raw
                      (match modelSource with
                       | Some m => m
                       | None => "AI curated"
                       end))
                  else
                    Returns (Link.mk raw
                      (match modelSource with
                       | Some m => m
                       | None => Link.source fallbackLink
                       end))
              end
        end
  end.

(** The callback of [jobs.map] in [generateJobsWithGemini].
    [queries[index % queries.length]] is [undefined] for an empty list, and
    reading its [title] is then a TypeError. *)
Definition assemblePosting (w : World.t) (queries : list JobQuery.t)
  (location : option string) (remote : bool) (index : nat) (job : Json)
  : Outcome JobPosting.t :=
  rawLink <- stringProp job "link" ;;
  jobLocation <- stringProp job "location" ;;
  rawCompany <- stringProp job "company" ;;
  modelSource <- stringProp job "source" ;;
  jobId <- stringProp job "id" ;;
  jobTitle <- stringProp job "title" ;;
  jobSalary <- stringProp job "salary" ;;
  jobDescription <- stringProp job "description" ;;
  match nth_error queries (index mod List.length queries) with
  | None => Throws "TypeError: cannot read properties of undefined"
  | Some fallbackQuery =>
      let derivedLocation :=
        match jobLocation with
        | Some l => if JS.truthy (JS.trim l) then Some l
                    else if remote then Some "Remote" else location
        | None => if remote then Some "Remote" else location
        end in
      let company :=
        normaliseCompanyName rawCompany
          (match rawLink with Some l => l | None => "" end)
          fallbackQuery index in
      link <- ensureCompanyLink rawLink company fallbackQuery location remote
                                index modelSource ;;
      let displaySource :=
        if JS.truthy (Link.source link)
        then JS.replaceAllCaseless "gemini" "AI curated" (Link.source link)
        else "AI curated" in
      Returns (JobPosting.mk
        (orDefault jobId
           ("gemini-" ++ JS.numberToString (World.itemNow w index) ++ "-"
              ++ decimal index))
        (orDefault jobTitle (JobQuery.title fallbackQuery))
        company
        derivedLocation
        jobSalary
        (orDefault jobDescription
           ("Review opportunities that align with "
              ++ JobQuery.title fallbackQuery ++ "."))
        (Link.url link)
        displaySource
        None)
  end.

(** [Array.isArray(parsed.jobs) ? parsed.jobs : []] *)
Definition jobsOf (parsed : Json) : Outcome (list Json) :=
  field <- getProp parsed "jobs" ;;
  Returns (match field with
           | Some (JArray items) => items
           | _ => []
           end).

(** The body of the [try] block. *)
Definition synthesise (w : World.t) (queries : list JobQuery.t)
  (location : option string) (remote : bool) : Outcome (list JobPosting.t) :=
  textResponse <-
    match World.aiReply w with
    | Some reply => Returns reply
    | None => Throws "generateContent rejected"
    end ;;
  parsed <-
    match textResponse with
    | Some text => safeJsonParse text
    | None => Throws "Empty response from Gemini."
    end ;;
  jobs <- jobsOf parsed ;;
  match jobs with
  | [] => buildFallbackJobs (World.fallbackNow w) queries location remote
  | _ =>
      postings <- mapWithIndex (assemblePosting w queries location remote) 0 jobs ;;
      Returns (filter (fun job => JS.truthy (JobPosting.url job)) postings)
  end.

(** [getModel()] is called before the [try] block is entered. *)
Definition generateJobsWithGemini (w : World.t) (cachedModel : option Model)
  (queries : list JobQuery.t) (location : option string) (remote : bool)
  : Outcome (list JobPosting.t) * option Model :=
  match getModel w cachedModel with
  | (Throws msg, cached) => (Throws msg, cached)
  | (Returns _, cached) =>
      (tryCatch (synthesise w queries location remote)
                (buildFallbackJobs (World.fallbackNow w) queries location remote),
       cached)
  end.

End Pipeline.

(** ** A reference platform

    Executable stand-ins for the two platform constructors, used to run the
    pipeline on concrete replies and links. *)

Module RefJSON.

(** The double quote. *)
Definition quote : ascii := ascii_of_N 34.

Definition isJsonWs (c : ascii) : bool :=
  (Ascii.eqb c " " || N.eqb (JS.code c) 9 || N.eqb (JS.code c) 10
   || N.eqb (JS.code c) 13)%bool.

Fixpoint skipWs (s : string) : string :=
  match s with
  | EmptyString => EmptyString
  | String c r => if isJsonWs c then skipWs r else s
  end.

Definition hexVal (c : ascii) : option N :=
  if JS.isDigit c then Some (JS.code c - 48)%N
  else if JS.between 97 102 c then Some (JS.code c - 87)%N
  else if JS.between 65 70 c then Some (JS.code c - 55)%N
  else None.

(** The value of a four-digit escape, when it lies in the 8-bit range. *)
Definition unicodeEscape (h1 h2 h3 h4 : ascii) : option ascii :=
  match hexVal h1, hexVal h2, hexVal h3, hexVal h4 with
  | Some a, Some b, Some c, Some d =>
      if (N.eqb a 0 && N.eqb b 0)%bool then Some (ascii_of_N (16 * c + d))
      else None
  | _, _, _, _ => None
  end.

Definition simpleEscape (e : ascii) : option ascii :=
  if Ascii.eqb e quote then Some quote
  else if Ascii.eqb e "\" then Some "\"%char
  else if Ascii.eqb e "/" then Some "/"%char
  else if Ascii.eqb e "b" then Some (ascii_of_N 8)
  else if Ascii.eqb e "f" then Some (ascii_of_N 12)
  else if Ascii.eqb e "n" then Some (ascii_of_N 10)
  else if Ascii.eqb e "r" then Some (ascii_of_N 13)
  else if Ascii.eqb e "t" then Some (ascii_of_N 9)
  else None.

(** The characters of a string literal after its opening quote, and the
    text that follows the closing quote. *)
Fixpoint parseChars (s : string) : option (string * string) :=
  match s with
  | EmptyString => None
  | String c r =>
      if Ascii.eqb c quote then Some (EmptyString, r)
      else if Ascii.eqb c "\" then
        match r with
        | String e r1 =>
            if Ascii.eqb e "u" then
              match r1 with
              | String h1 (String h2 (String h3 (String h4 r2))) =>
                  match unicodeEscape h1 h2 h3 h4, parseChars r2 with
                  | Some u, Some (str, rest) => Some (String u str, rest)
                  | _, _ => None
                  end
              | _ => None
              end
            else
              match simpleEscape e, parseChars r1 with
              | Some u, Some (str, rest) => Some (String u str, rest)
              | _, _ => None
              end
        | EmptyString => None
        end
      else if N.ltb (JS.code c) 32 then None
      else
        match parseChars r with
        | Some (str, rest) => Some (String c str, rest)
        | None => None
        end
  end.

Fixpoint takeDigits (s : string) : string * string :=
  match s with
  | EmptyString => (EmptyString, EmptyString)
  | String c r =>
      if JS.isDigit c then let (d, rest) := takeDigits r in (String c d, rest)
      else (EmptyString, s)
  end.

Fixpoint digitsValue (acc : Z) (digits : string) : Z :=
  match digits with
  | EmptyString => acc
  | String c r => digitsValue (10 * acc + Z.of_N (JS.code c - 48)) r
  end.

(** The integer part: a lone zero, or digits that start with 1-9. *)
Definition takeInt (s : string) : option (string * string) :=
  match s with
  | String c r =>
      if Ascii.eqb c "0" then Some ("0", r)
      else if JS.isDigit c then Some (takeDigits s)
      else None
  | EmptyString => None
  end.

Definition takeFraction (s : string) : option (string * string) :=
  match s with
  | String c r =>
      if Ascii.eqb c "." then
        let (d, rest) := takeDigits r in
        if JS.truthy d then Some (d, rest) else None
      else Some (EmptyString, s)
  | EmptyString => Some (EmptyString, s)
  end.

Definition takeExponent (s : string) : option (Z * string) :=
  match s with
  | String c r =>
      if (Ascii.eqb c "e" || Ascii.eqb c "E")%bool then
        let (negative, r1) :=
          match r with
          | String sg r' =>
              if Ascii.eqb sg "-" then (true, r')
              else if Ascii.eqb sg "+" then (false, r')
              else (false, r)
          | EmptyString => (false, r)
          end in
        let (d, rest) := takeDigits r1 in
        if JS.truthy d
        then Some ((if negative then - digitsValue 0 d else digitsValue 0 d)%Z, rest)
        else None
      else Some (0%Z, s)
  | EmptyString => Some (0%Z, s)
  end.

Definition parseNumber (s : string) : option (Json * string) :=
  let (negative, s1) :=
    match s with
    | String c r => if Ascii.eqb c "-" then (true, r) else (false, s)
    | EmptyString => (false, s)
    end in
  match takeInt s1 with
  | Some (int, s2) =>
      match takeFraction s2 with
      | Some (frac, s3) =>
          match takeExponent s3 with
          | Some (e, s4) =>
              let m := digitsValue 0 (int ++ frac) in
              Some (JNumber (if negative then - m else m)%Z
                            (e - Z.of_nat (length frac))%Z, s4)
          | None => None
          end
      | None => None
      end
  | None => None
  end.

(** A repeated key keeps its first position and takes the last value. *)
Fixpoint objSet (fields : list (string * Json)) (k : string) (v : Json)
  : list (string * Json) :=
  match fields with
  | [] => [(k, v)]
  | (k', v') :: r =>
      if String.eqb k' k then (k, v) :: r else (k', v') :: objSet r k v
  end.

Definition literal (word : string) (v : Json) (s : string) : option (Json * string) :=
  if prefix word s then Some (v, JS.sliceFrom s (length word)) else None.

Fixpoint parseValue (fuel : nat) (s : string) : option (Json * string) :=
  match fuel with
  | O => None
  | S fuel' =>
      match skipWs s with
      | EmptyString => None
      | String c r as s' =>
          if Ascii.eqb c "{" then
            match skipWs r with
            | String c1 r1 as body =>
                if Ascii.eqb c1 "}" then Some (JObject [], r1)
                else parseMembers fuel' body []
            | EmptyString => None
            end
          else if Ascii.eqb c "[" then
            match skipWs r with
            | String c1 r1 as body =>
                if Ascii.eqb c1 "]" then Some (JArray [], r1)
                else parseElements fuel' body []
            | EmptyString => None
            end
          else if Ascii.eqb c quote then
            match parseChars r with
            | Some (str, rest) => Some (JString str, rest)
            | None => None
            end
          else if Ascii.eqb c "t" then literal "true" (JBool true) s'
          else if Ascii.eqb c "f" then literal "false" (JBool false) s'
          else if Ascii.eqb c "n" then literal "null" JNull s'
          else parseNumber s'
      end
  end

with parseElements (fuel : nat) (s : string) (acc : list Json)
  : option (Json * string) :=
  match fuel with
  | O => None
  | S fuel' =>
      match parseValue fuel' s with
      | Some (v, r) =>
          match skipWs r with
          | String c r1 =>
              if Ascii.eqb c "," then parseElements fuel' r1 (v :: acc)
              else if Ascii.eqb c "]" then Some (JArray (rev (v :: acc)), r1)
              else None
          | EmptyString => None
          end
      | None => None
      end
  end

with parseMembers (fuel : nat) (s : string) (acc : list (string * Json))
  : option (Json * string) :=
  match fuel with
  | O => None
  | S fuel' =>
      match skipWs s with
      | String q r =>
          if Ascii.eqb q quote then
            match parseChars r with
            | Some (k, r1) =>
                match skipWs r1 with
                | String colon r2 =>
                    if Ascii.eqb colon ":" then
                      match parseValue fuel' r2 with
                      | Some (v, r3) =>
                          match skipWs r3 with
                          | String c r4 =>
                              if Ascii.eqb c ","
                              then parseMembers fuel' r4 (objSet acc k v)
                              else if Ascii.eqb c "}"
                                   then Some (JObject (objSet acc k v), r4)
                                   else None
                          | EmptyString => None
                          end
                      | None => None
                      end
                    else None
                | EmptyString => None
                end
            | None => None
            end
          else None
      | EmptyString => None
      end
  end.

(** [JSON.parse]: one value, surrounded by white space only. *)
Definition parse (text : string) : Outcome Json :=
  match parseValue (2 * length text + 2) text with
  | Some (v, rest) =>
      if JS.truthy (skipWs rest) then Throws "SyntaxError: unexpected token"
      else Returns v
  | None => Throws "SyntaxError: unexpected token"
  end.

End RefJSON.

Module RefURL.

(** The index of the first unit of [s] that satisfies [d], or the length. *)
Fixpoint span (d : ascii -> bool) (s : string) : nat :=
  match s with
  | EmptyString => 0
  | String c r => if d c then 0 else S (span d r)
  end.

Definition endsAuthority (c : ascii) : bool :=
  (Ascii.eqb c "/" || Ascii.eqb c "?" || Ascii.eqb c "#" || Ascii.eqb c "\")%bool.

Definition endsPath (c : ascii) : bool :=
  (Ascii.eqb c "?" || Ascii.eqb c "#")%bool.

Definition isHostChar (c : ascii) : bool :=
  (JS.isAlnum c || Ascii.eqb c "-" || Ascii.eqb c ".")%bool.

Fixpoint allChars (d : ascii -> bool) (s : string) : bool :=
  match s with
  | EmptyString => true
  | String c r => (d c && allChars d r)%bool
  end.

(** Drops the credentials before the last [@]. *)
Definition dropUserinfo (authority : string) : string :=
  match JS.lastIndexOf "@" authority with
  | Some i => JS.sliceFrom authority (i + 1)
  | None => authority
  end.

(** Splits [host:port]; the port must be decimal digits. *)
Definition splitPort (hostport : string) : option string :=
  match JS.indexOf ":" hostport with
  | Some i =>
      if allChars JS.isDigit (JS.sliceFrom hostport (i + 1))
      then Some (JS.slice hostport 0 i) else None
  | None => Some hostport
  end.

(** [new URL(link)] for links of the plain shape
    [http(s)://[user@]host[:port][/path][?query][#fragment]] whose host is
    made of ASCII letters, digits, dots and hyphens and whose path needs no
    normalisation.  Any other input is rejected here. *)
Definition parse (link : string) : Outcome URL.t :=
  let lower := JS.toLowerCase link in
  let afterScheme :=
    if prefix "https://" lower then Some (JS.sliceFrom link 8)
    else if prefix "http://" lower then Some (JS.sliceFrom link 7)
    else None in
  match afterScheme with
  | None => Throws "TypeError: Invalid URL"
  | Some rest =>
      let n := span endsAuthority rest in
      let authority := JS.slice rest 0 n in
      let tail := JS.sliceFrom rest n in
      match splitPort (dropUserinfo authority) with
      | Some host =>
          if (JS.truthy host && allChars isHostChar host)%bool then
            let path := JS.slice tail 0 (span endsPath tail) in
            Returns (URL.mk (JS.toLowerCase host)
                            (if JS.truthy path then path else "/"))
          else Throws "TypeError: Invalid URL"
      | None => Throws "TypeError: Invalid URL"
      end
  end.

End RefURL.

Definition ReferencePlatform : Platform :=
  {| JSON_parse := RefJSON.parse; URL_new := RefURL.parse |}.

(** ** Vocabulary of the statements *)

(** The name of the provider an outcome carries. *)
Definition providerName (o : Outcome SearchProvider.t) : string :=
  match o with
  | Returns p => SearchProvider.name p
  | Throws _ => ""
  end.

(** [i] is the first, respectively the last, position of [s] that holds the
    code unit [c]. *)
Definition firstAt (c : ascii) (s : string) (i : nat) : Prop :=
  get i s = Some c /\ forall j, j < i -> get j s <> Some c.

Definition lastAt (c : ascii) (s : string) (i : nat) : Prop :=
  get i s = Some c /\ forall j, i < j -> get j s <> Some c.

(** Sample texts are written with an apostrophe where the JSON text has a
    double quote. *)
Fixpoint jsonText (s : string) : string :=
  match s with
  | EmptyString => EmptyString
  | String c r =>
      String (if Ascii.eqb c "'" then RefJSON.quote else c) (jsonText r)
  end.

(** Sample inputs. *)
Definition demoQueries : list JobQuery.t :=
  [JobQuery.mk "Backend Engineer" "backend engineer node"].

Definition demoWorld (key : string) (reply : option (option string)) : World.t :=
  World.mk key reply (fun _ => 1700000000000%Z) 1700000000000%Z.

(** Every name the sampling tables hold. *)
Definition SAMPLE_COMPANIES : list string :=
  flat_map CompanyBucket.companies COMPANY_BUCKETS ++ DEFAULT_COMPANIES.

(** A reply whose only posting has a placeholder company and a link to the
    careers page of [company.com]. *)
Definition placeholderReply : string :=
  jsonText "{'jobs':[{'title':'SRE','company':'N/A','link':'https://company.com/careers'}]}".

(** A reply with the same posting twice. *)
Definition repeatedReply : string :=
  jsonText "{'jobs':[{'title':'Designer','company':'Canva','link':'https://www.canva.com/careers'},{'title':'Designer','company':'Canva','link':'https://www.canva.com/careers'}]}".

(** A reply whose two postings carry the same id. *)
Definition sameIdReply : string :=
  jsonText "{'jobs':[{'id':'job-1','title':'Designer','company':'Canva','link':'https://www.canva.com/careers'},{'id':'job-1','title':'Engineer','company':'Figma','link':'https://www.figma.com/careers'}]}".

(** The id a raw posting brings along: [job.id] when it is a non-empty
    string. *)
Definition ownId (job : Json) : option string :=
  match job with
  | JObject fields =>
      match lookupField fields "id" with
      | Some (JString s) => if JS.truthy s then Some s else None
      | _ => None
      end
  | _ => None
  end.

(** A string without a hyphen. *)
Fixpoint noDash (s : string) : Prop :=
  match s with
  | EmptyString => True
  | String c r => c <> "-"%char /\ noDash r
  end.

(** A decidable test of pairwise distinctness. *)
Fixpoint distinctb (l : list string) : bool :=
  match l with
  | [] => true
  | x :: r => (negb (existsb (String.eqb x) r) && distinctb r)%bool
  end.

(** The same query twice. *)
Definition repeatedQueries : list JobQuery.t :=
  [JobQuery.mk "Backend Engineer" "backend engineer node";
   JobQuery.mk "Backend Engineer" "backend engineer node"].

(** ** Further vocabulary *)

(** Every code unit of [s] satisfies [p]. *)
Fixpoint everyUnit (p : ascii -> bool) (s : string) : bool :=
  match s with
  | EmptyString => true
  | String c r => (p c && everyUnit p r)%bool
  end.

(** The units [slugify] keeps. *)
Definition isSlugUnit (c : ascii) : bool := (JS.isLowerAZ c || JS.isDigit c)%bool.

(** A unit that [toTitleCase] can emit: anything but a separator, or the
    plain space that joins the words. *)
Definition isTitleUnit (c : ascii) : bool :=
  (negb (isSlugSeparator c) || Ascii.eqb c " ")%bool.

Definition notSlugSeparator (c : ascii) : bool := negb (isSlugSeparator c).

(** A posting with its id blanked, to compare postings up to their ids. *)
Definition eraseId (job : JobPosting.t) : JobPosting.t :=
  JobPosting.mk "" (JobPosting.title job) (JobPosting.company job)
    (JobPosting.location job) (JobPosting.salary job)
    (JobPosting.description job) (JobPosting.url job) (JobPosting.source job)
    (JobPosting.postedAt job).

(** [/pattern/i.test(s)] for a pattern written in lower-case ASCII
    letters: some position of [s] matches the pattern up to the case of the
    letters A-Z, the test [JS.replaceAllCaseless] makes at each position. *)
Definition testCaseless (pattern s : string) : bool :=
  JS.includes (JS.toLowerCase s) pattern.

(** The location a raw posting brings along: [job.location] when it is a
    string that is not blank. *)
Definition suppliedLocation (job : Json) : option string :=
  match job with
  | JObject fields =>
      match lookupField fields "location" with
      | Some (JString place) =>
          if JS.truthy (JS.trim place) then Some place else None
      | _ => None
      end
  | _ => None
  end.

(** A reply with one located posting and one whose location is blank. *)
Definition locatedReply : string :=
  jsonText "{'jobs':[{'title':'SRE','company':'Acme','link':'https://boards.greenhouse.io/acme/jobs/123','location':'Lisbon'},{'title':'SRE','company':'Initech','link':'https://boards.greenhouse.io/initech/jobs/7','location':'  '}]}".

(** A reply whose posting names the model as its source. *)
Definition labelledReply : string :=
  jsonText "{'jobs':[{'title':'SRE','company':'Acme','link':'https://boards.greenhouse.io/acme/jobs/123','source':'Google Gemini','location':'  '}]}".

(** A unit other than [c]. *)
Definition isNot (c : ascii) (a : ascii) : bool := negb (Ascii.eqb a c).

(** ** The resume analyser *)

Definition LF : string := String (ascii_of_N 10) "".
Definition DQ : string := String (ascii_of_N 34) "".

Module AnalysisResult.
Record t : Type := mk {
  summary : Json;
  keywords : list Json;
  strengths : list Json;
  nextSteps : list Json;
  jobQueries : list Json
}.
End AnalysisResult.

(** [customPrompt?.trim() ? customPrompt.trim() : 'None provided'] *)
Definition guidanceOf (customPrompt : option string) : string :=
  match customPrompt with
  | Some c => if JS.truthy (JS.trim c) then JS.trim c else "None provided"
  | None => "None provided"
  end.

(** The instruction block, line by line as the template literal has it. *)
Definition analysisInstruction (guidance : string) : string :=
  JS.join LF [
    "You are an expert career coach and recruiter. Analyze the candidate resume below and respond strictly with minified JSON using this schema:";
    "  {";
    "    " ++ DQ ++ "summary" ++ DQ ++ ": string,";
    "    " ++ DQ ++ "keywords" ++ DQ ++ ": string[6-10],";
    "    " ++ DQ ++ "strengths" ++ DQ ++ ": string[4-6],";
    "    " ++ DQ ++ "nextSteps" ++ DQ ++ ": string[3-5],";
    "    " ++ DQ ++ "jobQueries" ++ DQ ++ ": Array<{" ++ DQ ++ "title" ++ DQ
      ++ ": string, " ++ DQ ++ "query" ++ DQ ++ ": string}>";
    "  }";
    "  Requirements:";
    "  - Summary <= 3 sentences, energetic and specific.";
    "  - Keywords should be ATS-friendly hard skills and industry terms.";
    "  - Strengths should highlight differentiators (achievements, domains, leadership, etc.).";
    "  - Next steps must be short imperatives tailored to the candidate.";
    "  - jobQueries should contain 3-4 targeted search queries blending seniority, domain, and skills.";
    "  - Consider candidate priorities: " ++ guidance;
    "  - Output ONLY JSON. No markdown, no commentary."
  ].

(** [`${instruction}\n\n${resumePrompt}`] *)
Definition analysisPrompt (resumeText : string) (customPrompt : option string)
  : string :=
  let condensedResume := truncateContent resumeText in
  let resumePrompt :=
    "RESUME CONTENT START" ++ LF ++ condensedResume ++ LF
      ++ "RESUME CONTENT END" in
  analysisInstruction (guidanceOf customPrompt) ++ LF ++ LF ++ resumePrompt.

(** [Array.isArray(parsed[key]) ? parsed[key] : []] *)
Definition arrayField (parsed : Json) (key : string) : Outcome (list Json) :=
  field <- getProp parsed key ;;
  Returns (match field with
           | Some (JArray items) => items
           | _ => []
           end).

(** [parsed.summary ?? ''] *)
Definition summaryField (parsed : Json) : Outcome Json :=
  field <- getProp parsed "summary" ;;
  Returns (match field with
           | None | Some JNull => JString ""
           | Some value => value
           end).

Section Analyser.

Context {P : Platform}.

(** [respond] is the AI client: for a prompt, [None] when the call
    rejects, otherwise [result?.response?.text()].  The key is read from
    the world; [cachedModel] is the module state. *)
Definition runGeminiAnalysis (w : World.t)
  (respond : string -> option (option string)) (cachedModel : option Model)
  (resumeText : string) (customPrompt : option string)
  : Outcome AnalysisResult.t * option Model :=
  match getModel w cachedModel with
  | (Throws msg, cached) => (Throws msg, cached)
  | (Returns _, cached) =>
      (textResponse <-
         match respond (analysisPrompt resumeText customPrompt) with
         | None => Throws "generateContent rejected"
         | Some None => Throws "Gemini returned an empty response."
         | Some (Some text) =>
             if JS.truthy text then Returns text
             else Throws "Gemini returned an empty response."
         end ;;
       parsed <- safeJsonParse textResponse ;;
       summary <- summaryField parsed ;;
       keywords <- arrayField parsed "keywords" ;;
       strengths <- arrayField parsed "strengths" ;;
       nextSteps <- arrayField parsed "nextSteps" ;;
       jobQueries <- arrayField parsed "jobQueries" ;;
       Returns (AnalysisResult.mk summary keywords strengths nextSteps jobQueries),
       cached)
  end.

End Analyser.

(** ** The job-search endpoint

    The handler of [POST /api/jobs/search].  The request body is the JSON
    value the framework decoded ([None] when there is none). *)

(** What an answer carries: [{ message }], or [{ jobs }].  [UntypedJobs]
    is [{ jobs }] for queries whose title or query is not a string; the
    engine is embedded for the declared type [JobQuery] only, so their
    postings are not spelled out. *)
Inductive Payload : Type :=
| Message (text : string)
| Jobs (jobs : list JobPosting.t)
| UntypedJobs.

Module Response.
Record t : Type := mk { status : nat; payload : Payload }.
End Response.

(** The number a decoded literal [mantissa * 10 ^ exponent] stands for is
    zero: the literal is zero, or it is so small that it rounds to zero as
    a binary64, which is the case up to [2 ^ -1075] (to nearest, ties to
    even). *)
Definition numberIsZero (mantissa exponent : Z) : bool :=
  (Z.eqb mantissa 0
   || (Z.ltb exponent 0
       && Z.leb (Z.abs mantissa * 2 ^ 1075) (10 ^ (- exponent))))%bool.

(** The truth value of a value, as [&&], [!] and [Boolean] take it;
    [None] is [undefined]. *)
Definition truthyValue (value : option Json) : bool :=
  match value with
  | None | Some JNull => false
  | Some (JBool b) => b
  | Some (JNumber m e) => negb (numberIsZero m e)
  | Some (JString s) => JS.truthy s
  | Some (JArray _) | Some (JObject _) => true
  end.

(** [query?.title && query?.query], the filter of the handler: only an
    object has a [title] or a [query]. *)
Definition keepsEntry (entry : Json) : bool :=
  match entry with
  | JObject fields =>
      (truthyValue (lookupField fields "title")
       && truthyValue (lookupField fields "query"))%bool
  | _ => false
  end.

(** Conversion to a string, as a template literal does it, returns.  It
    throws a TypeError on an object with a [toString] key of its own (a
    decoded value is never callable, and [valueOf] gives the object back),
    and on an array that holds such an object: [join] converts every
    element but [null]. *)
Fixpoint stringifies (value : Json) : bool :=
  match value with
  | JArray items => forallb stringifies items
  | JObject fields =>
      match lookupField fields "toString" with
      | Some _ => false
      | None => true
      end
  | _ => true
  end.

(** The directive [`... Title: ${query.title} ... Search: ${query.query}`]
    of one kept entry can be written. *)
Definition directiveReadable (entry : Json) : bool :=
  match entry with
  | JObject fields =>
      (match lookupField fields "title" with
       | Some title => stringifies title
       | None => true
       end
       && match lookupField fields "query" with
          | Some query => stringifies query
          | None => true
          end)%bool
  | _ => true
  end.

(** A kept entry as a [JobQuery], when its title and query are strings. *)
Definition typedQuery (entry : Json) : option JobQuery.t :=
  match entry with
  | JObject fields =>
      match lookupField fields "title", lookupField fields "query" with
      | Some (JString title), Some (JString query) =>
          Some (JobQuery.mk title query)
      | _, _ => None
      end
  | _ => None
  end.

Fixpoint typedQueries (entries : list Json) : option (list JobQuery.t) :=
  match entries with
  | [] => Some []
  | entry :: rest =>
      match typedQuery entry, typedQueries rest with
      | Some query, Some queries => Some (query :: queries)
      | _, _ => None
      end
  end.

(** The [location] of the body as the engine reads it in
    [location?.trim()]: absent or [null], a string, or a value without a
    [trim] method, on which the call is a TypeError. *)
Inductive Place : Type :=
| Unset
| Named (place : string)
| Untrimmable.

Definition placeOf (location : option Json) : Place :=
  match location with
  | None | Some JNull => Unset
  | Some (JString place) => Named place
  | Some _ => Untrimmable
  end.

(** [req.body ?? {}], read as an object. *)
Definition bodyFields (body : option Json) : list (string * Json) :=
  match body with
  | Some (JObject fields) => fields
  | _ => []
  end.

(** The entries of [queries]; none when it is not an array. *)
Definition entriesOf (body : option Json) : list Json :=
  match lookupField (bodyFields body) "queries" with
  | Some (JArray entries) => entries
  | _ => []
  end.

(** [parsedQueries]: the entries the filter keeps. *)
Definition keptEntries (body : option Json) : list Json :=
  filter keepsEntry (entriesOf body).

Section SearchEndpoint.

Context {P : Platform}.

Definition searchFailure : Response.t :=
  Response.mk 500 (Message "Failed to fetch job listings.").

Definition searchRejection : Response.t :=
  Response.mk 400 (Message "Provide at least one job query.").

(** The call [generateJobsWithGemini({ queries: parsedQueries, location,
    remote })] inside the handler's [try] block, on the values of a decoded
    body.  The first statements of the engine run before its own [try], so
    what they throw reaches the handler's [catch]: [getModel()], the
    directives (a template literal over every title and query) and
    [location?.trim()].  After them nothing escapes the engine: its [try]
    falls back to [buildFallbackJobs].  For string titles and queries the
    postings are those of the embedded engine.  A title or query of another
    type is read through template literals and [join] only, which return
    once the directives did, or handed on as it is, so the answer is 200 as
    well. *)
Definition searchJobs (w : World.t) (cachedModel : option Model)
  (parsedQueries : list Json) (location : option Json) (remote : bool)
  : Response.t * option Model :=
  match getModel w cachedModel with
  | (Throws _, cached) => (searchFailure, cached)
  | (Returns _, cached) =>
      if negb (forallb directiveReadable parsedQueries)
      then (searchFailure, cached)
      else
        let run (place : option string) :=
          match typedQueries parsedQueries with
          | Some queries =>
              match generateJobsWithGemini w cachedModel queries place
                      remote with
              | (Returns jobs, cached') =>
                  (Response.mk 200 (Jobs jobs), cached')
              | (Throws _, cached') => (searchFailure, cached')
              end
          | None => (Response.mk 200 UntypedJobs, cached)
          end in
        match placeOf location with
        | Untrimmable => (searchFailure, cached)
        | Unset => run None
        | Named place => run (Some place)
        end
  end.

Definition searchHandler (w : World.t) (cachedModel : option Model)
  (method : string) (body : option Json) : Response.t * option Model :=
  if negb (String.eqb method "POST")
  then (Response.mk 405 (Message "Method Not Allowed"), cachedModel)
  else
    match entriesOf body with
    | [] => (searchRejection, cachedModel)
    | _ :: _ =>
        match keptEntries body with
        | [] => (searchRejection, cachedModel)
        | parsedQueries =>
            searchJobs w cachedModel parsedQueries
              (lookupField (bodyFields body) "location")
              (truthyValue (lookupField (bodyFields body) "remote"))
        end
    end.

End SearchEndpoint.

(** A link that starts with [https://]. *)
Definition httpsLink (job : JobPosting.t) : Prop :=
  JS.startsWith (JobPosting.url job) "https://" = true.

(** Every kept entry has a string title and a string query, as the
    declared type [JobQuery] says. *)
Definition typedRequest (body : option Json) : Prop :=
  Forall (fun entry => exists query, typedQuery entry = Some query)
    (keptEntries body).

(** A request body with one usable query, one entry without a title, and
    the given location. *)
Definition searchBody (location : Json) : Json :=
  JObject [("queries",
            JArray [JObject [("title", JString "Data Engineer");
                             ("query", JString "data engineer python")];
                    JObject [("query", JString "no title")]]);
           ("location", location);
           ("remote", JBool false)].


Definition numberedBody : Json :=
  JObject [("queries",
            JArray [JObject [("title", JNumber 5 0);
                             ("query", JString "x")]])].

(** A resume of more than 8000 units with the given ending. *)
Definition longResume (ending : string) : string :=
  string_of_list_ascii (repeat "a"%char 8000) ++ ending.

(** * Properties *)

(** ** Strings *)

Section StringFacts.

Lemma length_append (a b : string) : length (a ++ b) = length a + length b.
Proof. induction a as [|c a IH]; simpl; [reflexivity | now rewrite IH]. Qed.

Lemma truthy_false (s : string) : JS.truthy s = false <-> s = "".
Proof.
  unfold JS.truthy. destruct (String.eqb_spec s ""); simpl; split; congruence.
Qed.

(** The first [n] units of [s] and the rest of it. *)
Lemma substring_split (n : nat) (s : string) :
  n <= length s ->
  exists rest, s = substring 0 n s ++ rest /\ length (substring 0 n s) = n.
Proof.
  revert s. induction n as [|n IH]; intros s Hn.
  - exists s. destruct s; simpl; auto.
  - destruct s as [|c s]; simpl in Hn; [lia|].
    destruct (IH s) as [rest [Hs Hl]]; [lia|].
    exists rest. simpl. split; [now rewrite <- Hs | now rewrite Hl].
Qed.

Lemma substring_whole (n : nat) (s : string) :
  length s <= n -> substring 0 n s = s.
Proof.
  revert s. induction n as [|n IH]; intros s Hn.
  - destruct s; simpl in *; [reflexivity | lia].
  - destruct s as [|c s]; simpl in *; [reflexivity|].
    rewrite IH; [reflexivity | lia].
Qed.

Lemma substring_append_exact (a b : string) :
  substring 0 (length a) (a ++ b) = a.
Proof.
  induction a as [|c a IH]; simpl.
  - destruct b; reflexivity.
  - now rewrite IH.
Qed.

End StringFacts.

(** ** Resume truncation *)

Section Truncation.

Lemma truncateContent_short (content : string) :
  length content <= MAX_RESUME_LENGTH -> truncateContent content = content.
Proof.
  intros H. unfold truncateContent.
  destruct (JS.truthy content) eqn:T; simpl.
  - apply Nat.leb_le in H. now rewrite H.
  - now apply truthy_false in T.
Qed.

Lemma truncateContent_long (content : string) :
  MAX_RESUME_LENGTH < length content ->
  truncateContent content = substring 0 MAX_RESUME_LENGTH content ++ "...".
Proof.
  intros H. unfold truncateContent.
  destruct (JS.truthy content) eqn:T; simpl.
  - apply Nat.leb_gt in H. rewrite H. unfold JS.slice.
    now rewrite Nat.sub_0_r.
  - apply truthy_false in T. subst. simpl in H. lia.
Qed.

(** C9: an input of at most 8000 units is returned as it is; a longer one
    is cut to its first 8000 units followed by the three-dot marker; and
    the result is the retained text followed by the marker exactly when the
    input was longer than 8000 units. *)
Theorem truncateContent_spec (content : string) :
  (length content <= MAX_RESUME_LENGTH -> truncateContent content = content)
  /\ (MAX_RESUME_LENGTH < length content ->
      exists kept rest,
        content = kept ++ rest /\ length kept = MAX_RESUME_LENGTH
        /\ truncateContent content = kept ++ "...")
  /\ (truncateContent content
        = substring 0 MAX_RESUME_LENGTH content ++ "..."
      <-> MAX_RESUME_LENGTH < length content).
Proof.
  split; [apply truncateContent_short|].
  assert (Hlong : MAX_RESUME_LENGTH < length content ->
      exists kept rest,
        content = kept ++ rest /\ length kept = MAX_RESUME_LENGTH
        /\ truncateContent content = kept ++ "...").
  { intros H.
    destruct (substring_split MAX_RESUME_LENGTH content) as [rest [Hs Hl]];
      [lia|].
    exists (substring 0 MAX_RESUME_LENGTH content), rest.
    repeat split; auto. now apply truncateContent_long. }
  split; [exact Hlong|]. split.
  - intros Ht.
    destruct (Nat.le_gt_cases (length content) MAX_RESUME_LENGTH) as [Hle|Hgt];
      [|exact Hgt].
    exfalso. rewrite truncateContent_short in Ht by exact Hle.
    rewrite substring_whole in Ht by exact Hle.
    apply (f_equal length) in Ht. rewrite length_append in Ht.
    change (length "...") with 3 in Ht. lia.
  - apply truncateContent_long.
Qed.

(** C10: truncating twice is the same as truncating once. *)
Theorem truncateContent_idempotent (s : string) :
  truncateContent (truncateContent s) = truncateContent s.
Proof.
  destruct (Nat.le_gt_cases (length s) MAX_RESUME_LENGTH) as [Hle|Hgt].
  - rewrite (truncateContent_short s Hle). now apply truncateContent_short.
  - rewrite (truncateContent_long s Hgt).
    destruct (substring_split MAX_RESUME_LENGTH s) as [rest [_ Hl]]; [lia|].
    rewrite truncateContent_long.
    + rewrite <- Hl at 1. now rewrite substring_append_exact.
    + rewrite length_append, Hl. change (length "...") with 3. lia.
Qed.

End Truncation.

(** ** Provider selection *)

Section Providers.

Lemma providerAt_In (index : Z) (p : SearchProvider.t) :
  providerAt index = Returns p -> In p SEARCH_PROVIDERS.
Proof.
  unfold providerAt.
  destruct (nth_error SEARCH_PROVIDERS (Z.to_nat index)) eqn:E; [|discriminate].
  intros [= <-]. eapply nth_error_In; eauto.
Qed.

Lemma providerAt_in_range (index : Z) :
  (0 <= index < Z.of_nat (List.length SEARCH_PROVIDERS))%Z ->
  exists p, nth_error SEARCH_PROVIDERS (Z.to_nat index) = Some p
            /\ providerAt index = Returns p.
Proof.
  intros H. unfold providerAt.
  destruct (nth_error SEARCH_PROVIDERS (Z.to_nat index)) eqn:E.
  - eauto.
  - apply nth_error_None in E. lia.
Qed.

Lemma seed_index_in_range (seed : Z) :
  (0 <= Z.rem (Z.abs seed) (Z.of_nat (List.length SEARCH_PROVIDERS))
   < Z.of_nat (List.length SEARCH_PROVIDERS))%Z.
Proof.
  apply Z.rem_bound_pos; [apply Z.abs_nonneg | simpl; lia].
Qed.

Lemma selectSearchProvider_index (seed : Z) :
  selectSearchProvider seed
  = providerAt (Z.abs seed mod Z.of_nat (List.length SEARCH_PROVIDERS)).
Proof.
  unfold selectSearchProvider.
  change (Nat.eqb (List.length SEARCH_PROVIDERS) 0) with false. cbv iota.
  rewrite Z.rem_mod_nonneg; [reflexivity | apply Z.abs_nonneg | simpl; lia].
Qed.

Lemma selectSearchProvider_In (seed : Z) (p : SearchProvider.t) :
  selectSearchProvider seed = Returns p -> In p SEARCH_PROVIDERS.
Proof. rewrite selectSearchProvider_index. apply providerAt_In. Qed.

Lemma selectSearchProvider_returns (seed : Z) :
  exists p, selectSearchProvider seed = Returns p.
Proof.
  unfold selectSearchProvider.
  change (Nat.eqb (List.length SEARCH_PROVIDERS) 0) with false. cbv iota.
  destruct (providerAt_in_range _ (seed_index_in_range seed)) as [p [_ H]].
  eauto.
Qed.

(** C7, as the code has it: the provider chosen for a seed is the entry at
    index [abs(seed) mod providers.length]; two seeds whose absolute values
    are congruent modulo the number of providers select the same one. *)
Theorem selectSearchProvider_abs_congruent (seed1 seed2 : Z)
  (H : (Z.abs seed1 mod Z.of_nat (List.length SEARCH_PROVIDERS)
        = Z.abs seed2 mod Z.of_nat (List.length SEARCH_PROVIDERS))%Z) :
  selectSearchProvider seed1 = selectSearchProvider seed2
  /\ exists p,
       nth_error SEARCH_PROVIDERS
         (Z.to_nat (Z.abs seed1 mod Z.of_nat (List.length SEARCH_PROVIDERS)))
       = Some p
       /\ selectSearchProvider seed1 = Returns p.
Proof.
  split.
  - now rewrite !selectSearchProvider_index, H.
  - rewrite selectSearchProvider_index.
    apply providerAt_in_range. apply Z.mod_pos_bound. simpl; lia.
Qed.

Lemma selectSearchProvider_abs_congruent_witness :
  (Z.abs 1 mod Z.of_nat (List.length SEARCH_PROVIDERS)
   = Z.abs (-6) mod Z.of_nat (List.length SEARCH_PROVIDERS))%Z
  /\ selectSearchProvider 1 = selectSearchProvider (-6).
Proof.
  split; [reflexivity|].
  apply (selectSearchProvider_abs_congruent 1 (-6)). reflexivity.
Defined.

(** C7, as the specification states it, fails: 1 and -4 are congruent modulo 5, yet
    the first selects JobStreet and the second Indeed. *)
Lemma selectSearchProvider_congruent_counterexample :
  (1 mod Z.of_nat (List.length SEARCH_PROVIDERS)
   = (-4) mod Z.of_nat (List.length SEARCH_PROVIDERS))%Z
  /\ providerName (selectSearchProvider 1) = "JobStreet search"
  /\ providerName (selectSearchProvider (-4)) = "Indeed search"
  /\ selectSearchProvider 1 <> selectSearchProvider (-4).
Proof.
  repeat split; try reflexivity.
  intros E. apply (f_equal providerName) in E. vm_compute in E. discriminate.
Qed.

(** Every provider of the table builds an https URL. *)
Lemma provider_url_https (p : SearchProvider.t) :
  In p SEARCH_PROVIDERS ->
  forall query company location remote,
    JS.startsWith
      (SearchProvider.buildUrl p query company location remote) "https://"
    = true.
Proof.
  intros H query company location remote.
  repeat (destruct H as [<-|H]; [reflexivity|]).
  destruct H.
Qed.

Lemma findProviderForHost_In (hostname : string) (p : SearchProvider.t) :
  findProviderForHost hostname = Some p -> In p SEARCH_PROVIDERS.
Proof. unfold findProviderForHost. intros H. now apply find_some in H. Qed.

Lemma buildSearchLink_returns query company location remote seed :
  exists p, In p SEARCH_PROVIDERS
    /\ buildSearchLink query company location remote seed
       = Returns (Link.mk
                    (SearchProvider.buildUrl p query company location remote)
                    (SearchProvider.name p)).
Proof.
  unfold buildSearchLink.
  destruct (selectSearchProvider_returns seed) as [p Hp].
  exists p. split; [eapply selectSearchProvider_In; eauto|].
  now rewrite Hp.
Qed.

End Providers.

(** ** Mapping with an index *)

Section MapWithIndex.

Context {A B : Type}.

Lemma mapWithIndex_Forall (f : nat -> A -> Outcome B) (Q : B -> Prop) :
  (forall i x y, f i x = Returns y -> Q y) ->
  forall l start ys, mapWithIndex f start l = Returns ys -> Forall Q ys.
Proof.
  intros Hf. induction l as [|x l IH]; intros start ys H; simpl in H.
  - injection H as <-. constructor.
  - destruct (f start x) as [y|] eqn:Ey; simpl in H; [|discriminate].
    destruct (mapWithIndex f (S start) l) as [ys'|] eqn:El; simpl in H;
      [|discriminate].
    injection H as <-. constructor; eauto.
Qed.

Lemma mapWithIndex_length (f : nat -> A -> Outcome B) :
  forall l start ys,
    mapWithIndex f start l = Returns ys -> List.length ys = List.length l.
Proof.
  induction l as [|x l IH]; intros start ys H; simpl in H.
  - now injection H as <-.
  - destruct (f start x) as [y|]; simpl in H; [|discriminate].
    destruct (mapWithIndex f (S start) l) as [ys'|] eqn:El; simpl in H;
      [|discriminate].
    injection H as <-. simpl. f_equal. eauto.
Qed.

(** When the callback returns on every element, so does the map. *)
Lemma mapWithIndex_returns (f : nat -> A -> Outcome B) :
  forall l start,
    (forall i x, In x l -> exists y, f i x = Returns y) ->
    exists ys, mapWithIndex f start l = Returns ys.
Proof.
  induction l as [|x l IH]; intros start Hf; simpl.
  - eauto.
  - destruct (Hf start x) as [y Hy]; [now left|]. rewrite Hy. simpl.
    destruct (IH (S start)) as [ys Hys]; [intros; apply Hf; now right|].
    rewrite Hys. simpl. eauto.
Qed.

(** The result lists, position by position, what the callback returned. *)
Lemma mapWithIndex_nth (f : nat -> A -> Outcome B) :
  forall l start ys,
    mapWithIndex f start l = Returns ys ->
    forall i x, nth_error l i = Some x ->
      exists y, nth_error ys i = Some y /\ f (start + i) x = Returns y.
Proof.
  induction l as [|x l IH]; intros start ys H i a Hi.
  - destruct i; discriminate.
  - simpl in H.
    destruct (f start x) as [y|] eqn:Ey; simpl in H; [|discriminate].
    destruct (mapWithIndex f (S start) l) as [ys'|] eqn:El; simpl in H;
      [|discriminate].
    injection H as <-. destruct i as [|i]; simpl in *.
    + injection Hi as <-. exists y. now rewrite Nat.add_0_r.
    + destruct (IH _ _ El i a Hi) as [b [Hb Hf]].
      exists b. split; [assumption|]. now rewrite <- Nat.add_succ_comm.
Qed.

(** A key that depends on the index alone. *)
Lemma mapWithIndex_keys {K : Type} (f : nat -> A -> Outcome B)
  (key : B -> K) (g : nat -> K) :
  (forall i x y, f i x = Returns y -> key y = g i) ->
  forall l start ys,
    mapWithIndex f start l = Returns ys ->
    map key ys = map g (seq start (List.length l)).
Proof.
  intros Hk. induction l as [|x l IH]; intros start ys H; simpl in H.
  - now injection H as <-.
  - destruct (f start x) as [y|] eqn:Ey; simpl in H; [|discriminate].
    destruct (mapWithIndex f (S start) l) as [ys'|] eqn:El; simpl in H;
      [|discriminate].
    injection H as <-. simpl. f_equal; eauto.
Qed.

End MapWithIndex.

(** ** Every returned link is an https link *)

Section HttpsLinks.

Context {P : Platform}.

Lemma fallbackJob_returns now location remote query queryIndex offset :
  exists job,
    fallbackJob now location remote query queryIndex offset = Returns job.
Proof.
  unfold fallbackJob.
  destruct (providerAt_in_range _
    (seed_index_in_range
       (hashString (JobQuery.title query ++ ":" ++ JobQuery.query query ++ ":"
                    ++ decimal queryIndex ++ ":" ++ decimal offset))))
    as [p [_ Hp]].
  rewrite Hp. simpl. eauto.
Qed.

Lemma fallbackJob_https now location remote query queryIndex offset job :
  fallbackJob now location remote query queryIndex offset = Returns job ->
  JS.startsWith (JobPosting.url job) "https://" = true.
Proof.
  unfold fallbackJob.
  destruct (providerAt _) as [p|] eqn:Hp; simpl; [|discriminate].
  intros [= <-]. simpl. apply provider_url_https. eapply providerAt_In; eauto.
Qed.

Lemma concat_Forall {T} (Q : T -> Prop) (groups : list (list T)) :
  Forall (Forall Q) groups -> Forall Q (List.concat groups).
Proof.
  induction 1; simpl; [constructor|]. apply Forall_app. now split.
Qed.

Lemma buildFallbackJobs_https now queries location remote jobs :
  buildFallbackJobs now queries location remote = Returns jobs ->
  Forall (fun job => JS.startsWith (JobPosting.url job) "https://" = true) jobs.
Proof.
  unfold buildFallbackJobs, flatMapWithIndex.
  destruct (mapWithIndex _ 0 queries) as [groups|] eqn:E; simpl; [|discriminate].
  intros [= <-]. apply concat_Forall.
  eapply mapWithIndex_Forall; [|exact E].
  intros i q group Hg. unfold fallbackJobsFor in Hg.
  eapply mapWithIndex_Forall; [|exact Hg].
  intros off u job. apply fallbackJob_https.
Qed.

Lemma buildFallbackJobs_returns now queries location remote :
  exists jobs, buildFallbackJobs now queries location remote = Returns jobs.
Proof.
  unfold buildFallbackJobs, flatMapWithIndex.
  destruct (mapWithIndex_returns (fallbackJobsFor now location remote)
              queries 0) as [groups Hg].
  - intros i q _. apply mapWithIndex_returns.
    intros off u _. apply fallbackJob_returns.
  - rewrite Hg. simpl. eauto.
Qed.

Lemma ensureCompanyLink_https rawLink company fallbackQuery location remote
  index modelSource link :
  ensureCompanyLink rawLink company fallbackQuery location remote index
                    modelSource = Returns link ->
  JS.startsWith (Link.url link) "https://" = true.
Proof.
  unfold ensureCompanyLink.
  destruct (buildSearchLink_returns fallbackQuery (Some company) location remote
    (hashString (JobQuery.title fallbackQuery ++ ":"
                 ++ JobQuery.query fallbackQuery ++ ":" ++ decimal index)))
    as [fp [Hin Hfb]].
  rewrite Hfb. simpl.
  assert (Hfallback : JS.startsWith
    (SearchProvider.buildUrl fp fallbackQuery (Some company) location remote)
    "https://" = true) by now apply provider_url_https.
  destruct rawLink as [raw|]; [|intros [= <-]; exact Hfallback].
  destruct (JS.truthy raw && JS.startsWith raw "https://")%bool eqn:Hraw; simpl;
    [|intros [= <-]; exact Hfallback].
  apply andb_prop in Hraw. destruct Hraw as [_ Hraw].
  destruct (URL_new raw) as [parsed|]; [|intros [= <-]; exact Hfallback].
  destruct (JS.truthy company); simpl.
  - destruct (findProviderForHost (URL.hostname parsed)) as [p|] eqn:Hp.
    + destruct (if JS.truthy (slugify company)
                then JS.includes (JS.toLowerCase raw) (slugify company)
                else false).
      * intros [= <-]. exact Hraw.
      * intros [= <-]. simpl. apply provider_url_https.
        eapply findProviderForHost_In; eauto.
    + destruct (if JS.truthy (slugify company)
                then JS.includes (JS.toLowerCase raw) (slugify company)
                else false); intros [= <-]; exact Hraw.
  - intros [= <-]. exact Hraw.
Qed.

Lemma stringProp_cases (job : Json) (key : string) :
  (job = JNull /\ exists msg, stringProp job key = Throws msg)
  \/ (job <> JNull /\ exists v, stringProp job key = Returns v).
Proof.
  destruct job; unfold stringProp; simpl; eauto; right; split; try discriminate;
    eauto.
Qed.

Lemma assemblePosting_https w queries location remote index job posting :
  assemblePosting w queries location remote index job = Returns posting ->
  JS.startsWith (JobPosting.url posting) "https://" = true.
Proof.
  unfold assemblePosting.
  repeat (match goal with
          | |- context [stringProp job ?k] =>
              destruct (stringProp job k); simpl; [|discriminate]
          end).
  destruct (nth_error queries (index mod List.length queries));
    [|discriminate].
  match goal with
  | |- context [ensureCompanyLink ?a ?b ?c ?d ?e ?f ?g] =>
      destruct (ensureCompanyLink a b c d e f g) as [link|] eqn:El; simpl;
        [|discriminate]
  end.
  intros [= <-]. simpl. eapply ensureCompanyLink_https; eauto.
Qed.

Lemma synthesise_https w queries location remote jobs :
  synthesise w queries location remote = Returns jobs ->
  Forall (fun job => JS.startsWith (JobPosting.url job) "https://" = true) jobs.
Proof.
  unfold synthesise.
  destruct (World.aiReply w) as [reply|]; simpl; [|discriminate].
  destruct (match reply with
            | Some text => safeJsonParse text
            | None => Throws "Empty response from Gemini."
            end) as [parsed|]; simpl; [|discriminate].
  destruct (jobsOf parsed) as [raw|]; simpl; [|discriminate].
  destruct raw as [|j raw].
  - apply buildFallbackJobs_https.
  - destruct (mapWithIndex _ 0 (j :: raw)) as [postings|] eqn:E; simpl;
      [|discriminate].
    intros [= <-].
    apply Forall_forall. intros x Hx. apply filter_In in Hx.
    destruct Hx as [Hx _]. revert x Hx. apply Forall_forall.
    eapply mapWithIndex_Forall; [|exact E].
    intros i x y. apply assemblePosting_https.
Qed.

(** C3: whatever the queries, the preferences, the reply of the AI client
    and the state of the module, every posting of a returned list has a
    url that starts with [https://]. *)
Theorem generateJobsWithGemini_https (w : World.t) (cachedModel : option Model)
  (queries : list JobQuery.t) (location : option string) (remote : bool)
  (jobs : list JobPosting.t) (job : JobPosting.t)
  (Hrun : fst (generateJobsWithGemini w cachedModel queries location remote)
          = Returns jobs)
  (Hin : In job jobs) :
  JS.startsWith (JobPosting.url job) "https://" = true.
Proof.
  revert job Hin. apply Forall_forall.
  unfold generateJobsWithGemini in Hrun.
  destruct (getModel w cachedModel) as [[m|msg] cached]; simpl in Hrun;
    [|discriminate].
  unfold tryCatch in Hrun.
  destruct (synthesise w queries location remote) as [l|] eqn:Es.
  - injection Hrun as <-. eapply synthesise_https; eauto.
  - eapply buildFallbackJobs_https; eauto.
Qed.

End HttpsLinks.

Lemma generateJobsWithGemini_https_witness :
  exists jobs job,
    fst (@generateJobsWithGemini ReferencePlatform
           (demoWorld "key" (Some (Some placeholderReply))) None demoQueries
           (Some "Berlin") false) = Returns jobs
    /\ In job jobs
    /\ JS.startsWith (JobPosting.url job) "https://" = true.
Proof.
  eexists. eexists.
  split; [vm_compute; reflexivity|].
  split; [left; reflexivity|].
  eapply (@generateJobsWithGemini_https ReferencePlatform
            (demoWorld "key" (Some (Some placeholderReply))) None demoQueries
            (Some "Berlin") false).
  - vm_compute. reflexivity.
  - left. reflexivity.
Defined.

(** ** The embedded-JSON extractor *)

Section BracePositions.

Variable c : ascii.

Lemma indexOf_None (s : string) :
  JS.indexOf c s = None <-> forall i, get i s <> Some c.
Proof.
  induction s as [|a s IH]; simpl.
  - split; [intros _ i; destruct i; discriminate | reflexivity].
  - destruct (Ascii.eqb_spec a c) as [->|Hac].
    + split; [discriminate|]. intros H. now specialize (H 0).
    + destruct (JS.indexOf c s) as [k|].
      * split; [discriminate|]. intros H.
        assert (Hs : forall i, get i s <> Some c) by (intros i; apply (H (S i))).
        apply IH in Hs. discriminate.
      * split; [|reflexivity]. intros _ [|i]; simpl.
        -- congruence.
        -- now apply IH.
Qed.

Lemma indexOf_Some (s : string) (i : nat) :
  JS.indexOf c s = Some i <-> firstAt c s i.
Proof.
  revert i. induction s as [|a s IH]; intros i; simpl.
  - split; [discriminate|]. intros [H _]. destruct i; discriminate.
  - destruct (Ascii.eqb_spec a c) as [->|Hac].
    + split.
      * intros [= <-]. split; [reflexivity | intros j Hj; lia].
      * intros [Hi Hfirst]. destruct i as [|i]; [reflexivity|].
        exfalso. now apply (Hfirst 0); [lia|].
    + destruct (JS.indexOf c s) as [k|] eqn:Ek.
      * split.
        -- intros [= <-]. destruct (proj1 (IH k) eq_refl) as [Hk Hfirst].
           split; [exact Hk|]. intros [|j] Hj; simpl; [congruence|].
           apply Hfirst. lia.
        -- intros [Hi Hfirst]. destruct i as [|i]; simpl in Hi; [congruence|].
           assert (Hk : Some k = Some i).
           { apply IH. split; [exact Hi|].
             intros j Hj. apply (Hfirst (S j)). lia. }
           now injection Hk as ->.
      * split; [discriminate|]. intros [Hi _].
        destruct i as [|i]; simpl in Hi; [congruence|].
        exfalso. revert Hi. now apply indexOf_None.
Qed.

Lemma lastIndexOf_None (s : string) :
  JS.lastIndexOf c s = None <-> forall i, get i s <> Some c.
Proof.
  induction s as [|a s IH]; simpl.
  - split; [intros _ i; destruct i; discriminate | reflexivity].
  - destruct (JS.lastIndexOf c s) as [k|].
    + split; [discriminate|]. intros H.
      assert (Hs : forall i, get i s <> Some c) by (intros i; apply (H (S i))).
      apply IH in Hs. discriminate.
    + destruct (Ascii.eqb_spec a c) as [->|Hac].
      * split; [discriminate|]. intros H. now specialize (H 0).
      * split; [|reflexivity]. intros _ [|i]; simpl.
        -- congruence.
        -- now apply IH.
Qed.

Lemma lastIndexOf_Some (s : string) (i : nat) :
  JS.lastIndexOf c s = Some i <-> lastAt c s i.
Proof.
  revert i. induction s as [|a s IH]; intros i; simpl.
  - split; [discriminate|]. intros [H _]. destruct i; discriminate.
  - destruct (JS.lastIndexOf c s) as [k|] eqn:Ek.
    + destruct (proj1 (IH k) eq_refl) as [Hk Hlast]. split.
      * intros [= <-]. split; [exact Hk|].
        intros [|j] Hj; [lia|]. simpl. apply Hlast. lia.
      * intros [Hi Hlast']. destruct i as [|i].
        -- exfalso. apply (Hlast' (S k)); [lia | exact Hk].
        -- assert (Hki : Some k = Some i).
           { apply IH. split; [exact Hi|].
             intros j Hj. apply (Hlast' (S j)). lia. }
           now injection Hki as ->.
    + assert (Hnone : forall j, get j s <> Some c) by now apply lastIndexOf_None.
      destruct (Ascii.eqb_spec a c) as [->|Hac].
      * split.
        -- intros [= <-]. split; [reflexivity|].
           intros [|j] Hj; [lia|]. simpl. apply Hnone.
        -- intros [Hi _]. destruct i as [|i]; [reflexivity|].
           simpl in Hi. now apply Hnone in Hi.
      * split; [discriminate|]. intros [Hi _].
        destruct i as [|i]; simpl in Hi; [congruence|]. now apply Hnone in Hi.
Qed.

End BracePositions.

(** C5: the extractor returns exactly what strict parsing of the slice from
    the first opening brace to the last closing brace (both included)
    returns, when the former lies before the latter; it fails exactly when
    a brace is missing, the last closing brace is not after the first
    opening brace, or the parse of that slice fails.  The two examples of
    the specification are evaluated on the reference parser. *)
Theorem safeJsonParse_spec :
  (forall (P : Platform) (text : string),
      (forall value,
          safeJsonParse text = Returns value <->
          exists first last,
            firstAt "{" text first /\ lastAt "}" text last /\ first < last
            /\ JSON_parse (JS.slice text first (last + 1)) = Returns value)
      /\ ((exists msg, safeJsonParse text = Throws msg) <->
          ((forall i, get i text <> Some "{"%char)
           \/ (forall i, get i text <> Some "}"%char)
           \/ exists first last,
               firstAt "{" text first /\ lastAt "}" text last
               /\ (last <= first
                   \/ exists msg,
                       JSON_parse (JS.slice text first (last + 1)) = Throws msg))))
  /\ @safeJsonParse ReferencePlatform (jsonText "noise {'a':1} noise")
     = Returns (JObject [("a", JNumber 1 0)])
  /\ (forall P : Platform,
         exists msg, @safeJsonParse P "no braces here" = Throws msg).
Proof.
  split; [|split; [reflexivity | intros P; eexists; reflexivity]].
  intros P text. unfold safeJsonParse.
  destruct (JS.truthy text) eqn:T; simpl.
  - destruct (JS.indexOf "{" text) as [f|] eqn:Ef.
    + destruct (JS.lastIndexOf "}" text) as [l|] eqn:El.
      * apply indexOf_Some in Ef. apply lastIndexOf_Some in El.
        assert (Huniq : forall f' l',
                   firstAt "{" text f' -> lastAt "}" text l' -> f' = f /\ l' = l).
        { intros f' l' Hf' Hl'.
          apply indexOf_Some in Hf'. apply lastIndexOf_Some in Hl'.
          apply indexOf_Some in Ef. apply lastIndexOf_Some in El.
          split; congruence. }
        destruct (Nat.leb_spec l f) as [Hle|Hlt].
        -- split.
           ++ intros value. split; [discriminate|].
              intros [f' [l' [Hf' [Hl' [Hlt _]]]]].
              destruct (Huniq _ _ Hf' Hl'); subst. lia.
           ++ split; [|eauto].
              intros _. right. right. exists f, l. auto.
        -- split.
           ++ intros value. split.
              ** intros H. exists f, l. auto.
              ** intros [f' [l' [Hf' [Hl' [_ H]]]]].
                 destruct (Huniq _ _ Hf' Hl'); subst. exact H.
           ++ split.
              ** intros H. right. right. exists f, l. auto.
              ** intros [H|[H|[f' [l' [Hf' [Hl' H]]]]]].
                 --- exfalso. destruct Ef as [Ef _]. now apply H in Ef.
                 --- exfalso. destruct El as [El _]. now apply H in El.
                 --- destruct (Huniq _ _ Hf' Hl'); subst.
                     destruct H as [H|H]; [lia | exact H].
      * pose proof (proj1 (lastIndexOf_None _ _) El) as El'. clear El.
        rename El' into El. split.
        -- intros value. split; [discriminate|].
           intros [f' [l' [_ [[Hl' _] _]]]]. now apply El in Hl'.
        -- split; eauto.
    + pose proof (proj1 (indexOf_None _ _) Ef) as Ef'. clear Ef.
      rename Ef' into Ef. split.
      * intros value. split; [discriminate|].
        intros [f' [l' [[Hf' _] _]]]. now apply Ef in Hf'.
      * split; eauto.
  - apply truthy_false in T. subst text. split.
    + intros value. split; [discriminate|].
      intros [f' [l' [[Hf' _] _]]]. destruct f'; discriminate.
    + split; [|eauto]. intros _. left. intros i. destruct i; discriminate.
Qed.

(** ** The source label of a validated link *)

Section LinkSource.

Context {P : Platform}.

Lemma startsWith_truthy (s p : string) :
  JS.truthy p = true -> JS.startsWith s p = true -> JS.truthy s = true.
Proof.
  intros Hp H. destruct s; [|reflexivity].
  destruct p; [discriminate Hp | discriminate H].
Qed.

(** The seed of the deterministic fallback link. *)
Lemma ensureCompanyLink_unfold rawLink company fallbackQuery location remote
  index modelSource :
  JS.startsWith rawLink "https://" = true ->
  exists fallbackLink,
    buildSearchLink fallbackQuery (Some company) location remote
      (hashString (JobQuery.title fallbackQuery ++ ":"
                   ++ JobQuery.query fallbackQuery ++ ":" ++ decimal index))
    = Returns fallbackLink
    /\ ensureCompanyLink (Some rawLink) company fallbackQuery location remote
         index modelSource
       = match URL_new rawLink with
         | Throws _ => Returns fallbackLink
         | Returns parsed =>
             let provider := findProviderForHost (URL.hostname parsed) in
             let linkIncludesCompany :=
               if JS.truthy (slugify company)
               then JS.includes (JS.toLowerCase rawLink) (slugify company)
               else false in
             if negb (JS.truthy company) then
               Returns (Link.mk rawLink
                 (match modelSource, provider with
                  | Some m, _ => m
                  | None, Some p => SearchProvider.name p
                  | None, None => Link.source fallbackLink
                  end))
             else
               match provider with
               | Some p =>
                   if linkIncludesCompany then
                     Returns (Link.mk rawLink
                       (match modelSource with
                        | Some m => m
                        | None => SearchProvider.name p
                        end))
                   else
                     Returns (Link.mk
                       (SearchProvider.buildUrl p fallbackQuery (Some company)
                                                location remote)
                       (SearchProvider.name p))
               | None =>
                   if linkIncludesCompany then
                     Returns (Link.mk rawLink
                       (match modelSource with
                        | Some m => m
                        | None => "AI curated"
                        end))
                   else
                     Returns (Link.mk rawLink
                       (match modelSource with
                        | Some m => m
                        | None => Link.source fallbackLink
                        end))
               end
         end.
Proof.
  intros Hhttps.
  destruct (buildSearchLink_returns fallbackQuery (Some company) location remote
    (hashString (JobQuery.title fallbackQuery ++ ":"
                 ++ JobQuery.query fallbackQuery ++ ":" ++ decimal index)))
    as [fp [_ Hfb]].
  eexists. split; [exact Hfb|].
  unfold ensureCompanyLink. rewrite Hfb. simpl.
  rewrite Hhttps.
  rewrite (startsWith_truthy rawLink "https://" eq_refl Hhttps). simpl.
  reflexivity.
Qed.

(** C6, as the code has it.  For an https link that the URL constructor
    accepts, and when the raw posting carries no source label of its own:
    a link on a known provider's host that contains the company slug is
    labelled with that provider's name, and a link on an unrecognised host
    that does not contain the slug is kept and labelled with the source of
    the deterministic fallback link.  When the raw posting does carry a
    source label, every link that is kept is labelled with that label. *)
Theorem ensureCompanyLink_source
  (rawLink company : string) (fallbackQuery : JobQuery.t)
  (location : option string) (remote : bool) (index : nat) (parsed : URL.t)
  (Hhttps : JS.startsWith rawLink "https://" = true)
  (Hparse : URL_new rawLink = Returns parsed) :
  (forall provider,
      findProviderForHost (URL.hostname parsed) = Some provider ->
      JS.includes (JS.toLowerCase rawLink) (slugify company) = true ->
      exists link,
        ensureCompanyLink (Some rawLink) company fallbackQuery location remote
                          index None = Returns link
        /\ Link.source link = SearchProvider.name provider)
  /\ (findProviderForHost (URL.hostname parsed) = None ->
      JS.includes (JS.toLowerCase rawLink) (slugify company) = false ->
      exists fallbackLink,
        buildSearchLink fallbackQuery (Some company) location remote
          (hashString (JobQuery.title fallbackQuery ++ ":"
                       ++ JobQuery.query fallbackQuery ++ ":" ++ decimal index))
        = Returns fallbackLink
        /\ ensureCompanyLink (Some rawLink) company fallbackQuery location
             remote index None
           = Returns (Link.mk rawLink (Link.source fallbackLink)))
  /\ (forall modelSource,
      findProviderForHost (URL.hostname parsed) = None
      \/ company = ""
      \/ (JS.truthy (slugify company) = true
          /\ JS.includes (JS.toLowerCase rawLink) (slugify company) = true) ->
      ensureCompanyLink (Some rawLink) company fallbackQuery location remote
                        index (Some modelSource)
      = Returns (Link.mk rawLink modelSource)).
Proof.
  split; [|split].
  - intros provider Hp Hinc.
    destruct (ensureCompanyLink_unfold rawLink company fallbackQuery location
                remote index None Hhttps) as [fb [_ ->]].
    rewrite Hparse. cbv zeta. rewrite Hp, Hinc.
    destruct (JS.truthy company); simpl; [|eauto].
    destruct (JS.truthy (slugify company)); eauto.
  - intros Hp Hinc.
    destruct (ensureCompanyLink_unfold rawLink company fallbackQuery location
                remote index None Hhttps) as [fb [Hfb ->]].
    exists fb. split; [exact Hfb|].
    rewrite Hparse. cbv zeta. rewrite Hp, Hinc.
    destruct (JS.truthy company); simpl; [|reflexivity].
    destruct (JS.truthy (slugify company)); reflexivity.
  - intros modelSource H.
    destruct (ensureCompanyLink_unfold rawLink company fallbackQuery location
                remote index (Some modelSource) Hhttps) as [fb [_ ->]].
    rewrite Hparse. cbv zeta.
    destruct H as [Hp|[->|[Hslug Hinc]]].
    + rewrite Hp. destruct (JS.truthy company); simpl; [|reflexivity].
      destruct (if JS.truthy (slugify company)
                then JS.includes (JS.toLowerCase rawLink) (slugify company)
                else false); reflexivity.
    + reflexivity.
    + rewrite Hslug, Hinc.
      destruct (JS.truthy company); simpl; [|reflexivity].
      destruct (findProviderForHost (URL.hostname parsed)); reflexivity.
Qed.

End LinkSource.

Lemma ensureCompanyLink_source_witness :
  JS.startsWith "https://www.linkedin.com/company/canva/jobs" "https://" = true
  /\ @URL_new ReferencePlatform "https://www.linkedin.com/company/canva/jobs"
     = Returns (URL.mk "www.linkedin.com" "/company/canva/jobs")
  /\ @ensureCompanyLink ReferencePlatform
       (Some "https://www.linkedin.com/company/canva/jobs") "Canva"
       (JobQuery.mk "Designer" "product designer") None false 0
       (Some "Gemini")
     = Returns (Link.mk "https://www.linkedin.com/company/canva/jobs" "Gemini").
Proof.
  split; [reflexivity|]. split; [reflexivity|].
  apply (@ensureCompanyLink_source ReferencePlatform
           "https://www.linkedin.com/company/canva/jobs" "Canva"
           (JobQuery.mk "Designer" "product designer") None false 0
           (URL.mk "www.linkedin.com" "/company/canva/jobs")
           eq_refl eq_refl).
  right. right. split; reflexivity.
Defined.

(** C6, as the specification states it, fails: a link on LinkedIn's host that contains
    the company slug is labelled with the source the raw posting carries,
    not with the provider's name; and so is a link on an unrecognised host
    without the slug, where the fallback's label was claimed. *)
Lemma ensureCompanyLink_source_counterexample :
  (JS.startsWith "https://www.linkedin.com/company/canva/jobs" "https://" = true
   /\ option_map SearchProvider.name (findProviderForHost "www.linkedin.com")
      = Some "LinkedIn search"
   /\ JS.includes (JS.toLowerCase "https://www.linkedin.com/company/canva/jobs")
                  (slugify "Canva") = true
   /\ @ensureCompanyLink ReferencePlatform
        (Some "https://www.linkedin.com/company/canva/jobs") "Canva"
        (JobQuery.mk "Designer" "product designer") None false 0
        (Some "Gemini")
      = Returns (Link.mk "https://www.linkedin.com/company/canva/jobs" "Gemini"))
  /\ (findProviderForHost "jobs.example.org" = None
      /\ JS.includes (JS.toLowerCase "https://jobs.example.org/openings")
                     (slugify "Canva") = false
      /\ option_map Link.source
           (match buildSearchLink (JobQuery.mk "Designer" "product designer")
                    (Some "Canva") None false
                    (hashString "Designer:product designer:0") with
            | Returns l => Some l
            | Throws _ => None
            end) = Some "Prosple search"
      /\ @ensureCompanyLink ReferencePlatform
           (Some "https://jobs.example.org/openings") "Canva"
           (JobQuery.mk "Designer" "product designer") None false 0
           (Some "Gemini")
         = Returns (Link.mk "https://jobs.example.org/openings" "Gemini")).
Proof. repeat split; vm_compute; reflexivity. Qed.

(** ** Failure handling of the engine *)

Section Fallback.

Context {P : Platform}.

(** Once a model handle is available the engine always returns a list. *)
Lemma generateJobsWithGemini_returns_when_configured w cachedModel queries
  location remote m :
  fst (getModel w cachedModel) = Returns m ->
  exists jobs,
    fst (generateJobsWithGemini w cachedModel queries location remote)
    = Returns jobs.
Proof.
  intros Hm. unfold generateJobsWithGemini.
  destruct (getModel w cachedModel) as [[m'|msg] cached]; simpl in Hm;
    [|discriminate].
  simpl. unfold tryCatch.
  destruct (synthesise w queries location remote) as [jobs|]; [eauto|].
  apply buildFallbackJobs_returns.
Qed.

(** A failed call, an empty or unparsable reply, or a reply without
    postings gives the deterministic fallback list. *)
Lemma generateJobsWithGemini_falls_back w cachedModel queries location remote m :
  fst (getModel w cachedModel) = Returns m ->
  World.aiReply w = None
  \/ World.aiReply w = Some None
  \/ (exists text,
         World.aiReply w = Some (Some text)
         /\ ((exists msg, safeJsonParse text = Throws msg)
             \/ exists parsed,
                 safeJsonParse text = Returns parsed
                 /\ (jobsOf parsed = Returns []
                     \/ exists msg, jobsOf parsed = Throws msg))) ->
  fst (generateJobsWithGemini w cachedModel queries location remote)
  = buildFallbackJobs (World.fallbackNow w) queries location remote.
Proof.
  intros Hm Hreply. unfold generateJobsWithGemini.
  destruct (getModel w cachedModel) as [[m'|msg] cached]; simpl in Hm;
    [|discriminate].
  simpl. unfold tryCatch, synthesise.
  destruct (buildFallbackJobs_returns (World.fallbackNow w) queries location
              remote) as [fb Hfb].
  destruct Hreply as [->|[->|[text [-> Hparse]]]]; simpl; try reflexivity.
  destruct Hparse as [[msg ->]|[parsed [-> Hjobs]]]; simpl; [reflexivity|].
  destruct Hjobs as [->|[msg ->]]; simpl; [|reflexivity].
  now rewrite Hfb.
Qed.

End Fallback.

(** C1 at the failing input: with no API key in the environment and no
    cached handle, the engine throws the configuration error, whatever the
    platform, the reply, the queries and the preferences; the fallback list
    exists, but it is not what the caller gets. *)
Theorem generateJobsWithGemini_unconfigured_throws :
  forall (P : Platform) (reply : option (option string)) (itemNow : nat -> Z)
         (fallbackNow : Z) (queries : list JobQuery.t)
         (location : option string) (remote : bool),
    fst (generateJobsWithGemini (World.mk "" reply itemNow fallbackNow) None
                                queries location remote)
    = Throws "Gemini model is not configured. Provide a valid GEMINI_API_KEY."
    /\ exists fallback,
         buildFallbackJobs fallbackNow queries location remote = Returns fallback
         /\ fst (generateJobsWithGemini (World.mk "" reply itemNow fallbackNow)
                  None queries location remote)
            <> Returns fallback.
Proof.
  intros P reply itemNow fallbackNow queries location remote.
  split; [reflexivity|].
  destruct (buildFallbackJobs_returns fallbackNow queries location remote)
    as [fallback Hfb].
  exists fallback. split; [exact Hfb|].
  unfold generateJobsWithGemini, getModel. simpl. discriminate.
Qed.

(** ** Company names *)

Section CompanyNames.

Lemma companyAt_In (companies : list string) (position : Z) :
  (0 <= position < Z.of_nat (List.length companies))%Z ->
  In (companyAt companies position) companies.
Proof. intros H. unfold companyAt. apply nth_In. lia. Qed.

Lemma sample_position_in_range (offset : Z) (index len : nat) :
  (0 <= offset)%Z -> 0 < len ->
  (0 <= Z.rem (offset + Z.of_nat index) (Z.of_nat len) < Z.of_nat len)%Z.
Proof. intros Ho Hl. apply Z.rem_bound_pos; lia. Qed.

Lemma buckets_nonempty :
  Forall (fun bucket => 0 < List.length (CompanyBucket.companies bucket))
         COMPANY_BUCKETS.
Proof. repeat constructor. Qed.

(** The sampled name is always an entry of the tables. *)
Lemma pickSampleCompany_in_tables (query : JobQuery.t) (index : nat) :
  In (pickSampleCompany query index) SAMPLE_COMPANIES.
Proof.
  unfold pickSampleCompany, SAMPLE_COMPANIES. apply in_or_app.
  destruct (find _ COMPANY_BUCKETS) as [bucket|] eqn:E.
  - left. apply find_some in E. destruct E as [Hb _].
    apply in_flat_map. exists bucket. split; [exact Hb|].
    apply companyAt_In. apply sample_position_in_range; [apply Z.abs_nonneg|].
    pose proof buckets_nonempty as Hne. rewrite Forall_forall in Hne. auto.
  - right. apply companyAt_In.
    apply sample_position_in_range; [apply Z.abs_nonneg | simpl; lia].
Qed.

Lemma sample_companies_specific :
  forallb (fun name => negb (isGenericCompanyName name)) SAMPLE_COMPANIES = true.
Proof. vm_compute. reflexivity. Qed.

(** Third tier: a sampled name is never generic. *)
Lemma pickSampleCompany_not_generic (query : JobQuery.t) (index : nat) :
  isGenericCompanyName (pickSampleCompany query index) = false.
Proof.
  pose proof sample_companies_specific as H. rewrite forallb_forall in H.
  specialize (H _ (pickSampleCompany_in_tables query index)).
  now apply negb_true_iff in H.
Qed.

Context {P : Platform}.

(** A generic result can only come from the second tier, the name derived
    from the link. *)
Lemma normaliseCompanyName_generic_only_from_link rawCompany link query index :
  isGenericCompanyName (normaliseCompanyName rawCompany link query index) = true ->
  deriveCompanyFromLink link
  = Some (normaliseCompanyName rawCompany link query index).
Proof.
  unfold normaliseCompanyName.
  assert (Hvia : forall name,
    name = match deriveCompanyFromLink link with
           | Some derived =>
               if JS.truthy derived then derived
               else pickSampleCompany query index
           | None => pickSampleCompany query index
           end ->
    isGenericCompanyName name = true -> deriveCompanyFromLink link = Some name).
  { intros name -> H.
    destruct (deriveCompanyFromLink link) as [d|].
    - destruct (JS.truthy d); [reflexivity|].
      now rewrite pickSampleCompany_not_generic in H.
    - now rewrite pickSampleCompany_not_generic in H. }
  destruct rawCompany as [raw|]; simpl.
  - destruct (JS.truthy (JS.trim raw) && negb (isGenericCompanyName (JS.trim raw)))%bool
      eqn:E.
    + apply andb_prop in E. destruct E as [_ E]. apply negb_true_iff in E.
      intros H. congruence.
    + now apply Hvia.
  - now apply Hvia.
Qed.

End CompanyNames.

(** C2 at the failing input: the AI client names the placeholder "N/A" and
    links to [https://company.com/careers]; the placeholder is rejected,
    the link yields the name "Company", and that name, which the generic
    test itself classifies as a placeholder, is what the posting carries. *)
Theorem normaliseCompanyName_generic_from_link :
  @normaliseCompanyName ReferencePlatform (Some "N/A")
     "https://company.com/careers"
     (JobQuery.mk "Backend Engineer" "backend engineer node") 0 = "Company"
  /\ isGenericCompanyName "Company" = true
  /\ exists posting,
       fst (@generateJobsWithGemini ReferencePlatform
              (demoWorld "key" (Some (Some placeholderReply))) None
              demoQueries None false)
       = Returns [posting]
       /\ JobPosting.company posting = "Company"
       /\ isGenericCompanyName (JobPosting.company posting) = true.
Proof.
  split; [vm_compute; reflexivity|]. split; [vm_compute; reflexivity|].
  eexists. split; [vm_compute; reflexivity|]. split; vm_compute; reflexivity.
Qed.

(** ** No deduplication *)

Section EveryPostingKept.

Context {P : Platform}.

Lemma ensureCompanyLink_returns rawLink company fallbackQuery location remote
  index modelSource :
  exists link,
    ensureCompanyLink rawLink company fallbackQuery location remote index
                      modelSource = Returns link.
Proof.
  unfold ensureCompanyLink.
  destruct (buildSearchLink_returns fallbackQuery (Some company) location remote
    (hashString (JobQuery.title fallbackQuery ++ ":"
                 ++ JobQuery.query fallbackQuery ++ ":" ++ decimal index)))
    as [fp [_ ->]].
  simpl.
  destruct rawLink as [raw|]; [|eauto].
  destruct (negb _); [eauto|].
  destruct (URL_new raw) as [parsed|]; [|eauto].
  destruct (negb _); [eauto|].
  destruct (findProviderForHost _);
    destruct (if JS.truthy (slugify company) then _ else _); eauto.
Qed.

Lemma nth_error_mod_Some {T} (l : list T) (i : nat) :
  l <> [] -> exists x, nth_error l (i mod List.length l) = Some x.
Proof.
  intros Hl.
  destruct (nth_error l (i mod List.length l)) eqn:E; [eauto|].
  apply nth_error_None in E.
  assert (0 < List.length l) by (destruct l; simpl; [congruence | lia]).
  pose proof (Nat.mod_upper_bound i (List.length l)). lia.
Qed.

Lemma assemblePosting_returns w queries location remote index job :
  job <> JNull -> queries <> [] ->
  exists posting,
    assemblePosting w queries location remote index job = Returns posting.
Proof.
  intros Hjob Hq. unfold assemblePosting.
  repeat (match goal with
          | |- context [stringProp job ?k] =>
              destruct (stringProp_cases job k) as [[Hn _]|[_ [? ->]]];
                [contradiction|]; cbn [bindO]
          end).
  destruct (nth_error_mod_Some queries index Hq) as [q ->]. cbv beta iota.
  match goal with
  | |- context [ensureCompanyLink ?a ?b ?c ?d ?e ?f ?g] =>
      destruct (ensureCompanyLink_returns a b c d e f g) as [link ->]
  end.
  simpl. eauto.
Qed.

Lemma filter_keeps_all {T} (f : T -> bool) (l : list T) :
  Forall (fun x => f x = true) l -> filter f l = l.
Proof.
  induction 1 as [|x l Hx _ IH]; simpl; [reflexivity|].
  now rewrite Hx, IH.
Qed.

Lemma distinctb_NoDup (l : list string) : distinctb l = true -> NoDup l.
Proof.
  induction l as [|x l IH]; simpl; intros H; constructor.
  - apply andb_prop in H. destruct H as [H _]. apply negb_true_iff in H.
    intros Hin. assert (Hex : existsb (String.eqb x) l = true).
    { apply existsb_exists. exists x. split; [exact Hin | apply String.eqb_refl]. }
    congruence.
  - apply andb_prop in H. now apply IH.
Qed.

Lemma buckets_distinct :
  Forall (fun bucket =>
            5 <= List.length (CompanyBucket.companies bucket)
            /\ distinctb (CompanyBucket.companies bucket) = true)
         COMPANY_BUCKETS.
Proof. repeat constructor. Qed.

(** The table a query samples from does not depend on the index. *)
Lemma pickSampleCompany_table (query : JobQuery.t) :
  exists table a,
    5 <= List.length table /\ NoDup table /\ (0 <= a)%Z
    /\ forall index,
         pickSampleCompany query index
         = companyAt table
             (Z.rem (a + Z.of_nat index) (Z.of_nat (List.length table))).
Proof.
  unfold pickSampleCompany.
  destruct (find _ COMPANY_BUCKETS) as [bucket|] eqn:E.
  - apply find_some in E. destruct E as [Hb _].
    pose proof buckets_distinct as Hd. rewrite Forall_forall in Hd.
    destruct (Hd _ Hb) as [Hlen Hnd].
    eexists. eexists. split; [exact Hlen|].
    split; [now apply distinctb_NoDup|].
    split; [apply Z.abs_nonneg | reflexivity].
  - exists DEFAULT_COMPANIES. eexists. split; [simpl; lia|].
    split; [apply distinctb_NoDup; reflexivity|].
    split; [apply Z.abs_nonneg | reflexivity].
Qed.

Lemma sample_positions_distinct (a : Z) (len base i j : nat) :
  (0 <= a)%Z -> 5 <= len -> i < 5 -> j < 5 ->
  Z.rem (a + Z.of_nat (base + i)) (Z.of_nat len)
  = Z.rem (a + Z.of_nat (base + j)) (Z.of_nat len) ->
  i = j.
Proof.
  intros Ha Hlen Hi Hj H.
  rewrite !Z.rem_mod_nonneg in H by lia.
  pose proof (Z.div_mod (a + Z.of_nat (base + i)) (Z.of_nat len)) as Di.
  pose proof (Z.div_mod (a + Z.of_nat (base + j)) (Z.of_nat len)) as Dj.
  rewrite H in Di.
  set (qi := ((a + Z.of_nat (base + i)) / Z.of_nat len)%Z) in *.
  set (qj := ((a + Z.of_nat (base + j)) / Z.of_nat len)%Z) in *.
  assert (Hq : qi = qj) by nia.
  nia.
Qed.

Lemma fallbackJob_company now location remote query queryIndex offset job :
  fallbackJob now location remote query queryIndex offset = Returns job ->
  JobPosting.company job = pickSampleCompany query (queryIndex + offset).
Proof.
  unfold fallbackJob.
  destruct (providerAt _) as [p|]; simpl; [|discriminate].
  now intros [= <-].
Qed.

(** The postings the fallback generates for one query name pairwise
    distinct companies. *)
Lemma fallbackJobsFor_companies_distinct now location remote queryIndex query
  group :
  fallbackJobsFor now location remote queryIndex query = Returns group ->
  NoDup (map JobPosting.company group).
Proof.
  unfold fallbackJobsFor. intros H.
  rewrite (mapWithIndex_keys _ JobPosting.company
             (fun offset => pickSampleCompany query (queryIndex + offset))
             (fun off u job => fallbackJob_company _ _ _ _ _ _ _) _ _ _ H).
  rewrite repeat_length.
  destruct (pickSampleCompany_table query) as [table [a [Hlen [Hnd [Ha Hpick]]]]].
  apply Finite.Injective_map_NoDup_in; [|apply seq_NoDup].
  intros i j Hi Hj. rewrite !Hpick. unfold companyAt. intros Heq.
  apply in_seq in Hi. apply in_seq in Hj.
  change resultsPerQuery with 5 in Hi, Hj.
  assert (Hpos : forall k,
    (0 <= Z.rem (a + Z.of_nat (queryIndex + k)) (Z.of_nat (List.length table))
     < Z.of_nat (List.length table))%Z)
    by (intros k; apply Z.rem_bound_pos; lia).
  apply (proj1 (NoDup_nth table "") Hnd) in Heq;
    [| pose proof (Hpos i); lia | pose proof (Hpos j); lia].
  apply (sample_positions_distinct a (List.length table) queryIndex); try lia.
  pose proof (Hpos i). pose proof (Hpos j). lia.
Qed.

(** C4, as the code has it: there is no deduplication step.  When a model
    handle is available, the reply parses to a non-empty [jobs] array
    without [null] entries and there is at least one query, the engine
    returns exactly one posting per raw posting, in the same order: the
    posting at position [i] is the normalised raw posting of position [i].
    In the fallback list, the postings generated for one query name
    pairwise distinct companies. *)
Theorem generateJobsWithGemini_keeps_every_posting
  (w : World.t) (cachedModel : option Model) (queries : list JobQuery.t)
  (location : option string) (remote : bool)
  (m : Model) (text : string) (parsed : Json) (raw : list Json)
  (Hmodel : fst (getModel w cachedModel) = Returns m)
  (Hreply : World.aiReply w = Some (Some text))
  (Hparse : safeJsonParse text = Returns parsed)
  (Hjobs : jobsOf parsed = Returns raw)
  (Hsome : raw <> [])
  (Hnonnull : ~ In JNull raw)
  (Hqueries : queries <> []) :
  (exists postings,
    fst (generateJobsWithGemini w cachedModel queries location remote)
    = Returns postings
    /\ List.length postings = List.length raw
    /\ forall i job,
         nth_error raw i = Some job ->
         exists posting,
           nth_error postings i = Some posting
           /\ assemblePosting w queries location remote i job = Returns posting)
  /\ (forall now queryIndex query group,
         fallbackJobsFor now location remote queryIndex query = Returns group ->
         NoDup (map JobPosting.company group)).
Proof.
  split; [|intros now queryIndex query group;
           apply fallbackJobsFor_companies_distinct].
  destruct (mapWithIndex_returns (assemblePosting w queries location remote)
              raw 0) as [postings Hmap].
  { intros i job Hin. apply assemblePosting_returns; [|exact Hqueries].
    intros ->. contradiction. }
  exists postings.
  assert (Hkeep : filter (fun job => JS.truthy (JobPosting.url job)) postings
                  = postings).
  { apply filter_keeps_all.
    eapply mapWithIndex_Forall; [|exact Hmap].
    intros i job posting Hp. cbv beta.
    apply (startsWith_truthy _ "https://" eq_refl).
    eapply assemblePosting_https; eauto. }
  split; [|split].
  - unfold generateJobsWithGemini.
    destruct (getModel w cachedModel) as [[m'|msg] cached]; simpl in Hmodel;
      [|discriminate].
    simpl. unfold synthesise. rewrite Hreply. simpl. rewrite Hparse. simpl.
    rewrite Hjobs. simpl.
    destruct raw as [|j raw]; [congruence|].
    rewrite Hmap. simpl. now rewrite Hkeep.
  - eapply mapWithIndex_length; eauto.
  - intros i job Hi.
    exact (mapWithIndex_nth _ _ _ _ Hmap i job Hi).
Qed.

End EveryPostingKept.

Lemma generateJobsWithGemini_keeps_every_posting_witness :
  fst (getModel (demoWorld "key" (Some (Some repeatedReply))) None)
  = Returns (GenerativeModel "key")
  /\ exists postings,
       fst (@generateJobsWithGemini ReferencePlatform
              (demoWorld "key" (Some (Some repeatedReply))) None demoQueries
              None false) = Returns postings
       /\ List.length postings = 2.
Proof.
  split; [reflexivity|].
  pose (posting := JObject [("title", JString "Designer");
                            ("company", JString "Canva");
                            ("link", JString "https://www.canva.com/careers")]).
  assert (Hparse : @safeJsonParse ReferencePlatform repeatedReply
                   = Returns (JObject [("jobs", JArray [posting; posting])]))
    by (vm_compute; reflexivity).
  destruct (@generateJobsWithGemini_keeps_every_posting ReferencePlatform
              (demoWorld "key" (Some (Some repeatedReply))) None demoQueries
              None false (GenerativeModel "key") repeatedReply
              (JObject [("jobs", JArray [posting; posting])])
              [posting; posting]
              eq_refl eq_refl Hparse eq_refl)
    as [[postings [Hrun [Hlen _]]] _].
  - discriminate.
  - intros [H|[H|[]]]; discriminate.
  - discriminate.
  - exists postings. split; [exact Hrun | exact Hlen].
Defined.

(** C4, as the specification states it, fails: the same raw posting twice gives two
    postings with the same company and the same link; and when the AI call
    fails, the same query twice gives fallback postings that coincide in
    company and link. *)
Lemma generateJobsWithGemini_duplicates_counterexample :
  (exists first second,
      fst (@generateJobsWithGemini ReferencePlatform
             (demoWorld "key" (Some (Some repeatedReply))) None demoQueries
             None false) = Returns [first; second]
      /\ JobPosting.company first = JobPosting.company second
      /\ JobPosting.url first = JobPosting.url second
      /\ JobPosting.company first = "Canva"
      /\ JobPosting.url first = "https://www.canva.com/careers")
  /\ (exists jobs first second,
        fst (@generateJobsWithGemini ReferencePlatform
               (demoWorld "key" None) None repeatedQueries (Some "Berlin")
               false) = Returns jobs
        /\ nth_error jobs 1 = Some first
        /\ nth_error jobs 5 = Some second
        /\ JobPosting.company first = JobPosting.company second
        /\ JobPosting.url first = JobPosting.url second).
Proof.
  split.
  - eexists. eexists. split; [vm_compute; reflexivity|].
    repeat split.
  - eexists. eexists. eexists. split; [vm_compute; reflexivity|].
    split; [reflexivity|]. split; [reflexivity|]. split; reflexivity.
Qed.

(** ** Posting ids *)

Section DecimalStrings.

Lemma string_of_uint_noDash (d : Decimal.uint) :
  noDash (NilEmpty.string_of_uint d).
Proof. induction d; simpl; auto; (split; [discriminate | assumption]). Qed.

Lemma decimal_noDash (n : nat) : noDash (decimal n).
Proof.
  unfold decimal, JS.numberToString.
  pose proof (Nat2Z.is_nonneg n) as Hn.
  destruct (Z.of_nat n) as [|p|p]; simpl.
  - split; [discriminate | exact I].
  - apply string_of_uint_noDash.
  - exfalso. now apply Hn.
Qed.

Lemma numberToString_inj (a b : Z) :
  JS.numberToString a = JS.numberToString b -> a = b.
Proof.
  unfold JS.numberToString. intros H.
  apply DecimalZ.to_int_inj.
  assert (Hs : Some (Z.to_int a) = Some (Z.to_int b)).
  { rewrite <- !NilEmpty.isi. now rewrite H. }
  now injection Hs.
Qed.

Lemma decimal_inj (a b : nat) : decimal a = decimal b -> a = b.
Proof. intros H. apply numberToString_inj in H. lia. Qed.

(** Two texts cut at their first hyphen. *)
Lemma cut_at_first_dash (a b x y : string) :
  noDash a -> noDash b ->
  a ++ String "-" x = b ++ String "-" y -> a = b /\ x = y.
Proof.
  revert b. induction a as [|c a IH]; intros [|d b] Ha Hb H; simpl in *.
  - injection H as ->. auto.
  - injection H as <- _. now destruct Hb.
  - injection H as -> _. now destruct Ha.
  - injection H as -> H. destruct Ha as [_ Ha], Hb as [_ Hb].
    destruct (IH b Ha Hb H) as [-> ->]. auto.
Qed.

Lemma noDash_append_dash (x a : string) : ~ noDash (x ++ String "-" a).
Proof.
  induction x as [|c x IH]; simpl; intros [H1 H2]; [congruence | auto].
Qed.

(** Two texts cut at their last hyphen. *)
Lemma cut_at_last_dash (a b x y : string) :
  noDash a -> noDash b ->
  x ++ String "-" a = y ++ String "-" b -> a = b.
Proof.
  revert y. induction x as [|c x IH]; intros [|d y] Ha Hb H; simpl in *.
  - now injection H.
  - injection H as _ H. subst a. now apply noDash_append_dash in Ha.
  - injection H as _ H. subst b. now apply noDash_append_dash in Hb.
  - injection H as _ H. eauto.
Qed.

End DecimalStrings.

Section Ids.

Context {P : Platform}.

Lemma fallbackJob_id now location remote query queryIndex offset job :
  fallbackJob now location remote query queryIndex offset = Returns job ->
  JobPosting.id job
  = "fallback-" ++ decimal queryIndex ++ "-" ++ decimal offset ++ "-"
      ++ JS.numberToString now.
Proof.
  unfold fallbackJob.
  destruct (providerAt _) as [p|]; simpl; [|discriminate].
  now intros [= <-].
Qed.

Lemma fallback_id_inj now q1 o1 q2 o2 :
  "fallback-" ++ decimal q1 ++ "-" ++ decimal o1 ++ "-" ++ JS.numberToString now
  = "fallback-" ++ decimal q2 ++ "-" ++ decimal o2 ++ "-" ++ JS.numberToString now ->
  q1 = q2 /\ o1 = o2.
Proof.
  intros H. simpl in H. injection H as H.
  apply cut_at_first_dash in H; try apply decimal_noDash.
  destruct H as [Hq H].
  apply cut_at_first_dash in H; try apply decimal_noDash.
  destruct H as [Ho _].
  split; now apply decimal_inj.
Qed.

Lemma generated_id_inj (t1 t2 : Z) (i j : nat) :
  "gemini-" ++ JS.numberToString t1 ++ "-" ++ decimal i
  = "gemini-" ++ JS.numberToString t2 ++ "-" ++ decimal j ->
  i = j.
Proof.
  intros H. simpl in H. injection H as H.
  apply cut_at_last_dash in H; try apply decimal_noDash.
  now apply decimal_inj.
Qed.

(** The ids of the fallback postings of the queries numbered from
    [start] on. *)
Lemma fallback_ids now location remote :
  forall queries start groups,
    mapWithIndex (fallbackJobsFor now location remote) start queries
    = Returns groups ->
    NoDup (map JobPosting.id (List.concat groups))
    /\ forall id, In id (map JobPosting.id (List.concat groups)) ->
         exists queryIndex offset,
           start <= queryIndex
           /\ id = "fallback-" ++ decimal queryIndex ++ "-" ++ decimal offset
                     ++ "-" ++ JS.numberToString now.
Proof.
  induction queries as [|q queries IH]; intros start groups H;
    cbn [mapWithIndex] in H.
  - injection H as <-. simpl. split; [constructor | intros id []].
  - destruct (fallbackJobsFor now location remote start q) as [group|] eqn:Eg;
      cbn [bindO] in H; [|discriminate].
    destruct (mapWithIndex _ (S start) queries) as [rest|] eqn:Er;
      cbn [bindO] in H; [|discriminate].
    injection H as <-.
    destruct (IH _ _ Er) as [Hnd Hin].
    assert (Hgroup : map JobPosting.id group
                     = map (fun offset =>
                              "fallback-" ++ decimal start ++ "-"
                                ++ decimal offset ++ "-"
                                ++ JS.numberToString now)
                           (seq 0 (List.length (repeat tt resultsPerQuery)))).
    { unfold fallbackJobsFor in Eg. eapply mapWithIndex_keys; [|exact Eg].
      intros off u job. apply fallbackJob_id. }
    cbn [List.concat]. rewrite map_app. split.
    + apply NoDup_app; [| exact Hnd |].
      * rewrite Hgroup. apply Finite.Injective_map_NoDup_in; [|apply seq_NoDup].
        intros x y _ _ Hxy. now apply fallback_id_inj in Hxy.
      * intros id Hid Hid'. rewrite Hgroup in Hid.
        apply in_map_iff in Hid. destruct Hid as [off [<- _]].
        destruct (Hin _ Hid') as [qi [off' [Hle Heq]]].
        apply fallback_id_inj in Heq. lia.
    + intros id Hid. apply in_app_or in Hid. destruct Hid as [Hid|Hid].
      * rewrite Hgroup in Hid. apply in_map_iff in Hid.
        destruct Hid as [off [<- _]]. exists start, off. auto.
      * destruct (Hin _ Hid) as [qi [off [Hle Heq]]].
        exists qi, off. split; [lia | exact Heq].
Qed.

Lemma buildFallbackJobs_ids_distinct now queries location remote jobs :
  buildFallbackJobs now queries location remote = Returns jobs ->
  NoDup (map JobPosting.id jobs).
Proof.
  unfold buildFallbackJobs, flatMapWithIndex.
  destruct (mapWithIndex _ 0 queries) as [groups|] eqn:E; cbn [bindO];
    [|discriminate].
  intros [= <-]. now destruct (fallback_ids _ _ _ _ _ _ E).
Qed.

Lemma stringProp_id_ownId (job : Json) (v : option string) (d : string) :
  stringProp job "id" = Returns v -> ownId job = None -> orDefault v d = d.
Proof.
  destruct job; unfold stringProp, ownId, orDefault; simpl;
    try (intros [= <-]; reflexivity); try discriminate.
  destruct (lookupField fields "id") as [[| | |s| |]|]; intros [= <-];
    try reflexivity.
  destruct (JS.truthy s); [discriminate | reflexivity].
Qed.

Lemma assemblePosting_id w queries location remote index job posting :
  ownId job = None ->
  assemblePosting w queries location remote index job = Returns posting ->
  JobPosting.id posting
  = "gemini-" ++ JS.numberToString (World.itemNow w index) ++ "-"
      ++ decimal index.
Proof.
  intros Hown. unfold assemblePosting.
  destruct (stringProp job "link"); cbn [bindO]; [|discriminate].
  destruct (stringProp job "location"); cbn [bindO]; [|discriminate].
  destruct (stringProp job "company"); cbn [bindO]; [|discriminate].
  destruct (stringProp job "source"); cbn [bindO]; [|discriminate].
  destruct (stringProp job "id") as [jobId|] eqn:Eid; cbn [bindO];
    [|discriminate].
  destruct (stringProp job "title"); cbn [bindO]; [|discriminate].
  destruct (stringProp job "salary"); cbn [bindO]; [|discriminate].
  destruct (stringProp job "description"); cbn [bindO]; [|discriminate].
  destruct (nth_error queries (index mod List.length queries));
    [|discriminate].
  match goal with
  | |- context [ensureCompanyLink ?a ?b ?c ?d ?e ?f ?g] =>
      destruct (ensureCompanyLink a b c d e f g) as [link|]; cbn [bindO];
        [|discriminate]
  end.
  intros [= <-]. cbn [JobPosting.id].
  now apply (stringProp_id_ownId job).
Qed.

(** [mapWithIndex] when the callback is only known on the members. *)
Lemma mapWithIndex_keys_in {A B K} (f : nat -> A -> Outcome B)
  (key : B -> K) (g : nat -> K) :
  forall l start ys,
    (forall i x y, In x l -> f i x = Returns y -> key y = g i) ->
    mapWithIndex f start l = Returns ys ->
    map key ys = map g (seq start (List.length l)).
Proof.
  induction l as [|x l IH]; intros start ys Hk H; simpl in H.
  - now injection H as <-.
  - destruct (f start x) as [y|] eqn:Ey; simpl in H; [|discriminate].
    destruct (mapWithIndex f (S start) l) as [ys'|] eqn:El; simpl in H;
      [|discriminate].
    injection H as <-. simpl. f_equal.
    + eapply Hk; [now left | exact Ey].
    + apply IH; [|exact El]. intros i a b Ha. apply Hk. now right.
Qed.

Lemma NoDup_map_filter {A K} (key : A -> K) (f : A -> bool) (l : list A) :
  NoDup (map key l) -> NoDup (map key (filter f l)).
Proof.
  induction l as [|x l IH]; simpl; [auto|].
  intros H. inversion H as [|? ? Hx Hl]; subst.
  destruct (f x); simpl; [|auto].
  constructor; [|auto].
  intros Hin. apply Hx. apply in_map_iff in Hin.
  destruct Hin as [y [Hy Hin]]. apply filter_In in Hin.
  apply in_map_iff. exists y. tauto.
Qed.

(** The ids the engine makes itself never collide: the ids of a returned
    batch are pairwise distinct whenever no raw posting of the AI reply
    brings an id of its own (a non-empty string [id]); this covers every
    fallback batch and every AI batch whose ids the engine generates. *)
Lemma generateJobsWithGemini_generated_ids_distinct
  (w : World.t) (cachedModel : option Model) (queries : list JobQuery.t)
  (location : option string) (remote : bool) (jobs : list JobPosting.t)
  (Hrun : fst (generateJobsWithGemini w cachedModel queries location remote)
          = Returns jobs)
  (Hown : forall text parsed raw job,
      World.aiReply w = Some (Some text) ->
      safeJsonParse text = Returns parsed ->
      jobsOf parsed = Returns raw ->
      In job raw -> ownId job = None) :
  NoDup (map JobPosting.id jobs).
Proof.
  unfold generateJobsWithGemini in Hrun.
  destruct (getModel w cachedModel) as [[m|msg] cached]; simpl in Hrun;
    [|discriminate].
  unfold tryCatch in Hrun.
  destruct (synthesise w queries location remote) as [l|] eqn:Es;
    [|eapply buildFallbackJobs_ids_distinct; eauto].
  injection Hrun as <-. unfold synthesise in Es.
  destruct (World.aiReply w) as [[text|]|] eqn:Ereply; simpl in Es;
    try discriminate.
  destruct (safeJsonParse text) as [parsed|] eqn:Eparse; simpl in Es;
    [|discriminate].
  destruct (jobsOf parsed) as [raw|] eqn:Ejobs; simpl in Es; [|discriminate].
  destruct raw as [|j raw]; [eapply buildFallbackJobs_ids_distinct; eauto|].
  destruct (mapWithIndex _ 0 (j :: raw)) as [postings|] eqn:Emap; simpl in Es;
    [|discriminate].
  injection Es as <-. apply NoDup_map_filter.
  rewrite (mapWithIndex_keys_in _ JobPosting.id
             (fun i => "gemini-" ++ JS.numberToString (World.itemNow w i) ++ "-"
                         ++ decimal i) _ _ _ 
             (fun i x y Hx Hy =>
                assemblePosting_id w queries location remote i x y
                  (Hown text parsed (j :: raw) x eq_refl Eparse Ejobs Hx) Hy)
             Emap).
  apply Finite.Injective_map_NoDup_in; [|apply seq_NoDup].
  intros x y _ _ Hxy. now apply generated_id_inj in Hxy.
Qed.

(** The id of an assembled posting: the raw posting's own id when it has
    one, and the generated id of its position otherwise. *)
Lemma orDefault_ownId (job : Json) (v : option string) (d : string) :
  stringProp job "id" = Returns v ->
  orDefault v d = match ownId job with Some own => own | None => d end.
Proof.
  destruct job; unfold stringProp, ownId, orDefault; simpl;
    try (intros [= <-]; reflexivity); try discriminate.
  destruct (lookupField fields "id") as [[| | |s| |]|]; intros [= <-];
    try reflexivity.
  destruct (JS.truthy s); reflexivity.
Qed.

Lemma assemblePosting_own_id w queries location remote index job posting :
  assemblePosting w queries location remote index job = Returns posting ->
  JobPosting.id posting
  = match ownId job with
    | Some own => own
    | None => "gemini-" ++ JS.numberToString (World.itemNow w index) ++ "-"
                ++ decimal index
    end.
Proof.
  unfold assemblePosting.
  destruct (stringProp job "link"); cbn [bindO]; [|discriminate].
  destruct (stringProp job "location"); cbn [bindO]; [|discriminate].
  destruct (stringProp job "company"); cbn [bindO]; [|discriminate].
  destruct (stringProp job "source"); cbn [bindO]; [|discriminate].
  destruct (stringProp job "id") as [jobId|] eqn:Eid; cbn [bindO];
    [|discriminate].
  destruct (stringProp job "title"); cbn [bindO]; [|discriminate].
  destruct (stringProp job "salary"); cbn [bindO]; [|discriminate].
  destruct (stringProp job "description"); cbn [bindO]; [|discriminate].
  destruct (nth_error queries (index mod List.length queries));
    [|discriminate].
  match goal with
  | |- context [ensureCompanyLink ?a ?b ?c ?d ?e ?f ?g] =>
      destruct (ensureCompanyLink a b c d e f g) as [link|]; cbn [bindO];
        [|discriminate]
  end.
  intros [= <-]. cbn [JobPosting.id].
  now apply orDefault_ownId.
Qed.

(** A usable reply is assembled position by position. *)
Lemma generateJobsWithGemini_positions w cachedModel queries location remote
  m text parsed raw :
  fst (getModel w cachedModel) = Returns m ->
  World.aiReply w = Some (Some text) ->
  safeJsonParse text = Returns parsed ->
  jobsOf parsed = Returns raw ->
  raw <> [] -> ~ In JNull raw -> queries <> [] ->
  exists jobs,
    fst (generateJobsWithGemini w cachedModel queries location remote)
    = Returns jobs
    /\ List.length jobs = List.length raw
    /\ forall k job,
         nth_error raw k = Some job ->
         exists posting,
           nth_error jobs k = Some posting
           /\ assemblePosting w queries location remote k job
              = Returns posting.
Proof.
  intros Hmodel Hreply Hparse Hjobs Hsome Hnonnull Hqueries.
  destruct (mapWithIndex_returns (assemblePosting w queries location remote)
              raw 0) as [postings Hmap].
  { intros k job Hin. apply assemblePosting_returns; [|exact Hqueries].
    intros ->. contradiction. }
  exists postings.
  assert (Hkeep : filter (fun job => JS.truthy (JobPosting.url job)) postings
                  = postings).
  { apply filter_keeps_all.
    eapply mapWithIndex_Forall; [|exact Hmap].
    intros k job posting Hp. cbv beta.
    apply (startsWith_truthy _ "https://" eq_refl).
    eapply assemblePosting_https; eauto. }
  split; [|split].
  - unfold generateJobsWithGemini.
    destruct (getModel w cachedModel) as [[m'|msg] cached]; simpl in Hmodel;
      [|discriminate].
    simpl. unfold synthesise. rewrite Hreply. simpl. rewrite Hparse. simpl.
    rewrite Hjobs. simpl.
    destruct raw as [|first rest]; [congruence|].
    rewrite Hmap. simpl. now rewrite Hkeep.
  - eapply mapWithIndex_length; eauto.
  - intros k job Hk.
    exact (mapWithIndex_nth _ _ _ _ Hmap k job Hk).
Qed.

(** C8: the engine does not keep the ids of a batch apart.  It takes a
    non-empty string id of a raw posting as it is and never compares it
    with the other ids: for a usable reply the posting at position [k] has
    the own id of the raw posting at [k] when there is one, and the
    generated id [gemini-<timestamp>-<k>] otherwise.  So whenever two raw
    postings at different positions carry the same id, the two postings
    made of them have that id and the ids of the returned batch are not
    pairwise distinct. *)
Theorem generateJobsWithGemini_ids_collide
  (w : World.t) (cachedModel : option Model) (queries : list JobQuery.t)
  (location : option string) (remote : bool)
  (m : Model) (text : string) (parsed : Json) (raw : list Json)
  (i j : nat) (a b : Json) (id : string)
  (Hmodel : fst (getModel w cachedModel) = Returns m)
  (Hreply : World.aiReply w = Some (Some text))
  (Hparse : safeJsonParse text = Returns parsed)
  (Hjobs : jobsOf parsed = Returns raw)
  (Hnonnull : ~ In JNull raw)
  (Hqueries : queries <> [])
  (Hi : nth_error raw i = Some a)
  (Hj : nth_error raw j = Some b)
  (Hij : i <> j)
  (Ha : ownId a = Some id)
  (Hb : ownId b = Some id) :
  exists jobs first second,
    fst (generateJobsWithGemini w cachedModel queries location remote)
    = Returns jobs
    /\ (forall k job posting,
           nth_error raw k = Some job ->
           nth_error jobs k = Some posting ->
           JobPosting.id posting
           = match ownId job with
             | Some own => own
             | None => "gemini-" ++ JS.numberToString (World.itemNow w k)
                         ++ "-" ++ decimal k
             end)
    /\ nth_error jobs i = Some first
    /\ nth_error jobs j = Some second
    /\ JobPosting.id first = id
    /\ JobPosting.id second = id
    /\ ~ NoDup (map JobPosting.id jobs).
Proof.
  assert (Hsome : raw <> []) by (intros ->; destruct i; discriminate).
  destruct (generateJobsWithGemini_positions w cachedModel queries location
              remote m text parsed raw Hmodel Hreply Hparse Hjobs Hsome
              Hnonnull Hqueries) as [jobs [Hrun [_ Hpos]]].
  assert (Hids : forall k job posting,
    nth_error raw k = Some job ->
    nth_error jobs k = Some posting ->
    JobPosting.id posting
    = match ownId job with
      | Some own => own
      | None => "gemini-" ++ JS.numberToString (World.itemNow w k)
                  ++ "-" ++ decimal k
      end).
  { intros k job posting Hk Hp.
    destruct (Hpos k job Hk) as [posting' [Hp' Hassembled]].
    rewrite Hp in Hp'. injection Hp' as <-.
    now apply assemblePosting_own_id in Hassembled. }
  destruct (Hpos i a Hi) as [first [Hfirst _]].
  destruct (Hpos j b Hj) as [second [Hsecond _]].
  pose proof (Hids i a first Hi Hfirst) as Hidf. rewrite Ha in Hidf.
  pose proof (Hids j b second Hj Hsecond) as Hids2. rewrite Hb in Hids2.
  exists jobs, first, second.
  split; [exact Hrun|]. split; [exact Hids|].
  split; [exact Hfirst|]. split; [exact Hsecond|].
  split; [exact Hidf|]. split; [exact Hids2|].
  intros Hnodup. apply Hij.
  apply (proj1 (NoDup_nth_error (map JobPosting.id jobs)) Hnodup).
  - rewrite length_map. apply nth_error_Some. congruence.
  - rewrite !nth_error_map, Hfirst, Hsecond. cbn. congruence.
Qed.

End Ids.

Lemma generateJobsWithGemini_ids_collide_witness :
  exists jobs first second,
    fst (@generateJobsWithGemini ReferencePlatform
           (demoWorld "key" (Some (Some sameIdReply))) None demoQueries
           None false) = Returns jobs
    /\ nth_error jobs 0 = Some first
    /\ nth_error jobs 1 = Some second
    /\ JobPosting.id first = "job-1"
    /\ JobPosting.id second = "job-1"
    /\ ~ NoDup (map JobPosting.id jobs).
Proof.
  pose (designer := JObject [("id", JString "job-1");
                             ("title", JString "Designer");
                             ("company", JString "Canva");
                             ("link", JString "https://www.canva.com/careers")]).
  pose (engineer := JObject [("id", JString "job-1");
                             ("title", JString "Engineer");
                             ("company", JString "Figma");
                             ("link", JString "https://www.figma.com/careers")]).
  assert (Hparse : @safeJsonParse ReferencePlatform sameIdReply
                   = Returns (JObject [("jobs", JArray [designer; engineer])]))
    by (vm_compute; reflexivity).
  destruct (@generateJobsWithGemini_ids_collide ReferencePlatform
              (demoWorld "key" (Some (Some sameIdReply))) None demoQueries
              None false (GenerativeModel "key") sameIdReply
              (JObject [("jobs", JArray [designer; engineer])])
              [designer; engineer] 0 1 designer engineer "job-1"
              eq_refl eq_refl Hparse eq_refl)
    as [jobs [first [second [Hrun [_ H]]]]].
  - intros [H|[H|[]]]; discriminate.
  - discriminate.
  - reflexivity.
  - reflexivity.
  - discriminate.
  - reflexivity.
  - reflexivity.
  - exists jobs, first, second. split; [exact Hrun | exact H].
Defined.

(** * Further properties of the code *)

(** ** The rolling hash *)

Section Hash.

Lemma toInt32_range (z : Z) :
  (-2147483648 <= JS.toInt32 z < 2147483648)%Z.
Proof.
  unfold JS.toInt32.
  pose proof (Z.mod_pos_bound (z + 2147483648) 4294967296 eq_refl). lia.
Qed.

Lemma toInt32_congruent (a b : Z) :
  (a mod 4294967296 = b mod 4294967296)%Z -> JS.toInt32 a = JS.toInt32 b.
Proof.
  intros H. unfold JS.toInt32. f_equal.
  rewrite (Z.add_mod a), (Z.add_mod b) by lia. now rewrite H.
Qed.

Lemma toInt32_mod (z : Z) :
  (JS.toInt32 z mod 4294967296 = z mod 4294967296)%Z.
Proof.
  unfold JS.toInt32.
  replace ((z + 2147483648) mod 4294967296 - 2147483648)%Z
    with ((z + 2147483648) mod 4294967296 + (-2147483648))%Z by lia.
  rewrite Z.add_mod_idemp_l by lia. f_equal. lia.
Qed.

Lemma hashStep_times_31 (hash : Z) (c : ascii) :
  hashStep hash c = JS.toInt32 (31 * hash + Z.of_N (JS.code c)).
Proof.
  unfold hashStep. apply toInt32_congruent.
  rewrite Z.shiftl_mul_pow2 by lia.
  replace (JS.toInt32 (hash * 2 ^ 5) - hash + Z.of_N (JS.code c))%Z
    with (JS.toInt32 (hash * 2 ^ 5) + (Z.of_N (JS.code c) - hash))%Z by lia.
  rewrite <- Z.add_mod_idemp_l by lia. rewrite toInt32_mod.
  rewrite Z.add_mod_idemp_l by lia. f_equal. lia.
Qed.

Lemma hashFrom_append (hash : Z) (a b : string) :
  hashFrom hash (a ++ b) = hashFrom (hashFrom hash a) b.
Proof. revert hash. induction a as [|c a IH]; intros hash; simpl; auto. Qed.

Lemma hashFrom_range (hash : Z) (value : string) :
  (-2147483648 <= hash < 2147483648)%Z ->
  (-2147483648 <= hashFrom hash value < 2147483648)%Z.
Proof.
  revert hash. induction value as [|c r IH]; intros hash H; simpl; [exact H|].
  apply IH. apply toInt32_range.
Qed.

(** X1: the hash of any string is a signed 32-bit integer, so its absolute
    value, the seed of every selection, lies between 0 and 2^31. *)
Theorem hashString_int32 (value : string) :
  (-2147483648 <= hashString value < 2147483648)%Z
  /\ (0 <= Z.abs (hashString value) <= 2147483648)%Z.
Proof.
  assert (H : (-2147483648 <= hashString value < 2147483648)%Z)
    by (apply hashFrom_range; lia).
  split; [exact H | lia].
Qed.

(** X2: the shift-and-subtract loop computes the polynomial hash with
    multiplier 31, reduced to 32 bits at each step: appending one unit [c]
    to [s] turns the hash [h] into [31 * h + c] wrapped to int32, and the
    hash of a concatenation continues the loop from the hash of its first
    part. *)
Theorem hashString_polynomial (s t : string) (c : ascii) :
  hashString "" = 0%Z
  /\ hashString (s ++ String c "")
     = JS.toInt32 (31 * hashString s + Z.of_N (JS.code c))
  /\ hashString (s ++ t) = hashFrom (hashString s) t.
Proof.
  split; [reflexivity|]. split.
  - unfold hashString. rewrite hashFrom_append. simpl.
    apply hashStep_times_31.
  - apply hashFrom_append.
Qed.

End Hash.

(** ** Slugs *)

Section Slugs.

Lemma truthy_true_ne (s : string) : JS.truthy s = true -> s <> "".
Proof. intros H ->. discriminate. Qed.

Lemma lowerChar_slug_unit (c : ascii) :
  isSlugUnit c = true -> JS.lowerChar c = c.
Proof.
  destruct c as [[|] [|] [|] [|] [|] [|] [|] [|]]; vm_compute; congruence.
Qed.

Lemma keepLowerAlnum_units (s : string) :
  everyUnit isSlugUnit (keepLowerAlnum s) = true.
Proof.
  induction s as [|c r IH]; simpl; [reflexivity|].
  fold (isSlugUnit c). destruct (isSlugUnit c) eqn:E; simpl; [|exact IH].
  now rewrite E.
Qed.

Lemma keepLowerAlnum_fixed (s : string) :
  everyUnit isSlugUnit s = true ->
  keepLowerAlnum s = s /\ JS.toLowerCase s = s.
Proof.
  induction s as [|c r IH]; simpl; [auto|].
  intros H. apply andb_prop in H. destruct H as [Hc Hr].
  destruct (IH Hr) as [Hk Hl]. fold (isSlugUnit c). rewrite Hc, Hk, Hl.
  now rewrite (lowerChar_slug_unit c Hc).
Qed.

Lemma toLowerCase_append (a b : string) :
  JS.toLowerCase (a ++ b) = JS.toLowerCase a ++ JS.toLowerCase b.
Proof. induction a as [|c a IH]; simpl; [reflexivity | now rewrite IH]. Qed.

Lemma keepLowerAlnum_append (a b : string) :
  keepLowerAlnum (a ++ b) = keepLowerAlnum a ++ keepLowerAlnum b.
Proof.
  induction a as [|c a IH]; simpl; [reflexivity|].
  destruct (JS.isLowerAZ c || JS.isDigit c)%bool; simpl; now rewrite IH.
Qed.

(** X3: a slug consists of lower-case ASCII letters and digits only;
    slugifying a slug changes nothing; and the slug of a concatenation is
    the concatenation of the slugs. *)
Theorem slugify_normal_form (value other : string) :
  everyUnit isSlugUnit (slugify value) = true
  /\ slugify (slugify value) = slugify value
  /\ slugify (value ++ other) = slugify value ++ slugify other.
Proof.
  unfold slugify. split; [apply keepLowerAlnum_units|]. split.
  - destruct (keepLowerAlnum_fixed _ (keepLowerAlnum_units (JS.toLowerCase value)))
      as [Hk Hl].
    now rewrite Hl, Hk.
  - now rewrite toLowerCase_append, keepLowerAlnum_append.
Qed.

End Slugs.

(** ** Trimming and case *)

Section TrimAndCase.

Lemma lowerChar_whitespace (c : ascii) :
  JS.isWhitespace (JS.lowerChar c) = JS.isWhitespace c.
Proof.
  destruct c as [[|] [|] [|] [|] [|] [|] [|] [|]]; vm_compute; reflexivity.
Qed.

Lemma lowerChar_idempotent (c : ascii) :
  JS.lowerChar (JS.lowerChar c) = JS.lowerChar c.
Proof.
  destruct c as [[|] [|] [|] [|] [|] [|] [|] [|]]; vm_compute; reflexivity.
Qed.

Lemma toLowerCase_idempotent (s : string) :
  JS.toLowerCase (JS.toLowerCase s) = JS.toLowerCase s.
Proof.
  induction s as [|c r IH]; simpl; [reflexivity|].
  now rewrite lowerChar_idempotent, IH.
Qed.

Lemma toLowerCase_empty (s : string) :
  String.eqb (JS.toLowerCase s) "" = String.eqb s "".
Proof. destruct s; reflexivity. Qed.

Lemma trimStart_toLowerCase (s : string) :
  JS.trimStart (JS.toLowerCase s) = JS.toLowerCase (JS.trimStart s).
Proof.
  induction s as [|c r IH]; simpl; [reflexivity|].
  rewrite lowerChar_whitespace. destruct (JS.isWhitespace c); [exact IH | reflexivity].
Qed.

Lemma trimEnd_toLowerCase (s : string) :
  JS.trimEnd (JS.toLowerCase s) = JS.toLowerCase (JS.trimEnd s).
Proof.
  induction s as [|c r IH]; simpl; [reflexivity|].
  rewrite lowerChar_whitespace, IH, toLowerCase_empty.
  destruct (JS.isWhitespace c && String.eqb (JS.trimEnd r) "")%bool; reflexivity.
Qed.

Lemma trim_toLowerCase (s : string) :
  JS.trim (JS.toLowerCase s) = JS.toLowerCase (JS.trim s).
Proof. unfold JS.trim. now rewrite trimStart_toLowerCase, trimEnd_toLowerCase. Qed.

Lemma trimEnd_idempotent (s : string) : JS.trimEnd (JS.trimEnd s) = JS.trimEnd s.
Proof.
  induction s as [|c r IH]; simpl; [reflexivity|].
  destruct (JS.isWhitespace c && String.eqb (JS.trimEnd r) "")%bool eqn:E;
    [reflexivity|].
  simpl. now rewrite IH, E.
Qed.

(** A text that does not begin with white space. *)
Lemma trimStart_fixed_cases (s : string) :
  JS.trimStart s = ""
  \/ exists c r, JS.trimStart s = String c r /\ JS.isWhitespace c = false.
Proof.
  induction s as [|c r IH]; simpl; [now left|].
  destruct (JS.isWhitespace c) eqn:E; [exact IH|]. right. eauto.
Qed.

Lemma trimStart_trimEnd (t : string) :
  (t = "" \/ exists c r, t = String c r /\ JS.isWhitespace c = false) ->
  JS.trimStart (JS.trimEnd t) = JS.trimEnd t.
Proof.
  intros [->|[c [r [-> Hc]]]]; [reflexivity|].
  simpl. rewrite Hc. simpl. now rewrite Hc.
Qed.

Lemma trim_idempotent (s : string) : JS.trim (JS.trim s) = JS.trim s.
Proof.
  unfold JS.trim.
  rewrite (trimStart_trimEnd _ (trimStart_fixed_cases s)).
  apply trimEnd_idempotent.
Qed.

End TrimAndCase.

(** ** The generic-name test *)

Lemma isGenericCompanyName_trim (name : string) :
  isGenericCompanyName (JS.trim name) = isGenericCompanyName name.
Proof. unfold isGenericCompanyName. now rewrite trim_idempotent. Qed.

(** X4: the generic-name test looks at the trimmed, lower-cased name only:
    trimming or lower-casing the argument first does not change the
    verdict; and a name whose trimmed, lower-cased form contains one of
    the listed vague phrases anywhere is always generic. *)
Theorem isGenericCompanyName_normalised (name phrase : string) :
  isGenericCompanyName (JS.trim name) = isGenericCompanyName name
  /\ isGenericCompanyName (JS.toLowerCase name) = isGenericCompanyName name
  /\ (In phrase GENERIC_PHRASES ->
      JS.includes (JS.toLowerCase (JS.trim name)) phrase = true ->
      isGenericCompanyName name = true).
Proof.
  split; [|split].
  - apply isGenericCompanyName_trim.
  - unfold isGenericCompanyName.
    now rewrite trim_toLowerCase, toLowerCase_idempotent.
  - intros Hin Hinc. unfold isGenericCompanyName.
    destruct (negb _); [reflexivity|].
    destruct (Nat.leb _ 2); [reflexivity|].
    assert (Hex : existsb
                    (fun p => JS.includes (JS.toLowerCase (JS.trim name)) p)
                    GENERIC_PHRASES = true).
    { apply existsb_exists. exists phrase. split; assumption. }
    now rewrite Hex.
Qed.

Lemma isGenericCompanyName_normalised_witness :
  In "top employer" GENERIC_PHRASES
  /\ JS.includes (JS.toLowerCase (JS.trim "  A Top Employer in Berlin "))
                 "top employer" = true
  /\ isGenericCompanyName "  A Top Employer in Berlin " = true.
Proof.
  assert (Hin : In "top employer" GENERIC_PHRASES)
    by (vm_compute; tauto).
  assert (Hinc : JS.includes
                   (JS.toLowerCase (JS.trim "  A Top Employer in Berlin "))
                   "top employer" = true) by (vm_compute; reflexivity).
  split; [exact Hin|]. split; [exact Hinc|].
  exact (proj2 (proj2 (isGenericCompanyName_normalised
                         "  A Top Employer in Berlin " "top employer"))
               Hin Hinc).
Defined.

(** ** Title case *)

Section TitleCase.

Lemma everyUnit_append (p : ascii -> bool) (a b : string) :
  everyUnit p (a ++ b) = (everyUnit p a && everyUnit p b)%bool.
Proof.
  induction a as [|c a IH]; simpl; [reflexivity|].
  now rewrite IH, andb_assoc.
Qed.

Lemma everyUnit_substring (p : ascii -> bool) (s : string) :
  everyUnit p s = true -> forall n m, everyUnit p (substring n m s) = true.
Proof.
  induction s as [|c r IH]; intros H n m.
  - destruct n, m; reflexivity.
  - simpl in H. apply andb_prop in H. destruct H as [Hc Hr].
    destruct n as [|n]; [destruct m as [|m]|]; simpl; auto.
    now rewrite Hc, IH.
Qed.

Lemma everyUnit_weaken (p q : ascii -> bool) (s : string) :
  (forall c, p c = true -> q c = true) ->
  everyUnit p s = true -> everyUnit q s = true.
Proof.
  intros Hpq. induction s as [|c r IH]; simpl; [auto|].
  intros H. apply andb_prop in H. destruct H as [Hc Hr].
  now rewrite (Hpq _ Hc), IH.
Qed.

Lemma splitRunsAux_segments (s cur : string) (inRun : bool) :
  everyUnit notSlugSeparator cur = true ->
  Forall (fun seg => everyUnit notSlugSeparator seg = true)
         (JS.splitRunsAux isSlugSeparator s cur inRun).
Proof.
  revert cur inRun. induction s as [|c r IH]; intros cur inRun Hcur; simpl.
  - constructor; [exact Hcur | constructor].
  - destruct (isSlugSeparator c) eqn:Ec.
    + destruct inRun; [now apply IH|].
      constructor; [exact Hcur | now apply IH].
    + apply IH. rewrite everyUnit_append, Hcur. simpl.
      unfold notSlugSeparator. now rewrite Ec.
Qed.

Lemma upperChar_units (c : ascii) :
  isSlugSeparator c = false ->
  everyUnit notSlugSeparator (JS.upperChar c) = true.
Proof.
  destruct c as [[|] [|] [|] [|] [|] [|] [|] [|]]; vm_compute;
    congruence.
Qed.

Lemma capitalise_units (segment : string) :
  everyUnit notSlugSeparator segment = true ->
  everyUnit notSlugSeparator (capitalise segment) = true.
Proof.
  intros H. destruct segment as [|c r]; [reflexivity|].
  unfold capitalise, JS.sliceFrom. rewrite everyUnit_append.
  rewrite (everyUnit_substring _ _ H).
  simpl in H. apply andb_prop in H. destruct H as [Hc _].
  unfold notSlugSeparator in Hc. apply negb_true_iff in Hc.
  now rewrite (upperChar_units c Hc).
Qed.

Lemma join_space_units (words : list string) :
  Forall (fun w => everyUnit notSlugSeparator w = true) words ->
  everyUnit isTitleUnit (JS.join " " words) = true.
Proof.
  assert (Hweak : forall w, everyUnit notSlugSeparator w = true ->
                            everyUnit isTitleUnit w = true).
  { intros w. apply everyUnit_weaken. intros c Hc.
    unfold isTitleUnit. unfold notSlugSeparator in Hc. now rewrite Hc. }
  unfold JS.join. induction 1 as [|w ws Hw Hws IH]; [reflexivity|].
  destruct ws as [|w' ws']; simpl.
  - now apply Hweak.
  - rewrite everyUnit_append. rewrite (Hweak _ Hw). simpl.
    exact IH.
Qed.

Lemma toTitleCase_units (slug : string) :
  everyUnit isTitleUnit (toTitleCase slug) = true.
Proof.
  unfold toTitleCase. apply join_space_units.
  apply Forall_forall. intros w Hw. apply in_map_iff in Hw.
  destruct Hw as [seg [<- Hseg]]. apply filter_In in Hseg.
  destruct Hseg as [Hseg _]. apply capitalise_units.
  pose proof (splitRunsAux_segments slug "" false eq_refl) as Hall.
  rewrite Forall_forall in Hall. now apply Hall.
Qed.

Lemma capitalise_nonempty (segment : string) :
  segment <> "" -> capitalise segment <> "".
Proof.
  destruct segment as [|c r]; [congruence|]. intros _. unfold capitalise.
  unfold JS.upperChar.
  destruct (JS.isLowerAZ c || _)%bool; [discriminate|].
  destruct (N.eqb (JS.code c) 223); discriminate.
Qed.

(** The words of the title: non-empty and free of separators. *)
Lemma toTitleCase_words (slug : string) :
  Forall (fun word => word <> ""
                      /\ everyUnit notSlugSeparator word = true)
    (map capitalise (filter JS.truthy (JS.splitRuns isSlugSeparator slug))).
Proof.
  apply Forall_forall. intros word Hw. apply in_map_iff in Hw.
  destruct Hw as [seg [<- Hseg]]. apply filter_In in Hseg.
  destruct Hseg as [Hseg Htruthy]. split.
  - apply capitalise_nonempty. now apply truthy_true_ne.
  - apply capitalise_units.
    pose proof (splitRunsAux_segments slug "" false eq_refl) as Hall.
    rewrite Forall_forall in Hall. now apply Hall.
Qed.

(** X5: title-casing returns words joined by one plain space each: every
    word is non-empty and holds no hyphen, underscore or white space.  So
    the result holds no hyphen, no underscore and no white space other than
    the single plain space between two words, and none at its start or at
    its end. *)
Theorem toTitleCase_no_separator (slug : string) :
  (exists words,
      toTitleCase slug = JS.join " " words
      /\ Forall (fun word => word <> ""
                             /\ everyUnit notSlugSeparator word = true)
           words)
  /\ everyUnit isTitleUnit (toTitleCase slug) = true
  /\ JS.includes (toTitleCase slug) "-" = false
  /\ JS.includes (toTitleCase slug) "_" = false.
Proof.
  split.
  { eexists. split; [reflexivity | apply toTitleCase_words]. }
  pose proof (toTitleCase_units slug) as H.
  split; [exact H|].
  assert (Hnone : forall c s,
             isTitleUnit c = false -> everyUnit isTitleUnit s = true ->
             JS.includes s (String c "") = false).
  { intros c s Hc. induction s as [|a r IH]; simpl; [reflexivity|].
    intros Hs. apply andb_prop in Hs. destruct Hs as [Ha Hr].
    destruct (ascii_dec c a) as [->|Hne]; [congruence|].
    destruct r; now apply IH. }
  split; apply Hnone; auto.
Qed.

End TitleCase.

(** ** Names derived from links and sampled from the tables *)

Section DerivedNames.

Lemma runSteps_result (Q : string -> Prop) (steps : list Step) (d : string) :
  Forall (fun step => forall r, step = Return (Some r) -> Q r) steps ->
  runSteps steps = Some d -> Q d.
Proof.
  induction 1 as [|step rest Hstep _ IH]; simpl; [discriminate|].
  destruct step as [result|]; [|exact IH].
  intros ->. now apply Hstep.
Qed.

Lemma whenHost_result (Q : string -> Prop) host domain body :
  (forall r, body = Return (Some r) -> Q r) ->
  forall r, whenHost host domain body = Return (Some r) -> Q r.
Proof. unfold whenHost. destruct (JS.includes host domain); [auto | discriminate]. Qed.

Lemma titleOfSegment_units segment r :
  titleOfSegment segment = Some r -> everyUnit isTitleUnit r = true.
Proof.
  unfold titleOfSegment. destruct segment as [seg|]; [|discriminate].
  destruct (JS.truthy seg); [|discriminate].
  intros [= <-]. apply toTitleCase_units.
Qed.

Lemma returnTitle_units segment r :
  returnTitle segment = Return (Some r) -> everyUnit isTitleUnit r = true.
Proof.
  unfold returnTitle. destruct (titleOfSegment segment) eqn:E; [|discriminate].
  intros [= <-]. now apply titleOfSegment_units in E.
Qed.

Lemma deriveCompanyFromUrl_units (url : URL.t) (d : string) :
  deriveCompanyFromUrl url = Some d -> everyUnit isTitleUnit d = true.
Proof.
  unfold deriveCompanyFromUrl. cbv zeta.
  apply (runSteps_result (fun r => everyUnit isTitleUnit r = true)).
  repeat (apply Forall_cons; [|]); try apply Forall_nil;
    try (apply whenHost_result).
  - intros r [= H]. now apply titleOfSegment_units in H.
  - intros r [= H]. now apply titleOfSegment_units in H.
  - intros r [= H]. now apply titleOfSegment_units in H.
  - intros r. destruct (nth_error _ 0) as [sd|]; [|discriminate].
    destruct (_ && _)%bool; [|discriminate].
    intros [= <-]. apply toTitleCase_units.
  - intros r [= H]. now apply titleOfSegment_units in H.
  - intros r [= H]. now apply titleOfSegment_units in H.
  - intros r. destruct (findIndex _ _); [|discriminate]. apply returnTitle_units.
  - intros r. apply returnTitle_units.
  - intros r. destruct (_ || _)%bool; discriminate.
  - intros r. destruct (if Nat.ltb 2 _ then _ else _) as [root|]; [|discriminate].
    destruct (existsb _ BLOCKED_ROOTS); [discriminate|].
    destruct (JS.truthy root); [|discriminate].
    intros [= <-]. apply toTitleCase_units.
Qed.

Context {P : Platform}.

(** X6: whatever the URL constructor makes of a link, a company name
    derived from it is title-cased: it holds no hyphen, underscore or white
    space other than the plain space between words; and a link the
    constructor rejects yields no name at all. *)
Theorem deriveCompanyFromLink_title_cased (link : string) :
  (forall derived,
      deriveCompanyFromLink link = Some derived ->
      everyUnit isTitleUnit derived = true)
  /\ ((exists msg, URL_new link = Throws msg) ->
      deriveCompanyFromLink link = None).
Proof.
  unfold deriveCompanyFromLink. split.
  - intros derived. destruct (URL_new link); [|discriminate].
    apply deriveCompanyFromUrl_units.
  - intros [msg ->]. reflexivity.
Qed.

End DerivedNames.

Section SampledNames.

Lemma sample_companies_nonempty :
  forallb JS.truthy SAMPLE_COMPANIES = true.
Proof. vm_compute. reflexivity. Qed.

Lemma pickSampleCompany_nonempty (query : JobQuery.t) (index : nat) :
  pickSampleCompany query index <> "".
Proof.
  pose proof sample_companies_nonempty as H. rewrite forallb_forall in H.
  apply truthy_true_ne. apply H. apply pickSampleCompany_in_tables.
Qed.

(** X7: bucket sampling always lands inside a table: the sampled name is
    one of the listed companies, it is not empty, and the generic-name
    test accepts it; the [undefined] that an out-of-range index would give
    never occurs. *)
Theorem pickSampleCompany_specific (query : JobQuery.t) (index : nat) :
  In (pickSampleCompany query index) SAMPLE_COMPANIES
  /\ pickSampleCompany query index <> ""
  /\ isGenericCompanyName (pickSampleCompany query index) = false.
Proof.
  pose proof (pickSampleCompany_in_tables query index) as Hin.
  split; [exact Hin|]. split.
  - apply pickSampleCompany_nonempty.
  - apply pickSampleCompany_not_generic.
Qed.

(** X8: for a fixed query the sampled company depends on the index only
    modulo the size of the table the query selects: there is a table of
    at least five pairwise distinct names such that every index picks from
    it and indices that differ by the table size pick the same name. *)
Theorem pickSampleCompany_cycles (query : JobQuery.t) :
  exists table,
    5 <= List.length table /\ NoDup table
    /\ forall index,
         In (pickSampleCompany query index) table
         /\ pickSampleCompany query (index + List.length table)
            = pickSampleCompany query index.
Proof.
  destruct (pickSampleCompany_table query) as [table [a [Hlen [Hnd [Ha Hpick]]]]].
  exists table. split; [exact Hlen|]. split; [exact Hnd|].
  intros index. split.
  - rewrite Hpick. apply companyAt_In. apply Z.rem_bound_pos; lia.
  - rewrite !Hpick. f_equal.
    rewrite !Z.rem_mod_nonneg by lia.
    rewrite Nat2Z.inj_add.
    replace (a + (Z.of_nat index + Z.of_nat (List.length table)))%Z
      with (a + Z.of_nat index + 1 * Z.of_nat (List.length table))%Z by lia.
    apply Z.mod_add. lia.
Qed.

End SampledNames.

(** ** Company normalisation *)

Section Normalisation.

Context {P : Platform}.

Lemma normaliseCompanyName_without_raw link query index :
  normaliseCompanyName None link query index <> "".
Proof.
  unfold normaliseCompanyName. simpl.
  destruct (deriveCompanyFromLink link) as [d|].
  - destruct (JS.truthy d) eqn:E; [now apply truthy_true_ne|].
    apply pickSampleCompany_nonempty.
  - apply pickSampleCompany_nonempty.
Qed.

Lemma normaliseCompanyName_nonempty rawCompany link query index :
  normaliseCompanyName rawCompany link query index <> "".
Proof.
  destruct rawCompany as [raw|]; [|apply normaliseCompanyName_without_raw].
  pose proof (normaliseCompanyName_without_raw link query index) as Hnone.
  unfold normaliseCompanyName in *. simpl in *.
  destruct (JS.truthy (JS.trim raw) && negb (isGenericCompanyName (JS.trim raw)))%bool
    eqn:E; [|exact Hnone].
  apply andb_prop in E. destruct E as [E _]. now apply truthy_true_ne.
Qed.

(** X9: company normalisation never yields the empty string.  The name the
    AI supplied is kept, trimmed, exactly when it is not blank and the
    generic-name test accepts it, whatever the link, the query and the
    index are; in every other case the result is what normalisation gives
    without any supplied name. *)
Theorem normaliseCompanyName_tiers (rawCompany : option string) (link : string)
  (query : JobQuery.t) (index : nat) :
  normaliseCompanyName rawCompany link query index <> ""
  /\ (forall raw,
         rawCompany = Some raw -> JS.trim raw <> "" ->
         isGenericCompanyName raw = false ->
         normaliseCompanyName rawCompany link query index = JS.trim raw)
  /\ ((rawCompany = None
       \/ exists raw, rawCompany = Some raw
                      /\ (JS.trim raw = "" \/ isGenericCompanyName raw = true)) ->
      normaliseCompanyName rawCompany link query index
      = normaliseCompanyName None link query index).
Proof.
  split; [|split].
  - apply normaliseCompanyName_nonempty.
  - intros raw -> Hblank Hgen. unfold normaliseCompanyName. simpl.
    rewrite isGenericCompanyName_trim, Hgen.
    destruct (JS.truthy (JS.trim raw)) eqn:E; [reflexivity|].
    apply truthy_false in E. contradiction.
  - intros [->|[raw [-> H]]]; [reflexivity|].
    unfold normaliseCompanyName. simpl.
    rewrite isGenericCompanyName_trim.
    destruct H as [H|H]; rewrite H; [reflexivity|].
    now rewrite andb_false_r.
Qed.

End Normalisation.

Lemma normaliseCompanyName_tiers_witness :
  JS.trim "  Canva " <> ""
  /\ isGenericCompanyName "  Canva " = false
  /\ @normaliseCompanyName ReferencePlatform (Some "  Canva ")
       "https://boards.greenhouse.io/acme/jobs/123"
       (JobQuery.mk "Designer" "product designer") 3 = "Canva".
Proof.
  assert (Hblank : JS.trim "  Canva " <> "") by (vm_compute; discriminate).
  assert (Hgen : isGenericCompanyName "  Canva " = false)
    by (vm_compute; reflexivity).
  split; [exact Hblank|]. split; [exact Hgen|].
  exact (proj1 (proj2 (@normaliseCompanyName_tiers ReferencePlatform
                         (Some "  Canva ")
                         "https://boards.greenhouse.io/acme/jobs/123"
                         (JobQuery.mk "Designer" "product designer") 3))
               "  Canva " eq_refl Hblank Hgen).
Defined.

(** ** Recognising a provider by its host *)

Section ProviderHosts.

(** X10: host recognition is a case-insensitive substring test against the
    providers' hosts: a provider is found exactly when the lower-cased
    hostname contains one of the aggregator hosts; the provider found is an
    entry of the table one of whose hosts the hostname contains; and
    lower-casing the hostname beforehand changes nothing. *)
Theorem findProviderForHost_spec (hostname : string) :
  (findProviderForHost hostname = None <->
   forall host, In host AGGREGATOR_HOSTS ->
                JS.includes (JS.toLowerCase hostname) host = false)
  /\ (forall provider,
         findProviderForHost hostname = Some provider ->
         In provider SEARCH_PROVIDERS
         /\ exists host,
              In host (SearchProvider.hosts provider)
              /\ JS.includes (JS.toLowerCase hostname) host = true)
  /\ findProviderForHost (JS.toLowerCase hostname) = findProviderForHost hostname.
Proof.
  split; [|split].
  - unfold findProviderForHost, AGGREGATOR_HOSTS. split.
    + intros Hnone host Hin. apply in_flat_map in Hin.
      destruct Hin as [p [Hp Hhost]].
      pose proof (find_none _ _ Hnone p Hp) as Hf. cbv beta in Hf.
      destruct (JS.includes (JS.toLowerCase hostname) host) eqn:E; [|reflexivity].
      assert (Hex : existsb (fun h => JS.includes (JS.toLowerCase hostname) h)
                            (SearchProvider.hosts p) = true)
        by (apply existsb_exists; eauto).
      congruence.
    + intros Hall.
      destruct (find _ SEARCH_PROVIDERS) as [p|] eqn:E; [|reflexivity].
      apply find_some in E. destruct E as [Hp Hex].
      apply existsb_exists in Hex. destruct Hex as [host [Hhost Hinc]].
      rewrite Hall in Hinc; [discriminate|].
      apply in_flat_map. eauto.
  - intros provider H. unfold findProviderForHost in H.
    apply find_some in H. destruct H as [Hp Hex].
    split; [exact Hp|]. now apply existsb_exists in Hex.
  - unfold findProviderForHost. now rewrite toLowerCase_idempotent.
Qed.

(** X11: what the five URL builders have in common.  With the remote flag
    set the location preference is ignored; a blank location is treated
    like a missing one and any other location enters trimmed; and an empty
    company is treated like a missing one. *)
Theorem provider_url_preferences (provider : SearchProvider.t)
  (query : JobQuery.t) (company : option string) (location : string)
  (remote : bool)
  (Hprovider : In provider SEARCH_PROVIDERS) :
  SearchProvider.buildUrl provider query company (Some location) true
  = SearchProvider.buildUrl provider query company None true
  /\ (JS.trim location = "" ->
      SearchProvider.buildUrl provider query company (Some location) remote
      = SearchProvider.buildUrl provider query company None remote)
  /\ SearchProvider.buildUrl provider query company (Some location) remote
     = SearchProvider.buildUrl provider query company (Some (JS.trim location))
                               remote
  /\ SearchProvider.buildUrl provider query (Some "") (Some location) remote
     = SearchProvider.buildUrl provider query None (Some location) remote.
Proof.
  assert (Htrim : trimmedLocation (Some (JS.trim location))
                  = trimmedLocation (Some location))
    by (unfold trimmedLocation; now rewrite trim_idempotent).
  assert (Hblank : JS.trim location = "" ->
                   trimmedLocation (Some location) = trimmedLocation None)
    by (intros H; unfold trimmedLocation; now rewrite H).
  repeat (destruct Hprovider as [<-|Hprovider];
          [ cbn [SearchProvider.buildUrl];
            unfold linkedInUrl, jobStreetUrl, glassdoorUrl, prospleUrl,
              indeedUrl, setLocation;
            split; [|split; [|split]];
            [ destruct (trimmedLocation (Some location)); reflexivity
            | intros H; now rewrite (Hblank H)
            | now rewrite Htrim
            | reflexivity ]
          | ]).
  destruct Hprovider.
Qed.

Lemma provider_url_preferences_witness :
  SearchProvider.buildUrl
    (SearchProvider.mk "Indeed search" ["indeed.com"] indeedUrl)
    (JobQuery.mk "Designer" "product designer") (Some "Canva")
    (Some " Berlin ") false
  = SearchProvider.buildUrl
      (SearchProvider.mk "Indeed search" ["indeed.com"] indeedUrl)
      (JobQuery.mk "Designer" "product designer") (Some "Canva")
      (Some (JS.trim " Berlin ")) false.
Proof.
  apply (provider_url_preferences
           (SearchProvider.mk "Indeed search" ["indeed.com"] indeedUrl)
           (JobQuery.mk "Designer" "product designer") (Some "Canva")
           " Berlin " false).
  do 4 right. left. reflexivity.
Defined.

End ProviderHosts.

(** ** Link validation and repair *)

Section LinkRepair.

Context {P : Platform}.

(** X12: a raw link that is missing, does not start with [https://] (the
    empty link included) or is rejected by the URL constructor is replaced
    by the deterministic fallback link, whose source is the name of the
    table provider that built it; a source label of the raw posting plays
    no part. *)
Theorem ensureCompanyLink_rejects_bad_link
  (rawLink : option string) (company : string) (fallbackQuery : JobQuery.t)
  (location : option string) (remote : bool) (index : nat)
  (modelSource : option string)
  (Hbad : rawLink = None
          \/ exists raw,
               rawLink = Some raw
               /\ (JS.startsWith raw "https://" = false
                   \/ exists msg, URL_new raw = Throws msg)) :
  ensureCompanyLink rawLink company fallbackQuery location remote index
                    modelSource
  = buildSearchLink fallbackQuery (Some company) location remote
      (hashString (JobQuery.title fallbackQuery ++ ":"
                   ++ JobQuery.query fallbackQuery ++ ":" ++ decimal index))
  /\ exists provider,
       In provider SEARCH_PROVIDERS
       /\ ensureCompanyLink rawLink company fallbackQuery location remote index
                            modelSource
          = Returns (Link.mk
                       (SearchProvider.buildUrl provider fallbackQuery
                          (Some company) location remote)
                       (SearchProvider.name provider)).
Proof.
  destruct (buildSearchLink_returns fallbackQuery (Some company) location remote
    (hashString (JobQuery.title fallbackQuery ++ ":"
                 ++ JobQuery.query fallbackQuery ++ ":" ++ decimal index)))
    as [fp [Hin Hfb]].
  assert (Heq : ensureCompanyLink rawLink company fallbackQuery location remote
                  index modelSource
                = buildSearchLink fallbackQuery (Some company) location remote
                    (hashString (JobQuery.title fallbackQuery ++ ":"
                       ++ JobQuery.query fallbackQuery ++ ":" ++ decimal index))).
  { unfold ensureCompanyLink. rewrite Hfb. cbn [bindO].
    destruct Hbad as [->|[raw [-> [Hs|[msg Hu]]]]]; [reflexivity| |].
    - rewrite Hs, andb_false_r. reflexivity.
    - destruct (negb _); [reflexivity|]. now rewrite Hu. }
  split; [exact Heq|]. exists fp. split; [exact Hin|]. now rewrite Heq.
Qed.

(** X13: an https link on a known provider's host that does not contain
    the slug of a non-empty company is not kept: the URL is rebuilt with
    that provider's builder from the query, the company and the
    preferences, and the source is the provider's name even when the raw
    posting carries a source label. *)
Theorem ensureCompanyLink_rebuilds_on_provider
  (raw company : string) (fallbackQuery : JobQuery.t)
  (location : option string) (remote : bool) (index : nat)
  (modelSource : option string) (parsed : URL.t) (provider : SearchProvider.t)
  (Hhttps : JS.startsWith raw "https://" = true)
  (Hparse : URL_new raw = Returns parsed)
  (Hprovider : findProviderForHost (URL.hostname parsed) = Some provider)
  (Hcompany : company <> "")
  (Hslug : slugify company = ""
           \/ JS.includes (JS.toLowerCase raw) (slugify company) = false) :
  ensureCompanyLink (Some raw) company fallbackQuery location remote index
                    modelSource
  = Returns (Link.mk
               (SearchProvider.buildUrl provider fallbackQuery (Some company)
                                        location remote)
               (SearchProvider.name provider)).
Proof.
  destruct (ensureCompanyLink_unfold raw company fallbackQuery location remote
              index modelSource Hhttps) as [fb [_ ->]].
  rewrite Hparse. cbv zeta. rewrite Hprovider.
  destruct (JS.truthy company) eqn:Ec;
    [|apply truthy_false in Ec; contradiction].
  cbn [negb].
  destruct Hslug as [-> | ->]; [reflexivity|].
  destruct (JS.truthy (slugify company)); reflexivity.
Qed.

(** X14: link repair never throws, and the URL it returns has one of two
    origins: it is the raw link itself, which then starts with [https://],
    or it was built by a provider of the table from the fallback query,
    the company and the preferences, and then the source is that
    provider's name. *)
Theorem ensureCompanyLink_provenance
  (rawLink : option string) (company : string) (fallbackQuery : JobQuery.t)
  (location : option string) (remote : bool) (index : nat)
  (modelSource : option string) :
  exists link,
    ensureCompanyLink rawLink company fallbackQuery location remote index
                      modelSource = Returns link
    /\ ((rawLink = Some (Link.url link)
         /\ JS.startsWith (Link.url link) "https://" = true)
        \/ exists provider,
             In provider SEARCH_PROVIDERS
             /\ Link.url link
                = SearchProvider.buildUrl provider fallbackQuery (Some company)
                                          location remote
             /\ Link.source link = SearchProvider.name provider).
Proof.
  unfold ensureCompanyLink.
  destruct (buildSearchLink_returns fallbackQuery (Some company) location remote
    (hashString (JobQuery.title fallbackQuery ++ ":"
                 ++ JobQuery.query fallbackQuery ++ ":" ++ decimal index)))
    as [fp [Hin ->]].
  cbn [bindO].
  assert (Hfallback : exists link,
    Returns (Link.mk (SearchProvider.buildUrl fp fallbackQuery (Some company)
                        location remote) (SearchProvider.name fp))
    = Returns link
    /\ ((rawLink = Some (Link.url link)
         /\ JS.startsWith (Link.url link) "https://" = true)
        \/ exists provider,
             In provider SEARCH_PROVIDERS
             /\ Link.url link
                = SearchProvider.buildUrl provider fallbackQuery (Some company)
                                          location remote
             /\ Link.source link = SearchProvider.name provider)).
  { eexists. split; [reflexivity|]. right. exists fp. auto. }
  destruct rawLink as [raw|]; [|exact Hfallback].
  destruct (JS.truthy raw && JS.startsWith raw "https://")%bool eqn:Hraw;
    cbn [negb]; [|exact Hfallback].
  apply andb_prop in Hraw. destruct Hraw as [_ Hraw].
  destruct (URL_new raw) as [parsed|]; [|exact Hfallback].
  assert (Hkept : forall source, exists link,
    Returns (Link.mk raw source) = Returns link
    /\ ((Some raw = Some (Link.url link)
         /\ JS.startsWith (Link.url link) "https://" = true)
        \/ exists provider,
             In provider SEARCH_PROVIDERS
             /\ Link.url link
                = SearchProvider.buildUrl provider fallbackQuery (Some company)
                                          location remote
             /\ Link.source link = SearchProvider.name provider)).
  { intros source. eexists. split; [reflexivity|]. left. auto. }
  destruct (negb (JS.truthy company)); [apply Hkept|].
  destruct (findProviderForHost (URL.hostname parsed)) as [p|] eqn:Hp.
  - destruct (if JS.truthy (slugify company) then _ else _); [apply Hkept|].
    eexists. split; [reflexivity|]. right. exists p.
    split; [eapply findProviderForHost_In; eauto | auto].
  - destruct (if JS.truthy (slugify company) then _ else _); apply Hkept.
Qed.

End LinkRepair.

Lemma ensureCompanyLink_rejects_bad_link_witness :
  JS.startsWith "http://example.com/jobs" "https://" = false
  /\ @ensureCompanyLink ReferencePlatform (Some "http://example.com/jobs")
       "Canva" (JobQuery.mk "Designer" "product designer") None false 0
       (Some "Gemini")
     = buildSearchLink (JobQuery.mk "Designer" "product designer")
         (Some "Canva") None false (hashString "Designer:product designer:0").
Proof.
  split; [reflexivity|].
  apply (@ensureCompanyLink_rejects_bad_link ReferencePlatform
           (Some "http://example.com/jobs") "Canva"
           (JobQuery.mk "Designer" "product designer") None false 0
           (Some "Gemini")).
  right. exists "http://example.com/jobs". split; [reflexivity|].
  left. reflexivity.
Defined.

Lemma ensureCompanyLink_rebuilds_on_provider_witness :
  JS.startsWith "https://www.linkedin.com/jobs/view/123" "https://" = true
  /\ @URL_new ReferencePlatform "https://www.linkedin.com/jobs/view/123"
     = Returns (URL.mk "www.linkedin.com" "/jobs/view/123")
  /\ JS.includes (JS.toLowerCase "https://www.linkedin.com/jobs/view/123")
                 (slugify "Canva") = false
  /\ @ensureCompanyLink ReferencePlatform
       (Some "https://www.linkedin.com/jobs/view/123") "Canva"
       (JobQuery.mk "Designer" "product designer") None false 0
       (Some "Gemini")
     = Returns (Link.mk
                  (linkedInUrl (JobQuery.mk "Designer" "product designer")
                               (Some "Canva") None false)
                  "LinkedIn search").
Proof.
  split; [reflexivity|]. split; [reflexivity|]. split; [reflexivity|].
  apply (@ensureCompanyLink_rebuilds_on_provider ReferencePlatform
           "https://www.linkedin.com/jobs/view/123" "Canva"
           (JobQuery.mk "Designer" "product designer") None false 0
           (Some "Gemini") (URL.mk "www.linkedin.com" "/jobs/view/123")
           (SearchProvider.mk "LinkedIn search" ["linkedin.com"] linkedInUrl)
           eq_refl eq_refl eq_refl).
  - discriminate.
  - right. reflexivity.
Defined.

(** ** The fallback catalogue *)

Section FallbackCatalogue.

Lemma mapWithIndex_Forall_in {A B} (f : nat -> A -> Outcome B) (Q : B -> Prop) :
  forall l start ys,
    (forall i x y, In x l -> f i x = Returns y -> Q y) ->
    mapWithIndex f start l = Returns ys -> Forall Q ys.
Proof.
  induction l as [|x l IH]; intros start ys Hf H; simpl in H.
  - injection H as <-. constructor.
  - destruct (f start x) as [y|] eqn:Ey; simpl in H; [|discriminate].
    destruct (mapWithIndex f (S start) l) as [ys'|] eqn:El; simpl in H;
      [|discriminate].
    injection H as <-. constructor.
    + eapply Hf; [now left | exact Ey].
    + eapply IH; [|exact El]. intros i a b Ha. apply Hf. now right.
Qed.

Lemma mapWithIndex_related {A B} (f g : nat -> A -> Outcome B)
  (R : B -> B -> Prop) :
  (forall i x y, f i x = Returns y -> exists z, g i x = Returns z /\ R y z) ->
  forall l start ys,
    mapWithIndex f start l = Returns ys ->
    exists zs, mapWithIndex g start l = Returns zs /\ Forall2 R ys zs.
Proof.
  intros Hfg. induction l as [|x l IH]; intros start ys H; simpl in H.
  - injection H as <-. exists []. split; [reflexivity | constructor].
  - destruct (f start x) as [y|] eqn:Ey; simpl in H; [|discriminate].
    destruct (mapWithIndex f (S start) l) as [ys'|] eqn:El; simpl in H;
      [|discriminate].
    injection H as <-.
    destruct (Hfg _ _ _ Ey) as [z [Hz Hr]].
    destruct (IH _ _ El) as [zs [Hzs Hrs]].
    exists (z :: zs). simpl. rewrite Hz, Hzs. split; [reflexivity|].
    now constructor.
Qed.

Lemma concat_length_uniform {T} (n : nat) (groups : list (list T)) :
  Forall (fun g => List.length g = n) groups ->
  List.length (List.concat groups) = n * List.length groups.
Proof.
  induction 1 as [|g gs Hg _ IH]; simpl; [lia|].
  rewrite length_app, Hg, IH. lia.
Qed.

Lemma fallbackJobsFor_length now location remote queryIndex query group :
  fallbackJobsFor now location remote queryIndex query = Returns group ->
  List.length group = resultsPerQuery.
Proof.
  unfold fallbackJobsFor. intros H.
  apply mapWithIndex_length in H. now rewrite repeat_length in H.
Qed.

Lemma buildFallbackJobs_length (now : Z) (queries : list JobQuery.t)
  (location : option string) (remote : bool) :
  exists jobs,
    buildFallbackJobs now queries location remote = Returns jobs
    /\ List.length jobs = 5 * List.length queries.
Proof.
  destruct (buildFallbackJobs_returns now queries location remote) as [jobs H].
  exists jobs. split; [exact H|].
  unfold buildFallbackJobs, flatMapWithIndex in H.
  destruct (mapWithIndex _ 0 queries) as [groups|] eqn:E; cbn [bindO] in H;
    [|discriminate].
  injection H as <-.
  rewrite (concat_length_uniform resultsPerQuery).
  - rewrite (mapWithIndex_length _ _ _ _ E). reflexivity.
  - eapply mapWithIndex_Forall; [|exact E].
    intros i q g. apply fallbackJobsFor_length.
Qed.

(** X15: the fallback never throws and yields exactly
    [max(providerCount, 5) = 5] postings for every query, in query order;
    for an empty query list it is the empty list. *)
Theorem buildFallbackJobs_count (now : Z) (queries : list JobQuery.t)
  (location : option string) (remote : bool) :
  exists jobs,
    buildFallbackJobs now queries location remote = Returns jobs
    /\ List.length jobs = 5 * List.length queries
    /\ (queries = [] -> jobs = []).
Proof.
  destruct (buildFallbackJobs_length now queries location remote)
    as [jobs [H Hlen]].
  exists jobs. split; [exact H|]. split; [exact Hlen|].
  intros ->. simpl in Hlen. now apply length_zero_iff_nil.
Qed.

Lemma provider_names_nonempty :
  Forall (fun p => SearchProvider.name p <> "") SEARCH_PROVIDERS.
Proof. repeat constructor; discriminate. Qed.

Lemma fallbackJob_fields now location remote query queryIndex offset job :
  fallbackJob now location remote query queryIndex offset = Returns job ->
  JobPosting.location job = Some (locationLabel location remote)
  /\ JobPosting.salary job = None
  /\ JobPosting.postedAt job = None
  /\ JobPosting.company job = pickSampleCompany query (queryIndex + offset)
  /\ JobPosting.title job
     = JobQuery.title query ++ " at " ++ JobPosting.company job
  /\ exists provider,
       In provider SEARCH_PROVIDERS
       /\ JobPosting.url job
          = SearchProvider.buildUrl provider query
              (Some (JobPosting.company job)) location remote
       /\ JobPosting.source job = SearchProvider.name provider.
Proof.
  unfold fallbackJob.
  destruct (providerAt _) as [p|] eqn:Hp; cbn [bindO]; [|discriminate].
  intros [= <-]. cbn. repeat split.
  exists p. split; [eapply providerAt_In; eauto | auto].
Qed.


Lemma fallbackJob_eraseId now1 now2 location remote query queryIndex offset job :
  fallbackJob now1 location remote query queryIndex offset = Returns job ->
  exists job',
    fallbackJob now2 location remote query queryIndex offset = Returns job'
    /\ eraseId job = eraseId job'.
Proof.
  unfold fallbackJob.
  destruct (providerAt _) as [p|]; cbn [bindO]; [|discriminate].
  intros [= <-]. eexists. split; reflexivity.
Qed.

Lemma Forall2_map_eq {A B} (f : A -> B) (l l' : list A) :
  Forall2 (fun a b => f a = f b) l l' -> map f l = map f l'.
Proof. induction 1; simpl; [reflexivity | congruence]. Qed.

Lemma Forall2_concat {A} (R : A -> A -> Prop) (ls ls' : list (list A)) :
  Forall2 (Forall2 R) ls ls' -> Forall2 R (List.concat ls) (List.concat ls').
Proof.
  induction 1; simpl; [constructor|]. now apply Forall2_app.
Qed.

(** X17: the clock enters the fallback through the ids only: two runs on
    the same queries and preferences at different times return lists that
    agree posting by posting once the ids are blanked. *)
Theorem buildFallbackJobs_clock_independent (now1 now2 : Z)
  (queries : list JobQuery.t) (location : option string) (remote : bool) :
  exists jobs1 jobs2,
    buildFallbackJobs now1 queries location remote = Returns jobs1
    /\ buildFallbackJobs now2 queries location remote = Returns jobs2
    /\ map eraseId jobs1 = map eraseId jobs2.
Proof.
  destruct (buildFallbackJobs_returns now1 queries location remote)
    as [jobs1 H1].
  exists jobs1.
  unfold buildFallbackJobs, flatMapWithIndex in *.
  destruct (mapWithIndex (fallbackJobsFor now1 location remote) 0 queries)
    as [groups1|] eqn:E1; cbn [bindO] in H1; [|discriminate].
  injection H1 as <-.
  destruct (mapWithIndex_related
              (fallbackJobsFor now1 location remote)
              (fallbackJobsFor now2 location remote)
              (Forall2 (fun a b => eraseId a = eraseId b))) with
    (l := queries) (start := 0) (ys := groups1) as [groups2 [E2 Hrel]];
    [|exact E1|].
  - intros i q g Hg. unfold fallbackJobsFor in *.
    eapply mapWithIndex_related; [|exact Hg].
    intros off u job. apply fallbackJob_eraseId.
  - exists (List.concat groups2). rewrite E2. cbn [bindO].
    split; [reflexivity|]. split; [reflexivity|].
    apply Forall2_map_eq. now apply Forall2_concat.
Qed.

End FallbackCatalogue.


(** ** Source labels *)

Section SourceLabels.

Lemma length_substring_le (s : string) :
  forall n m, length (substring n m s) <= length s - n.
Proof.
  induction s as [|c r IH]; intros n m.
  - destruct n, m; simpl; lia.
  - destruct n as [|n].
    + destruct m as [|m]; simpl; [lia|]. specialize (IH 0 m). lia.
    + simpl. apply IH.
Qed.

Lemma prefix_empty (s : string) : prefix "" s = true.
Proof. destruct s; reflexivity. Qed.

Lemma prefix_cons (a b : ascii) (s t : string) :
  prefix (String a s) (String b t) = true <-> a = b /\ prefix s t = true.
Proof.
  simpl. destruct (ascii_dec a b) as [->|Hne]; split; intros H.
  - auto.
  - tauto.
  - discriminate.
  - destruct H. contradiction.
Qed.

(** After the replacement, what reads like a tail of the pattern is a tail
    that was in the text already. *)
Lemma replaced_tail (t : string) :
  everyUnit (fun c => negb (Ascii.eqb c "a")) t = true ->
  forall fuel s,
    length s <= fuel ->
    prefix t (JS.toLowerCase
                (JS.replaceAllCaselessAux fuel "gemini" "AI curated" s)) = true ->
    prefix t (JS.toLowerCase s) = true.
Proof.
  induction t as [|x t IH]; intros Ht fuel s Hfuel H.
  - apply prefix_empty.
  - simpl in Ht. apply andb_prop in Ht. destruct Ht as [Hx Ht].
    apply negb_true_iff in Hx. apply Ascii.eqb_neq in Hx.
    destruct s as [|d r].
    + destruct fuel; simpl in H; discriminate.
    + destruct fuel as [|fuel]; [simpl in Hfuel; lia|].
      cbn [JS.replaceAllCaselessAux] in H.
      destruct (prefix "gemini" (JS.toLowerCase (String d r))).
      * exfalso.
        match type of H with
        | prefix _ (JS.toLowerCase ("AI curated" ++ ?rest)) = true =>
            change (JS.toLowerCase ("AI curated" ++ rest))
              with (String "a" (JS.toLowerCase ("I curated" ++ rest))) in H
        end.
        apply prefix_cons in H. now destruct H.
      * cbn [JS.toLowerCase] in *. apply prefix_cons in H.
        destruct H as [-> H]. apply prefix_cons. split; [reflexivity|].
        apply (IH Ht fuel r); [simpl in Hfuel; lia | exact H].
Qed.

Lemma replaced_clean :
  forall fuel s,
    length s <= fuel ->
    JS.includes
      (JS.toLowerCase (JS.replaceAllCaselessAux fuel "gemini" "AI curated" s))
      "gemini" = false.
Proof.
  induction fuel as [|fuel IH]; intros s Hfuel.
  - destruct s; [reflexivity | simpl in Hfuel; lia].
  - destruct s as [|d r]; [reflexivity|].
    cbn [JS.replaceAllCaselessAux].
    destruct (prefix "gemini" (JS.toLowerCase (String d r))) eqn:Ematch.
    + change (JS.includes
                (JS.toLowerCase
                   (JS.replaceAllCaselessAux fuel "gemini" "AI curated"
                      (JS.sliceFrom (String d r) (length "gemini"))))
                "gemini" = false).
      apply IH. unfold JS.sliceFrom.
      pose proof (length_substring_le (String d r) (length "gemini")
                    (length (String d r) - length "gemini")) as Hl.
      simpl in *. lia.
    + cbn [JS.toLowerCase]. cbn [JS.includes].
      rewrite (IH r) by (simpl in Hfuel; lia).
      destruct (prefix "gemini"
                  (String (JS.lowerChar d)
                     (JS.toLowerCase
                        (JS.replaceAllCaselessAux fuel "gemini" "AI curated" r))))
        eqn:Ep; [|now destruct (JS.replaceAllCaselessAux _ _ _ _)].
      exfalso. apply prefix_cons in Ep. destruct Ep as [Hg Ep].
      apply (replaced_tail "emini" eq_refl fuel r) in Ep;
        [|simpl in Hfuel; lia].
      assert (Hfull : prefix "gemini" (JS.toLowerCase (String d r)) = true).
      { cbn [JS.toLowerCase]. apply prefix_cons. auto. }
      congruence.
Qed.

Lemma replaced_nonempty (s : string) :
  s <> "" -> JS.replaceAllCaseless "gemini" "AI curated" s <> "".
Proof.
  destruct s as [|c r]; [congruence|]. intros _.
  unfold JS.replaceAllCaseless. cbn [length JS.replaceAllCaselessAux].
  destruct (prefix "gemini" (JS.toLowerCase (String c r))); discriminate.
Qed.

Lemma provider_names_clean :
  Forall (fun p => SearchProvider.name p <> ""
                   /\ testCaseless "gemini" (SearchProvider.name p) = false)
         SEARCH_PROVIDERS.
Proof. repeat constructor; discriminate. Qed.

End SourceLabels.

(** ** Invariants of the returned postings *)

Section EngineInvariants.

Context {P : Platform}.

(** A property of every assembled posting and of every fallback posting
    holds for every posting the engine returns. *)
Lemma generateJobsWithGemini_Forall (Q : JobPosting.t -> Prop)
  (w : World.t) (cachedModel : option Model) (queries : list JobQuery.t)
  (location : option string) (remote : bool) (jobs : list JobPosting.t) :
  (forall index job posting,
      assemblePosting w queries location remote index job = Returns posting ->
      Q posting) ->
  (forall query queryIndex offset posting,
      In query queries ->
      fallbackJob (World.fallbackNow w) location remote query queryIndex offset
      = Returns posting ->
      Q posting) ->
  fst (generateJobsWithGemini w cachedModel queries location remote)
  = Returns jobs ->
  Forall Q jobs.
Proof.
  intros Hai Hfb Hrun.
  assert (Hfallback : forall l,
    buildFallbackJobs (World.fallbackNow w) queries location remote = Returns l ->
    Forall Q l).
  { intros l Hl. unfold buildFallbackJobs, flatMapWithIndex in Hl.
    destruct (mapWithIndex _ 0 queries) as [groups|] eqn:E; cbn [bindO] in Hl;
      [|discriminate].
    injection Hl as <-. apply concat_Forall.
    eapply mapWithIndex_Forall_in; [|exact E].
    intros i q group Hq Hg. unfold fallbackJobsFor in Hg.
    eapply mapWithIndex_Forall; [|exact Hg].
    intros off u job. now apply Hfb. }
  unfold generateJobsWithGemini in Hrun.
  destruct (getModel w cachedModel) as [[m|msg] cached]; simpl in Hrun;
    [|discriminate].
  unfold tryCatch in Hrun.
  destruct (synthesise w queries location remote) as [l|] eqn:Es;
    [|now apply Hfallback].
  injection Hrun as <-. unfold synthesise in Es.
  destruct (World.aiReply w) as [reply|]; simpl in Es; [|discriminate].
  destruct (match reply with
            | Some text => safeJsonParse text
            | None => Throws "Empty response from Gemini."
            end) as [parsed|]; simpl in Es; [|discriminate].
  destruct (jobsOf parsed) as [raw|]; simpl in Es; [|discriminate].
  destruct raw as [|j raw]; [now apply Hfallback|].
  destruct (mapWithIndex _ 0 (j :: raw)) as [postings|] eqn:E; simpl in Es;
    [|discriminate].
  injection Es as <-.
  apply Forall_forall. intros x Hx. apply filter_In in Hx.
  destruct Hx as [Hx _]. revert x Hx. apply Forall_forall.
  eapply mapWithIndex_Forall; [|exact E]. exact Hai.
Qed.

(** The fields of an assembled posting, once the raw posting has been
    read. *)
Lemma assemblePosting_fields w queries location remote index job posting :
  assemblePosting w queries location remote index job = Returns posting ->
  exists rawLink jobLocation rawCompany modelSource jobId jobTitle
         jobDescription fallbackQuery link,
    nth_error queries (index mod List.length queries) = Some fallbackQuery
    /\ stringProp job "location" = Returns jobLocation
    /\ ensureCompanyLink rawLink
         (normaliseCompanyName rawCompany
            (match rawLink with Some l => l | None => "" end)
            fallbackQuery index)
         fallbackQuery location remote index modelSource = Returns link
    /\ JobPosting.id posting
       = orDefault jobId
           ("gemini-" ++ JS.numberToString (World.itemNow w index) ++ "-"
              ++ decimal index)
    /\ JobPosting.title posting = orDefault jobTitle (JobQuery.title fallbackQuery)
    /\ JobPosting.company posting
       = normaliseCompanyName rawCompany
           (match rawLink with Some l => l | None => "" end)
           fallbackQuery index
    /\ JobPosting.location posting
       = match jobLocation with
         | Some l => if JS.truthy (JS.trim l) then Some l
                     else if remote then Some "Remote" else location
         | None => if remote then Some "Remote" else location
         end
    /\ JobPosting.description posting
       = orDefault jobDescription
           ("Review opportunities that align with "
              ++ JobQuery.title fallbackQuery ++ ".")
    /\ JobPosting.url posting = Link.url link
    /\ JobPosting.source posting
       = (if JS.truthy (Link.source link)
          then JS.replaceAllCaseless "gemini" "AI curated" (Link.source link)
          else "AI curated").
Proof.
  unfold assemblePosting.
  destruct (stringProp job "link") as [rawLink|]; cbn [bindO]; [|discriminate].
  destruct (stringProp job "location") as [jobLocation|]; cbn [bindO];
    [|discriminate].
  destruct (stringProp job "company") as [rawCompany|]; cbn [bindO];
    [|discriminate].
  destruct (stringProp job "source") as [modelSource|]; cbn [bindO];
    [|discriminate].
  destruct (stringProp job "id") as [jobId|]; cbn [bindO]; [|discriminate].
  destruct (stringProp job "title") as [jobTitle|]; cbn [bindO]; [|discriminate].
  destruct (stringProp job "salary") as [jobSalary|]; cbn [bindO];
    [|discriminate].
  destruct (stringProp job "description") as [jobDescription|]; cbn [bindO];
    [|discriminate].
  destruct (nth_error queries (index mod List.length queries))
    as [fallbackQuery|]; [|discriminate].
  destruct (ensureCompanyLink rawLink _ fallbackQuery location remote index
              modelSource) as [link|] eqn:El; cbn [bindO]; [|discriminate].
  intros [= <-].
  exists rawLink, jobLocation, rawCompany, modelSource, jobId, jobTitle,
         jobDescription, fallbackQuery, link.
  cbn. repeat split. exact El.
Qed.

Lemma orDefault_nonempty (x : option string) (d : string) :
  d <> "" -> orDefault x d <> "".
Proof.
  intros Hd. unfold orDefault. destruct x as [s|]; [|exact Hd].
  destruct (JS.truthy s) eqn:E; [now apply truthy_true_ne | exact Hd].
Qed.

Lemma display_source_clean (source : string) :
  let shown := if JS.truthy source
               then JS.replaceAllCaseless "gemini" "AI curated" source
               else "AI curated" in
  shown <> "" /\ testCaseless "gemini" shown = false.
Proof.
  cbv zeta. destruct (JS.truthy source) eqn:E;
    [|split; [discriminate | reflexivity]].
  split.
  - apply replaced_nonempty. now apply truthy_true_ne.
  - unfold testCaseless, JS.replaceAllCaseless. apply replaced_clean. lia.
Qed.

(** X18: no returned posting names the model in its source label: the
    label is never empty and the pattern [/gemini/i] matches nowhere in
    it, whatever label the AI supplied. *)
Theorem generateJobsWithGemini_source_clean
  (w : World.t) (cachedModel : option Model) (queries : list JobQuery.t)
  (location : option string) (remote : bool) (jobs : list JobPosting.t)
  (job : JobPosting.t)
  (Hrun : fst (generateJobsWithGemini w cachedModel queries location remote)
          = Returns jobs)
  (Hin : In job jobs) :
  JobPosting.source job <> ""
  /\ testCaseless "gemini" (JobPosting.source job) = false.
Proof.
  revert job Hin. apply Forall_forall.
  eapply generateJobsWithGemini_Forall; [| |exact Hrun].
  - intros index raw posting Hp. apply assemblePosting_fields in Hp.
    destruct Hp as [? [? [? [? [? [? [? [? [link Hp]]]]]]]]].
    replace (JobPosting.source posting)
      with (if JS.truthy (Link.source link)
            then JS.replaceAllCaseless "gemini" "AI curated" (Link.source link)
            else "AI curated") by (symmetry; apply Hp).
    apply display_source_clean.
  - intros query queryIndex offset posting _ Hp.
    apply fallbackJob_fields in Hp.
    destruct Hp as [_ [_ [_ [_ [_ [p [Hp [_ Hs]]]]]]]].
    rewrite Hs.
    pose proof provider_names_clean as Hall.
    rewrite Forall_forall in Hall. now apply Hall.
Qed.

(** X19: every returned posting can be rendered: its id, company,
    description, url and source are non-empty strings. *)
Theorem generateJobsWithGemini_fields_present
  (w : World.t) (cachedModel : option Model) (queries : list JobQuery.t)
  (location : option string) (remote : bool) (jobs : list JobPosting.t)
  (job : JobPosting.t)
  (Hrun : fst (generateJobsWithGemini w cachedModel queries location remote)
          = Returns jobs)
  (Hin : In job jobs) :
  JobPosting.id job <> ""
  /\ JobPosting.company job <> ""
  /\ JobPosting.description job <> ""
  /\ JobPosting.url job <> ""
  /\ JobPosting.source job <> "".
Proof.
  revert job Hin. apply Forall_forall.
  eapply generateJobsWithGemini_Forall; [| |exact Hrun].
  - intros index raw posting Hp.
    pose proof (assemblePosting_https _ _ _ _ _ _ _ Hp) as Hurl.
    apply assemblePosting_fields in Hp.
    destruct Hp as [? [? [? [? [? [? [? [? [link
      [_ [_ [_ [Hid [_ [Hc [_ [Hd [_ Hs]]]]]]]]]]]]]]]]]].
    rewrite Hid, Hc, Hd, Hs.
    split; [apply orDefault_nonempty; discriminate|].
    split; [apply normaliseCompanyName_nonempty|].
    split; [apply orDefault_nonempty; discriminate|].
    split; [apply truthy_true_ne;
            exact (startsWith_truthy _ "https://" eq_refl Hurl)|].
    exact (proj1 (display_source_clean (Link.source link))).
  - intros query queryIndex offset posting _ Hp.
    pose proof (fallbackJob_https _ _ _ _ _ _ _ Hp) as Hurl.
    pose proof (fallbackJob_id _ _ _ _ _ _ _ Hp) as Hid.
    assert (Hdesc : JobPosting.description posting <> "").
    { unfold fallbackJob in Hp.
      destruct (providerAt _); cbn [bindO] in Hp; [|discriminate].
      injection Hp as <-. cbn. discriminate. }
    apply fallbackJob_fields in Hp.
    destruct Hp as [_ [_ [_ [Hc [_ [p [Hp [_ Hs]]]]]]]].
    rewrite Hid, Hc, Hs.
    split; [discriminate|].
    split; [apply pickSampleCompany_nonempty|].
    split; [exact Hdesc|].
    split; [apply truthy_true_ne;
            exact (startsWith_truthy _ "https://" eq_refl Hurl)|].
    pose proof provider_names_nonempty as Hall.
    rewrite Forall_forall in Hall. now apply Hall.
Qed.

Lemma assemblePosting_remote_location w queries location index job posting :
  assemblePosting w queries location true index job = Returns posting ->
  JobPosting.location posting
  = Some (match suppliedLocation job with
          | Some place => place
          | None => "Remote"
          end).
Proof.
  intros Hp. apply assemblePosting_fields in Hp.
  destruct Hp as [? [jobLocation [? [? [? [? [? [?
    [? [_ [Hread [_ [_ [_ [_ [Hl _]]]]]]]]]]]]]]]].
  rewrite Hl. clear Hl. unfold stringProp, getProp, suppliedLocation in *.
  destruct job as [| | | | |fields]; cbn [bindO] in Hread;
    try discriminate; try (injection Hread as <-; reflexivity).
  destruct (lookupField fields "location") as [[| | |place| |]|];
    injection Hread as <-; try reflexivity.
  destruct (JS.truthy (JS.trim place)); reflexivity.
Qed.

(** X20: with the remote flag set every returned posting has a location
    that is not blank.  For a usable reply the posting at each position
    carries the location its raw posting supplied, when that is a string
    that is not blank, and "Remote" otherwise. *)
Theorem generateJobsWithGemini_remote_location
  (w : World.t) (cachedModel : option Model) (queries : list JobQuery.t)
  (location : option string) (jobs : list JobPosting.t)
  (Hrun : fst (generateJobsWithGemini w cachedModel queries location true)
          = Returns jobs) :
  Forall (fun job => exists place,
            JobPosting.location job = Some place /\ JS.trim place <> "")
    jobs
  /\ (forall text parsed raw,
         World.aiReply w = Some (Some text) ->
         safeJsonParse text = Returns parsed ->
         jobsOf parsed = Returns raw ->
         raw <> [] -> ~ In JNull raw -> queries <> [] ->
         List.length jobs = List.length raw
         /\ forall k rawJob job,
              nth_error raw k = Some rawJob ->
              nth_error jobs k = Some job ->
              JobPosting.location job
              = Some (match suppliedLocation rawJob with
                      | Some place => place
                      | None => "Remote"
                      end)).
Proof.
  split.
  - eapply generateJobsWithGemini_Forall; [| |exact Hrun].
    + intros index raw posting Hp. apply assemblePosting_fields in Hp.
      destruct Hp as [? [jobLocation [? [? [? [? [? [? [?
        [_ [_ [_ [_ [_ [_ [Hl _]]]]]]]]]]]]]]]].
      rewrite Hl. destruct jobLocation as [l|].
      * destruct (JS.truthy (JS.trim l)) eqn:E.
        -- exists l. split; [reflexivity | now apply truthy_true_ne].
        -- exists "Remote". split; [reflexivity | vm_compute; discriminate].
      * exists "Remote". split; [reflexivity | vm_compute; discriminate].
    + intros query queryIndex offset posting _ Hp.
      apply fallbackJob_fields in Hp. destruct Hp as [Hl _].
      exists "Remote". split; [exact Hl | vm_compute; discriminate].
  - intros text parsed raw Hreply Hparse Hjobs Hsome Hnonnull Hqueries.
    assert (Hmodel : exists m, fst (getModel w cachedModel) = Returns m).
    { unfold generateJobsWithGemini in Hrun.
      destruct (getModel w cachedModel) as [[m|msg] c0];
        [exists m; reflexivity | discriminate]. }
    destruct Hmodel as [m Hm].
    destruct (generateJobsWithGemini_positions w cachedModel queries location
                true m text parsed raw Hm Hreply Hparse Hjobs Hsome Hnonnull
                Hqueries) as [jobs' [Hrun' [Hlen Hpos]]].
    rewrite Hrun in Hrun'. injection Hrun' as <-.
    split; [exact Hlen|].
    intros k rawJob job Hk Hj.
    destruct (Hpos k rawJob Hk) as [posting [Hp Hassembled]].
    rewrite Hj in Hp. injection Hp as <-.
    now apply assemblePosting_remote_location in Hassembled.
Qed.

Lemma generateJobsWithGemini_nonempty
  (w : World.t) (cachedModel : option Model) (queries : list JobQuery.t)
  (location : option string) (remote : bool) (m : Model)
  (Hmodel : fst (getModel w cachedModel) = Returns m)
  (Hqueries : queries <> []) :
  exists jobs,
    fst (generateJobsWithGemini w cachedModel queries location remote)
    = Returns jobs
    /\ jobs <> [].
Proof.
  assert (Hfallback : exists jobs,
    buildFallbackJobs (World.fallbackNow w) queries location remote
    = Returns jobs /\ jobs <> []).
  { destruct (buildFallbackJobs_length (World.fallbackNow w) queries location
                remote) as [jobs [Hj Hlen]].
    exists jobs. split; [exact Hj|]. intros ->.
    destruct queries; [congruence | simpl in Hlen; lia]. }
  unfold generateJobsWithGemini.
  destruct (getModel w cachedModel) as [[m'|msg] cached]; simpl in Hmodel;
    [|discriminate].
  cbn [fst]. unfold tryCatch.
  destruct (synthesise w queries location remote) as [l|] eqn:Es;
    [|exact Hfallback].
  exists l. split; [reflexivity|].
  unfold synthesise in Es.
  destruct (World.aiReply w) as [reply|]; simpl in Es; [|discriminate].
  destruct (match reply with
            | Some text => safeJsonParse text
            | None => Throws "Empty response from Gemini."
            end) as [parsed|]; simpl in Es; [|discriminate].
  destruct (jobsOf parsed) as [raw|]; simpl in Es; [|discriminate].
  destruct raw as [|j raw].
  - destruct Hfallback as [jobs [Hj Hne]]. congruence.
  - destruct (mapWithIndex _ 0 (j :: raw)) as [postings|] eqn:E; simpl in Es;
      [|discriminate].
    injection Es as <-.
    rewrite filter_keeps_all.
    + apply mapWithIndex_length in E. intros ->. discriminate.
    + eapply mapWithIndex_Forall; [|exact E].
      intros i x y Hy. cbv beta.
      apply (startsWith_truthy _ "https://" eq_refl).
      eapply assemblePosting_https; eauto.
Qed.

(** X21: once a model handle is available and there is at least one query,
    the engine returns at least one posting, whatever the AI client does:
    one per raw posting of a usable reply, and otherwise the fallback
    catalogue. *)
Theorem generateJobsWithGemini_never_empty
  (w : World.t) (cachedModel : option Model) (queries : list JobQuery.t)
  (location : option string) (remote : bool) (m : Model)
  (Hmodel : fst (getModel w cachedModel) = Returns m)
  (Hqueries : queries <> []) :
  exists jobs,
    fst (generateJobsWithGemini w cachedModel queries location remote)
    = Returns jobs
    /\ jobs <> [].
Proof.
  exact (generateJobsWithGemini_nonempty w cachedModel queries location
           remote m Hmodel Hqueries).
Qed.

(** X22: the model handle is created at most once.  A call that finds a
    key leaves a handle in the module state, a call that finds a handle
    leaves it untouched, and with a handle in the state every later call
    returns a list, even in a world without a key. *)
Theorem generateJobsWithGemini_caches_model
  (w later : World.t) (queries : list JobQuery.t)
  (location : option string) (remote : bool) (cached : Model)
  (Hkey : World.GEMINI_KEY w <> "") :
  snd (generateJobsWithGemini w None queries location remote)
  = Some (GenerativeModel (World.GEMINI_KEY w))
  /\ snd (generateJobsWithGemini later (Some cached) queries location remote)
     = Some cached
  /\ exists jobs,
       fst (generateJobsWithGemini later
              (snd (generateJobsWithGemini w None queries location remote))
              queries location remote)
       = Returns jobs.
Proof.
  assert (Ht : JS.truthy (World.GEMINI_KEY w) = true).
  { destruct (JS.truthy (World.GEMINI_KEY w)) eqn:E; [reflexivity|].
    apply truthy_false in E. contradiction. }
  assert (Hstate : snd (generateJobsWithGemini w None queries location remote)
                   = Some (GenerativeModel (World.GEMINI_KEY w))).
  { unfold generateJobsWithGemini, getModel. now rewrite Ht. }
  split; [exact Hstate|]. split; [reflexivity|].
  rewrite Hstate.
  eapply generateJobsWithGemini_returns_when_configured. reflexivity.
Qed.

End EngineInvariants.

Lemma generateJobsWithGemini_source_clean_witness :
  exists jobs job,
    fst (@generateJobsWithGemini ReferencePlatform
           (demoWorld "key" (Some (Some labelledReply))) None demoQueries
           None false) = Returns jobs
    /\ In job jobs
    /\ JobPosting.source job = "Google AI curated"
    /\ JobPosting.source job <> ""
    /\ testCaseless "gemini" (JobPosting.source job) = false.
Proof.
  eexists. eexists.
  split; [vm_compute; reflexivity|].
  split; [left; reflexivity|].
  split; [reflexivity|].
  eapply (@generateJobsWithGemini_source_clean ReferencePlatform
            (demoWorld "key" (Some (Some labelledReply))) None demoQueries
            None false).
  - vm_compute. reflexivity.
  - left. reflexivity.
Defined.

Lemma generateJobsWithGemini_fields_present_witness :
  exists jobs job,
    fst (@generateJobsWithGemini ReferencePlatform
           (demoWorld "key" (Some (Some labelledReply))) None demoQueries
           None false) = Returns jobs
    /\ In job jobs
    /\ JobPosting.id job <> "".
Proof.
  eexists. eexists.
  split; [vm_compute; reflexivity|].
  split; [left; reflexivity|].
  eapply (@generateJobsWithGemini_fields_present ReferencePlatform
            (demoWorld "key" (Some (Some labelledReply))) None demoQueries
            None false).
  - vm_compute. reflexivity.
  - left. reflexivity.
Defined.

Lemma generateJobsWithGemini_remote_location_witness :
  exists first second,
    fst (@generateJobsWithGemini ReferencePlatform
           (demoWorld "key" (Some (Some locatedReply))) None demoQueries
           (Some "Berlin") true) = Returns [first; second]
    /\ JobPosting.location first = Some "Lisbon"
    /\ JobPosting.location second = Some "Remote"
    /\ Forall (fun job => exists place,
                 JobPosting.location job = Some place /\ JS.trim place <> "")
         [first; second].
Proof.
  eexists. eexists.
  split; [vm_compute; reflexivity|].
  split; [reflexivity|]. split; [reflexivity|].
  eapply (proj1 (@generateJobsWithGemini_remote_location ReferencePlatform
            (demoWorld "key" (Some (Some locatedReply))) None demoQueries
            (Some "Berlin") _ _)).
  Unshelve. vm_compute. reflexivity.
Defined.

Lemma generateJobsWithGemini_never_empty_witness :
  fst (getModel (demoWorld "key" None) None) = Returns (GenerativeModel "key")
  /\ demoQueries <> []
  /\ exists jobs,
       fst (@generateJobsWithGemini ReferencePlatform (demoWorld "key" None)
              None demoQueries None false) = Returns jobs
       /\ jobs <> [].
Proof.
  assert (Hq : demoQueries <> []) by discriminate.
  split; [reflexivity|]. split; [exact Hq|].
  exact (@generateJobsWithGemini_never_empty ReferencePlatform
           (demoWorld "key" None) None demoQueries None false
           (GenerativeModel "key") eq_refl Hq).
Defined.

Lemma generateJobsWithGemini_caches_model_witness :
  World.GEMINI_KEY (demoWorld "key" None) <> ""
  /\ exists jobs,
       fst (@generateJobsWithGemini ReferencePlatform (demoWorld "" None)
              (snd (@generateJobsWithGemini ReferencePlatform
                      (demoWorld "key" None) None demoQueries None false))
              demoQueries None false)
       = Returns jobs.
Proof.
  assert (Hkey : World.GEMINI_KEY (demoWorld "key" None) <> "")
    by discriminate.
  split; [exact Hkey|].
  exact (proj2 (proj2 (@generateJobsWithGemini_caches_model ReferencePlatform
                         (demoWorld "key" None) (demoWorld "" None)
                         demoQueries None false (GenerativeModel "key") Hkey))).
Defined.

(** ** Prose around the JSON block *)

Section ProseAroundJson.

Lemma indexOf_after_clean_prefix (c : ascii) (pre rest : string) :
  everyUnit (isNot c) pre = true ->
  JS.indexOf c (pre ++ String c rest) = Some (length pre).
Proof.
  induction pre as [|a pre IH]; simpl; intros H.
  - now rewrite Ascii.eqb_refl.
  - apply andb_prop in H. destruct H as [Ha Hpre].
    unfold isNot in Ha. apply negb_true_iff in Ha. rewrite Ha.
    now rewrite (IH Hpre).
Qed.

Lemma lastIndexOf_clean (c : ascii) (s : string) :
  everyUnit (isNot c) s = true -> JS.lastIndexOf c s = None.
Proof.
  induction s as [|a s IH]; simpl; intros H; [reflexivity|].
  apply andb_prop in H. destruct H as [Ha Hs].
  unfold isNot in Ha. apply negb_true_iff in Ha. now rewrite (IH Hs), Ha.
Qed.

Lemma lastIndexOf_before_clean_suffix (c : ascii) (front post : string) :
  everyUnit (isNot c) post = true ->
  JS.lastIndexOf c (front ++ String c post) = Some (length front).
Proof.
  intros Hpost. induction front as [|a front IH]; simpl.
  - now rewrite (lastIndexOf_clean c post Hpost), Ascii.eqb_refl.
  - now rewrite IH.
Qed.

Lemma append_assoc_string (a b c : string) : (a ++ b) ++ c = a ++ (b ++ c).
Proof. induction a as [|x a IH]; simpl; [reflexivity | now rewrite IH]. Qed.

Lemma substring_middle (a b c : string) :
  substring (length a) (length b) (a ++ b ++ c) = b.
Proof.
  induction a as [|x a IH]; simpl; [apply substring_append_exact | exact IH].
Qed.

Context {P : Platform}.

(** X23: prose around the JSON block is ignored.  When nothing before the
    block contains an opening brace and nothing after it a closing brace,
    extracting from the whole text is the same as parsing the block by
    itself, whatever stands between its outer braces. *)
Theorem safeJsonParse_ignores_prose (pre middle post : string)
  (Hpre : everyUnit (isNot "{") pre = true)
  (Hpost : everyUnit (isNot "}") post = true) :
  safeJsonParse (pre ++ "{" ++ middle ++ "}" ++ post)
  = JSON_parse ("{" ++ middle ++ "}").
Proof.
  unfold safeJsonParse.
  assert (Htruthy : JS.truthy (pre ++ "{" ++ middle ++ "}" ++ post) = true).
  { destruct pre; reflexivity. }
  rewrite Htruthy. cbn [negb].
  change (pre ++ "{" ++ middle ++ "}" ++ post)
    with (pre ++ String "{" (middle ++ String "}" post)).
  rewrite (indexOf_after_clean_prefix "{" pre _ Hpre).
  replace (pre ++ String "{" (middle ++ String "}" post))
    with ((pre ++ String "{" middle) ++ String "}" post)
    by (rewrite append_assoc_string; reflexivity).
  rewrite (lastIndexOf_before_clean_suffix "}" _ post Hpost).
  rewrite length_append. cbn [length].
  destruct (Nat.leb_spec (length pre + S (length middle)) (length pre));
    [lia|].
  f_equal. unfold JS.slice.
  replace (length pre + S (length middle) + 1 - length pre)
    with (length ("{" ++ middle ++ "}"))
    by (cbn [append length]; rewrite length_append; simpl; lia).
  replace ((pre ++ String "{" middle) ++ String "}" post)
    with (pre ++ ("{" ++ middle ++ "}") ++ post)
    by (rewrite (append_assoc_string pre); cbn [append];
        rewrite (append_assoc_string middle); reflexivity).
  apply substring_middle.
Qed.

End ProseAroundJson.

Lemma safeJsonParse_ignores_prose_witness :
  everyUnit (isNot "{") "Sure, here it is: " = true
  /\ everyUnit (isNot "}") " Hope that helps!" = true
  /\ @safeJsonParse ReferencePlatform
       ("Sure, here it is: " ++ "{" ++ jsonText "'a':{'b':[1,2]}" ++ "}"
          ++ " Hope that helps!")
     = @JSON_parse ReferencePlatform
         ("{" ++ jsonText "'a':{'b':[1,2]}" ++ "}").
Proof.
  split; [reflexivity|]. split; [reflexivity|].
  apply (@safeJsonParse_ignores_prose ReferencePlatform
           "Sure, here it is: " (jsonText "'a':{'b':[1,2]}")
           " Hope that helps!"); reflexivity.
Defined.

(** ** The size of the truncated resume *)

Section TruncatedSize.

Lemma substring_0_append (n : nat) (a b : string) :
  n <= length a -> substring 0 n (a ++ b) = substring 0 n a.
Proof.
  revert a. induction n as [|n IH]; intros a H.
  - destruct a, b; reflexivity.
  - destruct a as [|c a]; simpl in H; [lia|]. simpl. rewrite IH; [reflexivity | lia].
Qed.

Lemma substring_0_0 (n m : nat) (s : string) :
  n <= m -> substring 0 n (substring 0 m s) = substring 0 n s.
Proof.
  revert m s. induction n as [|n IH]; intros m s H.
  - destruct m; destruct s; reflexivity.
  - destruct m as [|m]; [lia|]. destruct s as [|c s]; [reflexivity|].
    simpl. rewrite IH; [reflexivity | lia].
Qed.

(** X24: the truncated resume is never longer than 8003 units, it is empty
    only for an empty resume, and up to 8000 units a leading slice of it is
    the same leading slice of the resume itself; so the 1000-unit snippet
    the handlers return is the beginning of the resume text. *)
Theorem truncateContent_bounded (content : string) (n : nat)
  (Hn : n <= MAX_RESUME_LENGTH) :
  length (truncateContent content) <= MAX_RESUME_LENGTH + 3
  /\ (truncateContent content = "" <-> content = "")
  /\ JS.slice (truncateContent content) 0 n = JS.slice content 0 n.
Proof.
  destruct (Nat.le_gt_cases (length content) MAX_RESUME_LENGTH) as [Hle|Hgt].
  - rewrite (truncateContent_short content Hle).
    split; [lia|]. split; [tauto | reflexivity].
  - rewrite (truncateContent_long content Hgt).
    destruct (substring_split MAX_RESUME_LENGTH content) as [rest [_ Hl]];
      [lia|].
    split; [|split].
    + rewrite length_append, Hl. change (length "...") with 3. lia.
    + split.
      * intros H. apply (f_equal length) in H.
        rewrite length_append in H. change (length "...") with 3 in H.
        simpl in H. lia.
      * intros ->. simpl in Hgt. lia.
    + unfold JS.slice. rewrite Nat.sub_0_r.
      rewrite substring_0_append by lia.
      now apply substring_0_0.
Qed.

End TruncatedSize.

Lemma truncateContent_bounded_witness :
  1000 <= MAX_RESUME_LENGTH
  /\ JS.slice (truncateContent "Jane Doe, engineer") 0 1000
     = JS.slice "Jane Doe, engineer" 0 1000.
Proof.
  assert (Hn : 1000 <= MAX_RESUME_LENGTH)
    by (apply Nat.leb_le; vm_compute; reflexivity).
  split; [exact Hn|].
  exact (proj2 (proj2 (truncateContent_bounded "Jane Doe, engineer" 1000 Hn))).
Defined.

(** * The resume analyser *)

Section AnalyserFacts.

Context {P : Platform}.

Lemma getModel_available (w : World.t) (cachedModel : option Model) :
  (exists m, fst (getModel w cachedModel) = Returns m)
  <-> (cachedModel <> None \/ World.GEMINI_KEY w <> "").
Proof.
  unfold getModel. destruct cachedModel as [m|].
  - split; [intros _; left; discriminate | intros _; now exists m].
  - destruct (JS.truthy (World.GEMINI_KEY w)) eqn:T; simpl.
    + split; [intros _; right; now apply truthy_true_ne | eauto].
    + apply truthy_false in T. split.
      * intros [m Hm]. discriminate.
      * intros [H|H]; [now destruct H | now destruct (H T)].
Qed.

Lemma safeJsonParse_nonempty (text : string) (parsed : Json) :
  safeJsonParse text = Returns parsed -> JS.truthy text = true.
Proof.
  unfold safeJsonParse. destruct (JS.truthy text); [reflexivity|].
  discriminate.
Qed.

Lemma decode_returns (parsed : Json) :
  parsed <> JNull ->
  exists r,
    (summary <- summaryField parsed ;;
     keywords <- arrayField parsed "keywords" ;;
     strengths <- arrayField parsed "strengths" ;;
     nextSteps <- arrayField parsed "nextSteps" ;;
     jobQueries <- arrayField parsed "jobQueries" ;;
     Returns (AnalysisResult.mk summary keywords strengths nextSteps
                jobQueries)) = Returns r.
Proof.
  intros Hn. destruct parsed; try (now destruct Hn); simpl; eauto.
Qed.

(** X25: the analyser returns a result exactly when a model is available
    (cached, or a key is set), the AI call yields a text, and the JSON block
    of that text parses to something other than [null].  Every other case
    is an error: there is no fallback. *)
Theorem runGeminiAnalysis_succeeds_iff (w : World.t)
  (respond : string -> option (option string)) (cachedModel : option Model)
  (resumeText : string) (customPrompt : option string) :
  (exists r,
      fst (runGeminiAnalysis w respond cachedModel resumeText customPrompt)
      = Returns r)
  <-> ((cachedModel <> None \/ World.GEMINI_KEY w <> "")
       /\ exists text parsed,
           respond (analysisPrompt resumeText customPrompt)
           = Some (Some text)
           /\ safeJsonParse text = Returns parsed
           /\ parsed <> JNull).
Proof.
  rewrite <- getModel_available. unfold runGeminiAnalysis.
  destruct (getModel w cachedModel) as [[m|msg] cached]; cbn [fst].
  - destruct (respond (analysisPrompt resumeText customPrompt))
      as [[text|]|]; cbn [bindO].
    + destruct (JS.truthy text) eqn:T; cbn [bindO].
      * destruct (safeJsonParse text) as [parsed|msg] eqn:Hp; cbn [bindO].
        -- split.
           ++ intros [r Hr]. split; [eauto|]. exists text, parsed.
              split; [reflexivity|]. split; [exact Hp|].
              intros ->. simpl in Hr. discriminate.
           ++ intros [_ [text' [parsed' [Ht [Hp' Hn]]]]].
              injection Ht as <-. rewrite Hp in Hp'. injection Hp' as <-.
              now apply decode_returns.
        -- split.
           ++ intros [r Hr]. discriminate.
           ++ intros [_ [text' [parsed' [Ht [Hp' _]]]]].
              injection Ht as <-. rewrite Hp in Hp'. discriminate.
      * split.
        -- intros [r Hr]. discriminate.
        -- intros [_ [text' [parsed' [Ht [Hp' _]]]]].
           injection Ht as <-. apply safeJsonParse_nonempty in Hp'.
           congruence.
    + split; [intros [r Hr]; discriminate|].
      intros [_ [text' [parsed' [Ht _]]]]. discriminate.
    + split; [intros [r Hr]; discriminate|].
      intros [_ [text' [parsed' [Ht _]]]]. discriminate.
  - split; [intros [r Hr]; discriminate|].
    intros [[m' Hm] _]. discriminate.
Qed.

(** X26: when the JSON block of the reply is an object, the analyser
    returns whatever keys the object has or lacks.  The summary is never
    [null]; each of the four list fields is the array stored under its key,
    with its items untouched, and is empty when the key is missing or holds
    something that is not an array. *)
Theorem runGeminiAnalysis_tolerant (w : World.t)
  (respond : string -> option (option string)) (cachedModel : option Model)
  (resumeText : string) (customPrompt : option string)
  (text : string) (fields : list (string * Json))
  (Hmodel : cachedModel <> None \/ World.GEMINI_KEY w <> "")
  (Hreply : respond (analysisPrompt resumeText customPrompt)
            = Some (Some text))
  (Hparsed : safeJsonParse text = Returns (JObject fields)) :
  exists r,
    fst (runGeminiAnalysis w respond cachedModel resumeText customPrompt)
    = Returns r
    /\ AnalysisResult.summary r <> JNull
    /\ (forall value,
           lookupField fields "summary" = Some value -> value <> JNull ->
           AnalysisResult.summary r = value)
    /\ Forall (fun '(key, field) =>
                 (forall items,
                     lookupField fields key = Some (JArray items) ->
                     field = items)
                 /\ ((forall items,
                         lookupField fields key <> Some (JArray items)) ->
                     field = []))
         [("keywords", AnalysisResult.keywords r);
          ("strengths", AnalysisResult.strengths r);
          ("nextSteps", AnalysisResult.nextSteps r);
          ("jobQueries", AnalysisResult.jobQueries r)].
Proof.
  apply getModel_available in Hmodel. destruct Hmodel as [m Hm].
  unfold runGeminiAnalysis.
  destruct (getModel w cachedModel) as [[m'|msg] cached]; cbn [fst] in *;
    [|discriminate].
  rewrite Hreply. rewrite (safeJsonParse_nonempty _ _ Hparsed).
  cbn [bindO]. rewrite Hparsed. cbn [bindO].
  unfold summaryField, arrayField, getProp. cbn [bindO].
  eexists. split; [reflexivity|]. cbn [AnalysisResult.summary
    AnalysisResult.keywords AnalysisResult.strengths
    AnalysisResult.nextSteps AnalysisResult.jobQueries].
  assert (Hlist : forall key,
    (forall items, lookupField fields key = Some (JArray items) ->
       match lookupField fields key with
       | Some (JArray items0) => items0
       | _ => []
       end = items)
    /\ ((forall items, lookupField fields key <> Some (JArray items)) ->
        match lookupField fields key with
        | Some (JArray items0) => items0
        | _ => []
        end = [])).
  { intros key. split.
    - intros items ->. reflexivity.
    - intros Hno. destruct (lookupField fields key) as [[]|]; try reflexivity.
      now destruct (Hno items). }
  split; [|split].
  - destruct (lookupField fields "summary") as [[]|]; discriminate.
  - intros value -> Hv. destruct value; try reflexivity. now destruct Hv.
  - repeat constructor; apply Hlist.
Qed.

(** X27: the analyser sees the resume only through its first 8000 units
    and the candidate's priorities only through their trimmed text: two
    long resumes that agree on their first 8000 units, with priorities that
    agree once trimmed, get the same outcome from the same AI. *)
Theorem runGeminiAnalysis_reads_truncated_resume (w : World.t)
  (respond : string -> option (option string)) (cachedModel : option Model)
  (resume1 resume2 priorities1 priorities2 : string)
  (Hlong1 : MAX_RESUME_LENGTH < length resume1)
  (Hlong2 : MAX_RESUME_LENGTH < length resume2)
  (Hprefix : JS.slice resume1 0 MAX_RESUME_LENGTH
             = JS.slice resume2 0 MAX_RESUME_LENGTH)
  (Htrim : JS.trim priorities1 = JS.trim priorities2) :
  runGeminiAnalysis w respond cachedModel resume1 (Some priorities1)
  = runGeminiAnalysis w respond cachedModel resume2 (Some priorities2).
Proof.
  unfold runGeminiAnalysis, analysisPrompt, guidanceOf.
  rewrite (truncateContent_long resume1 Hlong1).
  rewrite (truncateContent_long resume2 Hlong2).
  unfold JS.slice in Hprefix. rewrite Nat.sub_0_r in Hprefix.
  rewrite Hprefix, Htrim. reflexivity.
Qed.

End AnalyserFacts.

Lemma runGeminiAnalysis_tolerant_witness :
  @safeJsonParse ReferencePlatform
    (jsonText "Here: {'summary':null,'keywords':['rust',7],'strengths':'many'}")
  = Returns (JObject [("summary", JNull);
                      ("keywords", JArray [JString "rust"; JNumber 7 0]);
                      ("strengths", JString "many")])
  /\ exists r,
      fst (@runGeminiAnalysis ReferencePlatform (demoWorld "key" None)
             (fun _ => Some (Some (jsonText
                "Here: {'summary':null,'keywords':['rust',7],'strengths':'many'}")))
             None "Jane Doe, engineer" None)
      = Returns r
      /\ AnalysisResult.summary r <> JNull.
Proof.
  assert (Hparsed :
    @safeJsonParse ReferencePlatform
      (jsonText "Here: {'summary':null,'keywords':['rust',7],'strengths':'many'}")
    = Returns (JObject [("summary", JNull);
                        ("keywords", JArray [JString "rust"; JNumber 7 0]);
                        ("strengths", JString "many")]))
    by (vm_compute; reflexivity).
  split; [exact Hparsed|].
  destruct (@runGeminiAnalysis_tolerant ReferencePlatform
              (demoWorld "key" None)
              (fun _ => Some (Some (jsonText
                 "Here: {'summary':null,'keywords':['rust',7],'strengths':'many'}")))
              None "Jane Doe, engineer" None _ _
              (or_intror (fun H : "key" = "" => eq_ind "key"
                 (fun s => match s with EmptyString => False | _ => True end)
                 I "" H))
              eq_refl Hparsed)
    as [r [Hr [Hs _]]].
  exists r. split; [exact Hr | exact Hs].
Defined.

Lemma runGeminiAnalysis_reads_truncated_resume_witness :
  MAX_RESUME_LENGTH < length (longResume "first ending")
  /\ MAX_RESUME_LENGTH < length (longResume "another")
  /\ JS.slice (longResume "first ending") 0 MAX_RESUME_LENGTH
     = JS.slice (longResume "another") 0 MAX_RESUME_LENGTH
  /\ JS.trim " remote roles " = JS.trim "remote roles"
  /\ @runGeminiAnalysis ReferencePlatform (demoWorld "key" None)
       (fun _ => None) None (longResume "first ending")
       (Some " remote roles ")
     = @runGeminiAnalysis ReferencePlatform (demoWorld "key" None)
         (fun _ => None) None (longResume "another") (Some "remote roles").
Proof.
  assert (H1 : MAX_RESUME_LENGTH < length (longResume "first ending"))
    by (apply Nat.ltb_lt; vm_compute; reflexivity).
  assert (H2 : MAX_RESUME_LENGTH < length (longResume "another"))
    by (apply Nat.ltb_lt; vm_compute; reflexivity).
  assert (H3 : JS.slice (longResume "first ending") 0 MAX_RESUME_LENGTH
               = JS.slice (longResume "another") 0 MAX_RESUME_LENGTH)
    by (vm_compute; reflexivity).
  assert (H4 : JS.trim " remote roles " = JS.trim "remote roles")
    by (vm_compute; reflexivity).
  split; [exact H1|]. split; [exact H2|]. split; [exact H3|].
  split; [exact H4|].
  exact (@runGeminiAnalysis_reads_truncated_resume ReferencePlatform
           (demoWorld "key" None) (fun _ => None) None
           (longResume "first ending") (longResume "another")
           " remote roles " "remote roles" H1 H2 H3 H4).
Defined.

(** * The job-search endpoint *)

Section SearchEndpointFacts.

Context {P : Platform}.

Lemma typedQueries_Forall (entries : list Json) :
  Forall (fun entry => exists query, typedQuery entry = Some query) entries ->
  exists queries,
    typedQueries entries = Some queries
    /\ List.length queries = List.length entries.
Proof.
  induction 1 as [|entry rest [query Hq] _ [queries [IH Hlen]]]; simpl.
  - exists []. split; reflexivity.
  - rewrite Hq, IH. exists (query :: queries). split; [reflexivity|].
    simpl. now rewrite Hlen.
Qed.



Lemma generateJobsWithGemini_links w cachedModel queries location remote jobs :
  fst (generateJobsWithGemini w cachedModel queries location remote)
  = Returns jobs ->
  Forall httpsLink jobs.
Proof.
  apply generateJobsWithGemini_Forall.
  - intros index job posting. apply assemblePosting_https.
  - intros query queryIndex offset posting _. apply fallbackJob_https.
Qed.

Lemma generateJobsWithGemini_state w cachedModel queries location remote :
  snd (generateJobsWithGemini w cachedModel queries location remote)
  = snd (getModel w cachedModel).
Proof.
  unfold generateJobsWithGemini.
  destruct (getModel w cachedModel) as [[m|msg] cached]; reflexivity.
Qed.

Lemma getModel_unconfigured (w : World.t) :
  World.GEMINI_KEY w = "" ->
  getModel w None
  = (Throws "Gemini model is not configured. Provide a valid GEMINI_API_KEY.",
     None).
Proof. intros H. unfold getModel. rewrite H. reflexivity. Qed.

(** The handler up to the call of the engine. *)
Lemma searchHandler_validation w cachedModel method body :
  (method <> "POST"
   /\ searchHandler w cachedModel method body
      = (Response.mk 405 (Message "Method Not Allowed"), cachedModel))
  \/ (method = "POST" /\ keptEntries body = []
      /\ searchHandler w cachedModel method body
         = (searchRejection, cachedModel))
  \/ (method = "POST" /\ keptEntries body <> []
      /\ searchHandler w cachedModel method body
         = searchJobs w cachedModel (keptEntries body)
             (lookupField (bodyFields body) "location")
             (truthyValue (lookupField (bodyFields body) "remote"))).
Proof.
  unfold searchHandler.
  destruct (String.eqb_spec method "POST") as [->|Hne]; cbn [negb];
    [|left; split; [exact Hne | reflexivity]].
  right. unfold keptEntries.
  destruct (entriesOf body) as [|entry rest] eqn:Ee.
  - left. repeat split.
  - destruct (filter keepsEntry (entry :: rest)) as [|kept others] eqn:Ek.
    + left. repeat split.
    + right. split; [reflexivity|]. split; [discriminate | reflexivity].
Qed.

(** The engine call with a model at hand. *)
Lemma searchJobs_available w cachedModel parsedQueries location remote m :
  fst (getModel w cachedModel) = Returns m ->
  parsedQueries <> [] ->
  snd (searchJobs w cachedModel parsedQueries location remote)
  = snd (getModel w cachedModel)
  /\ ((forallb directiveReadable parsedQueries = false
       \/ placeOf location = Untrimmable) ->
      fst (searchJobs w cachedModel parsedQueries location remote)
      = searchFailure)
  /\ (forallb directiveReadable parsedQueries = true ->
      placeOf location <> Untrimmable ->
      Response.status
        (fst (searchJobs w cachedModel parsedQueries location remote)) = 200
      /\ ((forall queries, typedQueries parsedQueries <> Some queries) ->
          Response.payload
            (fst (searchJobs w cachedModel parsedQueries location remote))
          = UntypedJobs)
      /\ (forall queries,
             typedQueries parsedQueries = Some queries ->
             exists jobs,
               Response.payload
                 (fst (searchJobs w cachedModel parsedQueries location
                         remote))
               = Jobs jobs
               /\ jobs <> [] /\ Forall httpsLink jobs)).
Proof.
  intros Hm Hsome.
  assert (Hrun : forall queries place,
    typedQueries parsedQueries = Some queries ->
    exists jobs,
      generateJobsWithGemini w cachedModel queries place remote
      = (Returns jobs, snd (getModel w cachedModel))
      /\ jobs <> [] /\ Forall httpsLink jobs).
  { intros queries place Hq.
    assert (Hqueries : queries <> []).
    { intros ->. destruct parsedQueries as [|entry rest]; [congruence|].
      simpl in Hq. destruct (typedQuery entry); [|discriminate].
      destruct (typedQueries rest); discriminate. }
    destruct (generateJobsWithGemini_nonempty w cachedModel queries place
                remote m Hm Hqueries) as [jobs [Hj Hne]].
    exists jobs. split; [|split; [exact Hne|]].
    - rewrite <- (generateJobsWithGemini_state w cachedModel queries place
                    remote).
      rewrite <- Hj. now destruct (generateJobsWithGemini _ _ _ _ _).
    - eapply generateJobsWithGemini_links; eauto. }
  unfold searchJobs.
  destruct (getModel w cachedModel) as [[m'|msg] cached] eqn:Eg;
    cbn [fst snd] in *; [|discriminate].
  destruct (forallb directiveReadable parsedQueries) eqn:Er; cbn [negb].
  - destruct (placeOf location) as [|place|] eqn:Ep.
    + destruct (typedQueries parsedQueries) as [queries|] eqn:Eq.
      * destruct (Hrun queries None eq_refl) as [jobs [-> [Hne Hl]]].
        cbn [fst snd Response.status Response.payload].
        split; [reflexivity|].
        split; [intros [H|H]; discriminate|].
        intros _ _. split; [reflexivity|].
        split; [intros H; now destruct (H queries)|].
        intros queries' [= <-]. eauto.
      * cbn [fst snd Response.status Response.payload].
        split; [reflexivity|].
        split; [intros [H|H]; discriminate|].
        intros _ _. split; [reflexivity|].
        split; [reflexivity | discriminate].
    + destruct (typedQueries parsedQueries) as [queries|] eqn:Eq.
      * destruct (Hrun queries (Some place) eq_refl) as [jobs [-> [Hne Hl]]].
        cbn [fst snd Response.status Response.payload].
        split; [reflexivity|].
        split; [intros [H|H]; discriminate|].
        intros _ _. split; [reflexivity|].
        split; [intros H; now destruct (H queries)|].
        intros queries' [= <-]. eauto.
      * cbn [fst snd Response.status Response.payload].
        split; [reflexivity|].
        split; [intros [H|H]; discriminate|].
        intros _ _. split; [reflexivity|].
        split; [reflexivity | discriminate].
    + cbn [fst snd]. split; [reflexivity|]. split; [reflexivity|].
      intros _ H. now destruct H.
  - cbn [fst snd]. split; [reflexivity|]. split; [reflexivity|].
    discriminate.
Qed.

Lemma searchJobs_unavailable w cachedModel parsedQueries location remote :
  (forall m, fst (getModel w cachedModel) <> Returns m) ->
  searchJobs w cachedModel parsedQueries location remote
  = (searchFailure, snd (getModel w cachedModel)).
Proof.
  intros Hno. unfold searchJobs.
  destruct (getModel w cachedModel) as [[m|msg] cached];
    [now destruct (Hno m) | reflexivity].
Qed.

Lemma readable_cases (entries : list Json) (location : option Json) :
  (forallb directiveReadable entries = false
   \/ placeOf location = Untrimmable)
  \/ (forallb directiveReadable entries = true
      /\ placeOf location <> Untrimmable).
Proof.
  destruct (forallb directiveReadable entries); [|left; now left].
  destruct (placeOf location); [right | right | left; now right];
    split; congruence.
Qed.

Lemma getModel_cases (w : World.t) (cachedModel : option Model) :
  (exists m, fst (getModel w cachedModel) = Returns m)
  \/ (forall m, fst (getModel w cachedModel) <> Returns m).
Proof.
  destruct (fst (getModel w cachedModel)) as [m|msg];
    [left; now exists m | right; discriminate].
Qed.

Lemma keptEntries_typed (body : option Json) :
  typedRequest body ->
  exists queries, typedQueries (keptEntries body) = Some queries.
Proof.
  intros Htyped.
  destruct (typedQueries_Forall _ Htyped) as [queries [Hq _]]. eauto.
Qed.

(** Status and payload of the answers of the engine call. *)
Lemma searchJobs_answer w cachedModel parsedQueries location remote :
  parsedQueries <> [] ->
  let response :=
    fst (searchJobs w cachedModel parsedQueries location remote) in
  (response = searchFailure \/ Response.status response = 200)
  /\ (Response.status response = 200 ->
      forall queries,
        typedQueries parsedQueries = Some queries ->
        exists jobs,
          Response.payload response = Jobs jobs
          /\ jobs <> [] /\ Forall httpsLink jobs).
Proof.
  intros Hsome. cbv zeta.
  destruct (getModel_cases w cachedModel) as [[m Hm]|Hno].
  - destruct (searchJobs_available w cachedModel parsedQueries location
                remote m Hm Hsome) as [_ [Hbad Hgood]].
    destruct (readable_cases parsedQueries location) as [Hcase|[Hr Hp]].
    + rewrite (Hbad Hcase). split; [now left | discriminate].
    + destruct (Hgood Hr Hp) as [Hs [_ Htyped]].
      split; [now right|]. intros _. exact Htyped.
  - rewrite (searchJobs_unavailable _ _ _ _ _ Hno). cbn [fst].
    split; [now left | discriminate].
Qed.

(** X28: the endpoint answers every request with 200, 400, 405 or 500.
    The answer is 405 exactly for a method other than POST, and 400 exactly
    for a POST whose [queries] holds no entry with a true title and a true
    query; in both cases the engine is not called and the cached model is
    left as it was.  Every answer other than 200 carries a message, and a
    200 answer to a request whose kept entries have string titles and
    queries carries at least one posting, every link of which starts with
    [https://]. *)
Theorem searchHandler_answers (w : World.t) (cachedModel : option Model)
  (method : string) (body : option Json) :
  let response := fst (searchHandler w cachedModel method body) in
  let cached := snd (searchHandler w cachedModel method body) in
  In (Response.status response) [200; 400; 405; 500]
  /\ (Response.status response = 405 <-> method <> "POST")
  /\ (Response.status response = 400
      <-> method = "POST" /\ keptEntries body = [])
  /\ (Response.status response = 400 \/ Response.status response = 405 ->
      cached = cachedModel)
  /\ (Response.status response <> 200 ->
      exists text, Response.payload response = Message text)
  /\ (typedRequest body ->
      Response.status response = 200 ->
      exists jobs,
        Response.payload response = Jobs jobs
        /\ jobs <> [] /\ Forall httpsLink jobs).
Proof.
  cbv zeta.
  destruct (searchHandler_validation w cachedModel method body)
    as [[Hm H]|[[Hm [Hk H]]|[Hm [Hk H]]]]; rewrite H.
  - cbn [fst snd Response.status Response.payload].
    split; [cbn; tauto|]. split; [tauto|].
    split; [split; [discriminate | tauto]|].
    split; [reflexivity|]. split; [eauto | discriminate].
  - cbn [fst snd Response.status Response.payload searchRejection].
    split; [cbn; tauto|]. split; [split; [discriminate | congruence]|].
    split; [tauto|]. split; [reflexivity|]. split; [eauto | discriminate].
  - destruct (searchJobs_answer w cachedModel (keptEntries body)
                (lookupField (bodyFields body) "location")
                (truthyValue (lookupField (bodyFields body) "remote")) Hk)
      as [Hstatus Hjobs].
    assert (Hs : Response.status
                   (fst (searchJobs w cachedModel (keptEntries body)
                           (lookupField (bodyFields body) "location")
                           (truthyValue
                              (lookupField (bodyFields body) "remote"))))
                 = 500
                 \/ Response.status
                      (fst (searchJobs w cachedModel (keptEntries body)
                              (lookupField (bodyFields body) "location")
                              (truthyValue
                                 (lookupField (bodyFields body) "remote"))))
                    = 200).
    { destruct Hstatus as [-> | Hs]; [now left | now right]. }
    split; [destruct Hs as [-> | ->]; cbn; tauto|].
    split; [split; [destruct Hs; congruence | congruence]|].
    split; [split; [destruct Hs; congruence | intros [_ Hk']; contradiction]|].
    split; [intros [H4|H4]; destruct Hs; congruence|].
    split.
    + intros Hne. destruct Hstatus as [-> | Hs']; [cbn; eauto | contradiction].
    + intros Htyped H200.
      destruct (keptEntries_typed body Htyped) as [queries Hq].
      exact (Hjobs H200 queries Hq).
Qed.

(** X29: without a key and without a cached model the endpoint never
    answers 200 and never returns postings, whatever the request and the AI
    client, and the model cache stays empty; a POST with at least one kept
    entry is answered with 500 and the message "Failed to fetch job
    listings.".  The offline catalogue is out of reach of an unconfigured
    server. *)
Theorem searchHandler_unconfigured (w : World.t) (method : string)
  (body : option Json)
  (Hkey : World.GEMINI_KEY w = "") :
  Response.status (fst (searchHandler w None method body)) <> 200
  /\ (exists text,
         Response.payload (fst (searchHandler w None method body))
         = Message text)
  /\ snd (searchHandler w None method body) = None
  /\ (method = "POST" -> keptEntries body <> [] ->
      fst (searchHandler w None method body) = searchFailure).
Proof.
  destruct (searchHandler_validation w None method body)
    as [[Hm H]|[[Hm [Hk H]]|[Hm [Hk H]]]]; rewrite H.
  - split; [discriminate|]. split; [cbn; eauto|].
    split; [reflexivity|]. intros Hp. contradiction.
  - split; [discriminate|]. split; [cbn; eauto|].
    split; [reflexivity|]. intros _ Hk'. contradiction.
  - unfold searchJobs. rewrite (getModel_unconfigured w Hkey).
    split; [discriminate|]. split; [cbn; eauto|].
    split; reflexivity.
Qed.


End SearchEndpointFacts.

Lemma searchHandler_answers_witness :
  typedRequest (Some (searchBody (JString "Berlin")))
  /\ Response.status
       (fst (@searchHandler ReferencePlatform
               (demoWorld "key" (Some (Some placeholderReply))) None "POST"
               (Some (searchBody (JString "Berlin"))))) = 200
  /\ exists jobs,
      Response.payload
        (fst (@searchHandler ReferencePlatform
                (demoWorld "key" (Some (Some placeholderReply))) None "POST"
                (Some (searchBody (JString "Berlin")))))
      = Jobs jobs
      /\ jobs <> [] /\ Forall httpsLink jobs.
Proof.
  assert (Htyped : typedRequest (Some (searchBody (JString "Berlin")))).
  { constructor; [|constructor].
    exists (JobQuery.mk "Data Engineer" "data engineer python").
    reflexivity. }
  assert (Hstatus :
    Response.status
      (fst (@searchHandler ReferencePlatform
              (demoWorld "key" (Some (Some placeholderReply))) None "POST"
              (Some (searchBody (JString "Berlin"))))) = 200)
    by (vm_compute; reflexivity).
  split; [exact Htyped|]. split; [exact Hstatus|].
  exact (proj2 (proj2 (proj2 (proj2 (proj2
           (@searchHandler_answers ReferencePlatform
              (demoWorld "key" (Some (Some placeholderReply))) None "POST"
              (Some (searchBody (JString "Berlin"))))))))
           Htyped Hstatus).
Defined.

Lemma searchHandler_unconfigured_witness :
  World.GEMINI_KEY (demoWorld "" (Some (Some placeholderReply))) = ""
  /\ fst (@searchHandler ReferencePlatform
            (demoWorld "" (Some (Some placeholderReply))) None "POST"
            (Some numberedBody))
     = searchFailure.
Proof.
  split; [reflexivity|].
  apply (proj2 (proj2 (proj2
           (@searchHandler_unconfigured ReferencePlatform
              (demoWorld "" (Some (Some placeholderReply))) "POST"
              (Some numberedBody) eq_refl)))); [reflexivity|].
  vm_compute. discriminate.
Defined.

